(** * loopctl: the resource compiler, deferred values and the apply run

    A shallow embedding of [src/loopctl/__main__.py].  Python objects are
    modelled as data, the four module-level dictionaries as one [store]
    that every function threads explicitly, exceptions as a [result], and
    [while True] loops as functions with a fuel argument (running out of
    fuel is [None]: the loop has not returned yet). *)

From Stdlib Require Import String Ascii List ZArith Lia Bool Arith Permutation Sorted.
From Stdlib Require Import Init.Byte DecimalString.
Import ListNotations.
Open Scope list_scope.
Open Scope string_scope.

Set Implicit Arguments.

(** ** Exceptions and results *)

Inductive exn : Type :=
| ValueError | KeyError | TypeError | AttributeError | IndexError
| StopIteration | TransportError.

Inductive result (A : Type) : Type :=
| Ok (a : A)
| Raise (e : exn).
Arguments Ok {A} a.
Arguments Raise {A} e.

(** ** Identities: the frozen dataclasses *)

Record ResourceReference : Type := mkRef { ref_kind : string; ref_name : string }.
Record ConfigKey : Type := mkKey { reference : ResourceReference; key : string }.

Definition ResourceReference_str (r : ResourceReference) : string :=
  ref_kind r ++ "/" ++ ref_name r.

Definition ResourceReference_eq_dec (a b : ResourceReference) : {a = b} + {a <> b}.
Proof. decide equality; apply string_dec. Defined.

Definition ConfigKey_eq_dec (a b : ConfigKey) : {a = b} + {a <> b}.
Proof. decide equality; [apply string_dec | apply ResourceReference_eq_dec]. Defined.

(** ** Python values

    What a YAML document or a compiled payload can hold: scalars, lists,
    dictionaries, and the three [DeferredValue] classes.  [DeferredId]
    stands for itself and its subclasses [ClientId], [GroupId], [LoopId],
    [StreamId], [ClusterId], which only fix the kind and the field;
    [ApiKeyId] overrides [link].  A dictionary is insertion ordered, as in
    Python.  Its keys are whatever hashable object the code uses: strings
    in every document, but [get_generated_id] also looks a [ConfigKey] up. *)

Inductive pykey : Type :=
| KStr (s : string)
| KConfigKey (ck : ConfigKey).

Definition pykey_eq_dec (a b : pykey) : {a = b} + {a <> b}.
Proof. decide equality; [apply string_dec | apply ConfigKey_eq_dec]. Defined.

#[warnings="-register-all"]
Inductive value : Type :=
| VNone
| VBool (b : bool)
| VInt (z : Z)
| VStr (s : string)
| VList (l : list value)
| VDict (d : list (pykey * value))
| VDeferredId (ck : ConfigKey)
| VApiKeyId (ck : ConfigKey)
| VRemote (resource_reference : ResourceReference) (remote : value).

Definition pydict : Type := list (pykey * value).

Definition DeferredId (kind name field : string) : value :=
  VDeferredId (mkKey (mkRef kind name) field).
Definition ApiKeyId (name : string) : value :=
  VApiKeyId (mkKey (mkRef "ApiKey" name) "apiKey").
Definition ClientId (name : string) : value := DeferredId "Client" name "clientId".
Definition GroupId (name : string) : value := DeferredId "Group" name "groupId".
Definition LoopId (name : string) : value := DeferredId "Loop" name "loopId".
Definition StreamId (name : string) : value := DeferredId "Stream" name "streamId".
Definition ClusterId (name : string) : value := DeferredId "Cluster" name "clusterId".

(** [isinstance(v, DeferredValue)] *)
Definition is_DeferredValue (v : value) : bool :=
  match v with
  | VDeferredId _ | VApiKeyId _ | VRemote _ _ => true
  | _ => false
  end.

(** Python truthiness.  The deferred classes define neither [__bool__] nor
    [__len__], so their instances are true. *)
Definition truthy (v : value) : bool :=
  match v with
  | VNone => false
  | VBool b => b
  | VInt z => negb (Z.eqb z 0)
  | VStr s => negb (String.eqb s "")
  | VList l => match l with [] => false | _ => true end
  | VDict d => match d with [] => false | _ => true end
  | VDeferredId _ | VApiKeyId _ | VRemote _ _ => true
  end.

(** ** Insertion-ordered dictionaries *)

Section Dict.
Variables K V : Type.
Variable K_eq_dec : forall a b : K, {a = b} + {a <> b}.

Fixpoint dict_get (d : list (K * V)) (k : K) : option V :=
  match d with
  | [] => None
  | (k', v) :: d' => if K_eq_dec k k' then Some v else dict_get d' k
  end.

(** [d[k] = v]: an existing key keeps its place, a new one goes last. *)
Fixpoint dict_set (d : list (K * V)) (k : K) (v : V) : list (K * V) :=
  match d with
  | [] => [(k, v)]
  | (k', v') :: d' =>
      if K_eq_dec k k' then (k', v) :: d' else (k', v') :: dict_set d' k v
  end.

Definition dict_mem (d : list (K * V)) (k : K) : bool :=
  match dict_get d k with Some _ => true | None => false end.
End Dict.

Definition py_get (d : pydict) (k : pykey) : option value := dict_get pykey_eq_dec d k.

(** [d[k]]: [KeyError] when the key is missing. *)
Definition py_getitem (d : pydict) (k : string) : result value :=
  match py_get d (KStr k) with
  | Some v => Ok v
  | None => Raise KeyError
  end.

(** [v.get(k)] on an arbitrary object: only a dict has the method. *)
Definition py_dot_get (v : value) (k : pykey) : result value :=
  match v with
  | VDict d => match py_get d k with Some x => Ok x | None => Ok VNone end
  | _ => Raise AttributeError
  end.

(** [v[k]] with a string key on an arbitrary object. *)
Definition py_index (v : value) (k : string) : result value :=
  match v with
  | VDict d => py_getitem d k
  | _ => Raise TypeError
  end.

(** Structural identity of values.  It decides Python's [==] when one
    side is a string, which equals the same string and nothing else; this
    is how the definitions below use it.  Python also holds [True == 1]
    and [False == 0]: where arbitrary values meet as dictionary keys, in
    [check_duplicates], they are compared through [canonical_value]. *)
Fixpoint value_eq_dec (a b : value) {struct a} : {a = b} + {a <> b}.
Proof.
  destruct a, b; try (right; discriminate); try (left; reflexivity).
  - destruct (bool_dec b0 b); [left | right]; congruence.
  - destruct (Z.eq_dec z z0); [left | right]; congruence.
  - destruct (string_dec s s0); [left | right]; congruence.
  - assert (H : {l = l0} + {l <> l0}).
    { revert l0. induction l as [|x xs IH]; intros [|y ys];
        try (right; discriminate); try (left; reflexivity).
      destruct (value_eq_dec x y); [|right; congruence].
      destruct (IH ys); [left | right]; congruence. }
    destruct H; [left | right]; congruence.
  - assert (H : {d = d0} + {d <> d0}).
    { revert d0. induction d as [|[k x] xs IH]; intros [|[k' y] ys];
        try (right; discriminate); try (left; reflexivity).
      destruct (pykey_eq_dec k k'); [|right; congruence].
      destruct (value_eq_dec x y); [|right; congruence].
      destruct (IH ys); [left | right]; congruence. }
    destruct H; [left | right]; congruence.
  - destruct (ConfigKey_eq_dec ck ck0); [left | right]; congruence.
  - destruct (ConfigKey_eq_dec ck ck0); [left | right]; congruence.
  - destruct (ResourceReference_eq_dec resource_reference resource_reference0);
      [|right; congruence].
    destruct (value_eq_dec a b); [left | right]; congruence.
Defined.

Arguments value_eq_dec : simpl never.

(** ** Resources and the global indices *)

Record ResourceId : Type := mkId { id_kind : string; id : value }.

Inductive parent_link : Type :=
| ParentReference (r : ResourceReference)
| ParentId (i : ResourceId).

(** An instance of [Resource] or of one of its six subclasses; the class is
    the [kind] every constructor sets.  [valid] is the class attribute of
    [ApiKey] (default [True]) that [apply] overwrites on the instance. *)
Record Resource : Type := mkResource {
  kind : string;
  name : string;
  config : pydict;
  parent_ref_or_id : option parent_link;
  valid : bool
}.

Record LocatedResource : Type := mkLocated {
  path : string;
  index : nat;
  resource : Resource
}.

Definition Resource_reference (r : Resource) : ResourceReference :=
  mkRef (kind r) (name r).

(** The four dictionaries of the module, and the operating system's source
    of random bytes: [os_urandom n k] is byte [k] of the [n]-th call. *)
Record store : Type := mkStore {
  existing_resources : list (ResourceReference * LocatedResource);
  compiled_resources : list (ResourceReference * Resource);
  generated_values : list (ConfigKey * string);
  id_to_reference : list (ResourceId * ResourceReference);
  os_urandom : nat -> nat -> byte;
  urandom_calls : nat
}.

Definition ResourceId_eq_dec (a b : ResourceId) : {a = b} + {a <> b}.
Proof. decide equality; [apply value_eq_dec | apply string_dec]. Defined.

Definition set_generated_values (s : store) g : store :=
  mkStore (existing_resources s) (compiled_resources s) g
          (id_to_reference s) (os_urandom s) (urandom_calls s).

Definition set_id_to_reference (s : store) m : store :=
  mkStore (existing_resources s) (compiled_resources s) (generated_values s)
          m (os_urandom s) (urandom_calls s).

Definition set_compiled_resources (s : store) c : store :=
  mkStore (existing_resources s) c (generated_values s)
          (id_to_reference s) (os_urandom s) (urandom_calls s).

Definition set_existing_resources (s : store) x : store :=
  mkStore x (compiled_resources s) (generated_values s)
          (id_to_reference s) (os_urandom s) (urandom_calls s).

(** ** Identifier allocation *)

Definition hex_digit (n : nat) : ascii :=
  match n with
  | 0 => "0" | 1 => "1" | 2 => "2" | 3 => "3" | 4 => "4" | 5 => "5"
  | 6 => "6" | 7 => "7" | 8 => "8" | 9 => "9" | 10 => "a" | 11 => "b"
  | 12 => "c" | 13 => "d" | 14 => "e" | _ => "f"
  end%char.

(** ["{:02x}".format(byte)] *)
Definition format_02x (b : byte) : string :=
  let n := Byte.to_nat b in
  String (hex_digit (n / 16)) (String (hex_digit (n mod 16)) EmptyString).

(** [random_id]: forty hexadecimal digits from twenty fresh random bytes. *)
Definition random_id (s : store) : string * store :=
  let random_bytes := map (os_urandom s (urandom_calls s)) (seq 0 20) in
  (String.concat "" (map format_02x random_bytes),
   mkStore (existing_resources s) (compiled_resources s) (generated_values s)
           (id_to_reference s) (os_urandom s) (S (urandom_calls s))).

(** [get_generated_id(configKey, prefix)].  Both payload look-ups pass the
    [ConfigKey] object itself to [dict.get], as the source does. *)
Definition get_generated_id (configKey : ConfigKey) (prefix : string) (s : store)
  : result value * store :=
  let generate (s : store) :=
    let (rid, s1) := random_id s in
    let new_id := prefix ++ rid in
    (Ok (VStr new_id),
     set_generated_values s1
       (dict_set ConfigKey_eq_dec (generated_values s1) configKey new_id)) in
  let from_existing (s : store) :=
    match dict_get ResourceReference_eq_dec (existing_resources s) (reference configKey) with
    | Some existing =>
        match py_getitem (config (resource existing)) "spec" with
        | Raise e => (Raise e, s)
        | Ok spec =>
            match py_dot_get spec (KConfigKey configKey) with
            | Raise e => (Raise e, s)
            | Ok r => if truthy r then (Ok r, s) else generate s
            end
        end
    | None => generate s
    end in
  let from_generated (s : store) :=
    match dict_get ConfigKey_eq_dec (generated_values s) configKey with
    | Some generated =>
        if truthy (VStr generated) then (Ok (VStr generated), s) else from_existing s
    | None => from_existing s
    end in
  match dict_get ResourceReference_eq_dec (compiled_resources s) (reference configKey) with
  | Some created =>
      match py_getitem (config created) "spec" with
      | Raise e => (Raise e, s)
      | Ok spec =>
          match py_dot_get spec (KConfigKey configKey) with
          | Raise e => (Raise e, s)
          | Ok r =>
              if truthy r && negb (is_DeferredValue r) then (Ok r, s)
              else from_generated s
          end
      end
  | None => from_generated s
  end.

(** [get_resource_by_reference]: a compiled resource shadows a persisted one. *)
Definition get_resource_by_reference (s : store) (r : ResourceReference)
  : option Resource :=
  match dict_get ResourceReference_eq_dec (compiled_resources s) r with
  | Some created => Some created
  | None =>
      match dict_get ResourceReference_eq_dec (existing_resources s) r with
      | Some existing => Some (resource existing)
      | None => None
      end
  end.

Definition require_resource_by_reference (s : store) (r : ResourceReference)
  : result Resource :=
  match get_resource_by_reference s r with
  | Some res => Ok res
  | None => Raise ValueError
  end.

(** [DeferredId.link]: resolve, then record which reference owns the id. *)
Definition DeferredId_link (configKey : ConfigKey) (s : store) : result value * store :=
  match get_generated_id configKey (ref_name (reference configKey) ++ "-") s with
  | (Raise e, s1) => (Raise e, s1)
  | (Ok r, s1) =>
      let i := mkId (ref_kind (reference configKey)) r in
      (Ok r, set_id_to_reference s1
               (dict_set ResourceId_eq_dec (id_to_reference s1) i (reference configKey)))
  end.

(** [ApiKeyId.link] *)
Definition ApiKeyId_link (configKey : ConfigKey) (s : store) : result value * store :=
  get_generated_id configKey "" s.

(** ** Computations

    [M S A]: a computation over a state [S] that returns an [A], raises, or
    (inside a [while True] loop) has not finished when its fuel is spent.
    A raise keeps the state reached so far, as mutation does in Python. *)

Definition M (S A : Type) : Type := S -> option (result A * S).

Definition ret {S A} (a : A) : M S A := fun s => Some (Ok a, s).
Definition raise {S A} (e : exn) : M S A := fun s => Some (Raise e, s).
Definition bind {S A B} (m : M S A) (f : A -> M S B) : M S B :=
  fun s =>
    match m s with
    | None => None
    | Some (Raise e, s') => Some (Raise e, s')
    | Some (Ok a, s') => f a s'
    end.
Definition of_result {S A} (r : result A) : M S A := fun s => Some (r, s).
Definition total {S A} (f : S -> result A * S) : M S A := fun s => Some (f s).
Definition reading {S A} (f : S -> option (result A)) : M S A :=
  fun s => match f s with Some r => Some (r, s) | None => None end.

Notation "x <- m ;; k" := (bind m (fun x => k))
  (at level 61, m at next level, right associativity).

(** ** Namespaces *)

(** [Resource.namespace] *)
Definition Resource_namespace (r : Resource) : result value :=
  match py_getitem (config r) "metadata" with
  | Raise e => Raise e
  | Ok metadata => py_dot_get metadata (KStr "namespace")
  end.

(** [Resource.parent] *)
Definition Resource_parent (s : store) (r : Resource) : result (option Resource) :=
  match parent_ref_or_id r with
  | None => Ok None
  | Some (ParentReference ref) => Ok (get_resource_by_reference s ref)
  | Some (ParentId i) =>
      match dict_get ResourceId_eq_dec (id_to_reference s) i with
      | None => Raise KeyError
      | Some ref => Ok (get_resource_by_reference s ref)
      end
  end.

(** The test at the head of the loop of [Remote.link]: the namespace, when
    the resource itself tells it. *)
Definition known_namespace (namespace : value) : option value :=
  if truthy namespace then
    match namespace with
    | VStr _ => Some namespace
    | VRemote _ remote => if truthy remote then Some remote else None
    | _ => None
    end
  else None.

(** The [while True] loop of [Remote.link], one iteration per unit of fuel. *)
Fixpoint Remote_link_walk (fuel : nat) (s : store) (res : Resource)
  : option (result value) :=
  match fuel with
  | O => None
  | S fuel' =>
      match Resource_namespace res with
      | Raise e => Some (Raise e)
      | Ok namespace =>
          match known_namespace namespace with
          | Some n => Some (Ok n)
          | None =>
              match Resource_parent s res with
              | Raise e => Some (Raise e)
              | Ok None => Some (Raise ValueError)
              | Ok (Some p) => Remote_link_walk fuel' s p
              end
          end
      end
  end.

(** [Remote.link] *)
Definition Remote_link (fuel : nat) (s : store)
           (resource_reference : ResourceReference) (remote : value)
  : option (result value) :=
  if truthy remote then Some (Ok remote)
  else
    match require_resource_by_reference s resource_reference with
    | Raise e => Some (Raise e)
    | Ok res => Remote_link_walk fuel s res
    end.

(** ** Materialization *)

(** The module-level [link(value)].  No payload holds a [Resource], so that
    branch of the source has no counterpart here. *)
Fixpoint link (fuel : nat) (v : value) {struct v} : M store value :=
  match v with
  | VDeferredId ck => total (DeferredId_link ck)
  | VApiKeyId ck => total (ApiKeyId_link ck)
  | VRemote ref remote => reading (fun s => Remote_link fuel s ref remote)
  | VList l =>
      l' <- (fix link_list (l : list value) : M store (list value) :=
               match l with
               | [] => ret []
               | x :: xs =>
                   x' <- link fuel x ;; xs' <- link_list xs ;; ret (x' :: xs')
               end) l ;;
      ret (VList l')
  | VDict d =>
      d' <- (fix link_items (d : pydict) : M store pydict :=
               match d with
               | [] => ret []
               | (k, x) :: xs =>
                   x' <- link fuel x ;; xs' <- link_items xs ;; ret ((k, x') :: xs')
               end) d ;;
      ret (VDict d')
  | _ => ret v
  end.

(** [Resource.link]: the materialized document, its spec stripped of the
    fields whose value is not true. *)
Definition Resource_link (fuel : nat) (r : Resource) : M store pydict :=
  compiled <- link fuel (VDict (config r)) ;;
  match compiled with
  | VDict compiled_config =>
      apiVersion <- of_result (py_getitem compiled_config "apiVersion") ;;
      knd <- of_result (py_getitem compiled_config "kind") ;;
      metadata <- of_result (py_getitem compiled_config "metadata") ;;
      spec <- of_result (py_getitem compiled_config "spec") ;;
      match spec with
      | VDict items =>
          ret [ (KStr "apiVersion", apiVersion);
                (KStr "kind", knd);
                (KStr "metadata", metadata);
                (KStr "spec", VDict (filter (fun xy => truthy (snd xy)) items)) ]
      | _ => raise AttributeError
      end
  | _ => raise TypeError
  end.

(** [repr] of a literal, for the text of [str] on a list or a dict.  Quotes
    are not escaped and a deferred object prints as its class name; no
    statement below looks at this text. *)
Fixpoint py_repr (v : value) : string :=
  match v with
  | VNone => "None"
  | VBool true => "True"
  | VBool false => "False"
  | VInt z => NilZero.string_of_int (Z.to_int z)
  | VStr s => "'" ++ s ++ "'"
  | VList l => "[" ++ String.concat ", " (map py_repr l) ++ "]"
  | VDict d =>
      "{" ++ String.concat ", "
               (map (fun kv =>
                       match fst kv with
                       | KStr k => "'" ++ k ++ "'"
                       | KConfigKey _ => "ConfigKey"
                       end ++ ": " ++ py_repr (snd kv)) d) ++ "}"
  | VDeferredId _ => "DeferredId"
  | VApiKeyId _ => "ApiKeyId"
  | VRemote _ _ => "Remote"
  end.

(** [str(v)].  [DeferredValue.__str__] returns [self.link()], and Python
    rejects a [__str__] that does not return a string. *)
Definition py_str (fuel : nat) (v : value) : M store string :=
  match v with
  | VStr s => ret s
  | VDeferredId _ | VApiKeyId _ | VRemote _ _ =>
      r <- link fuel v ;;
      match r with
      | VStr s => ret s
      | _ => raise TypeError
      end
  | _ => ret (py_repr v)
  end.

Definition gets {S A} (f : S -> A) : M S A := fun s => Some (Ok (f s), s).

(** [try: ... except ...] around [m]: the exception becomes a value the
    handler can inspect. *)
Definition attempt {S A} (m : M S A) : M S (result A) :=
  fun s => match m s with Some (r, s') => Some (Ok r, s') | None => None end.

(** ** Storage paths *)

(** The files on disk: path and the documents the file holds. *)
Definition filesystem : Type := list (string * list value).

(** [os.path.exists] *)
Definition os_path_exists (fs : filesystem) (p : string) : bool :=
  dict_mem string_dec fs p.

Definition starts_with_sep (b : string) : bool :=
  match b with
  | String c _ => Ascii.eqb c "/"
  | EmptyString => false
  end.

Fixpoint ends_with_sep (p : string) : bool :=
  match p with
  | EmptyString => false
  | String c EmptyString => Ascii.eqb c "/"
  | String _ rest => ends_with_sep rest
  end.

(** [posixpath.join(a, *p)] on strings. *)
Definition os_path_join (a : string) (p : list string) : string :=
  fold_left
    (fun path b =>
       if starts_with_sep b then b
       else if String.eqb path "" || ends_with_sep path then path ++ b
       else path ++ "/" ++ b)
    p a.

Definition as_path_component (v : value) : result string :=
  match v with
  | VStr s => Ok s
  | _ => Raise TypeError
  end.

(** [a or b] *)
Definition py_or (a b : value) : value := if truthy a then a else b.

(** [a + b] for a string [a]: only a string can be added to it. *)
Definition str_add (a : string) (b : value) : result string :=
  match b with
  | VStr s => Ok (a ++ s)
  | _ => Raise TypeError
  end.

(** The loop of [create_resource_path]. *)
Fixpoint create_resource_path_loop (fuel : nat) (fs : filesystem)
         (prefix : string) (suffix : Z) : option (result string) :=
  match fuel with
  | O => None
  | S fuel' =>
      match str_add prefix (py_or (VInt suffix) (VStr "")) with
      | Raise e => Some (Raise e)
      | Ok stem =>
          let result := stem ++ ".yaml" in
          if negb (os_path_exists fs result) then Some (Ok result)
          else create_resource_path_loop fuel' fs prefix (suffix + 1)
      end
  end.

(** [create_resource_path(folder, config)] *)
Definition create_resource_path (fuel : nat) (fs : filesystem)
           (folder : string) (config : pydict) : option (result string) :=
  match py_getitem config "kind" with
  | Raise e => Some (Raise e)
  | Ok k =>
      match py_getitem config "metadata" with
      | Raise e => Some (Raise e)
      | Ok metadata =>
          match py_index metadata "name" with
          | Raise e => Some (Raise e)
          | Ok n =>
              match as_path_component k, as_path_component n with
              | Ok k', Ok n' =>
                  create_resource_path_loop fuel fs (os_path_join folder [k'; n']) 0
              | _, _ => Some (Raise TypeError)
              end
          end
      end
  end.

(** ** The merge pass *)

(** A parsed document with its file and its ordinal in the file. *)
Definition located_config : Type := (string * nat * value)%type.

(** [l[i] = v] *)
Fixpoint list_assign (l : list value) (i : nat) (v : value) : option (list value) :=
  match l, i with
  | [], _ => None
  | _ :: xs, O => Some (v :: xs)
  | x :: xs, S i' =>
      match list_assign xs i' v with
      | Some xs' => Some (x :: xs')
      | None => None
      end
  end.

(** Reading [d[k]] on a [defaultdict(list)] inserts the missing key. *)
Definition defaultdict_touch (d : list (string * list value)) (k : string)
  : list (string * list value) :=
  if dict_mem string_dec d k then d else dict_set string_dec d k [].

Definition defaultdict_get (d : list (string * list value)) (k : string) : list value :=
  match dict_get string_dec d k with Some l => l | None => [] end.

Definition defaultdict_append (d : list (string * list value)) (k : string) (v : value)
  : list (string * list value) :=
  dict_set string_dec d k (defaultdict_get d k ++ [v])%list.

(** [set.add]; the elements are kept in insertion order (Python leaves the
    iteration order of a set unspecified). *)
Definition set_add (l : list string) (x : string) : list string :=
  if existsb (String.eqb x) l then l else (l ++ [x])%list.

(** The local variables of [link_resources]. *)
Record link_state : Type := mkLinkState {
  error : bool;
  updated_configs : list (string * list value);
  updated_yaml_files : list string
}.

(** The loop of [link_resources] over [compiled_resources.items()]. *)
Fixpoint link_resources_loop (fuel : nat) (fs : filesystem)
         (resources_path secrets_path : string)
         (items : list (ResourceReference * Resource)) (st : link_state)
  : M store link_state :=
  match items with
  | [] => ret st
  | (reference, target_resource) :: rest =>
      existing <- gets (fun s =>
                          dict_get ResourceReference_eq_dec (existing_resources s) reference) ;;
      match existing with
      | Some location =>
          doc <- Resource_link fuel target_resource ;;
          let touched := defaultdict_touch (updated_configs st) (path location) in
          match list_assign (defaultdict_get touched (path location))
                            (index location) (VDict doc) with
          | None => raise IndexError
          | Some docs =>
              link_resources_loop fuel fs resources_path secrets_path rest
                (mkLinkState (error st)
                   (dict_set string_dec touched (path location) docs)
                   (set_add (updated_yaml_files st) (path location)))
          end
      | None =>
          target_file <-
            reading (fun _ =>
                       create_resource_path fuel fs
                         (if String.eqb (ref_kind reference) "ApiKey"
                          then secrets_path else resources_path)
                         (config target_resource)) ;;
          let touched := defaultdict_touch (updated_configs st) target_file in
          linked <- attempt (Resource_link fuel target_resource) ;;
          match linked with
          | Raise ValueError =>
              link_resources_loop fuel fs resources_path secrets_path rest
                (mkLinkState true touched (updated_yaml_files st))
          | Raise e => raise e
          | Ok doc =>
              link_resources_loop fuel fs resources_path secrets_path rest
                (mkLinkState (error st)
                   (defaultdict_append touched target_file (VDict doc))
                   (set_add (updated_yaml_files st) target_file))
          end
      end
  end.

(** [link_resources(prior_configs, resources_path, secrets_path)] *)
Definition link_resources (fuel : nat) (fs : filesystem)
           (prior_configs : list located_config)
           (resources_path secrets_path : string)
  : M store (list (string * list value)) :=
  let updated_configs0 :=
    fold_left (fun d (c : located_config) => defaultdict_append d (fst (fst c)) (snd c))
              prior_configs [] in
  items <- gets compiled_resources ;;
  st <- link_resources_loop fuel fs resources_path secrets_path items
          (mkLinkState false updated_configs0 []) ;;
  if error st then raise ValueError
  else ret (map (fun x => (x, defaultdict_get (updated_configs st) x))
                (updated_yaml_files st)).

(** ** The duplicate detector *)

Definition CONFIG_PRIORITY : list (string * nat) :=
  [ ("ResourceDefs", 0); ("ApiKey", 1); ("Client", 2); ("Group", 3);
    ("Loop", 4); ("Stream", 5); ("Cluster", 6) ]%nat.

Fixpoint is_infix (p s : string) : bool :=
  if String.prefix p s then true
  else match s with
       | EmptyString => false
       | String _ rest => is_infix p rest
       end.

(** [k in v] for a string [k]: key of a dict, element of a list, substring
    of a string; the other literals are not iterable. *)
Definition py_contains (k : string) (v : value) : result bool :=
  match v with
  | VDict d => Ok (dict_mem pykey_eq_dec d (KStr k))
  | VList l => Ok (existsb (fun x => if value_eq_dec x (VStr k) then true else false) l)
  | VStr s => Ok (is_infix k s)
  | _ => Raise TypeError
  end.

(** Lists and dicts cannot be hashed. *)
Definition py_hashable (v : value) : bool :=
  match v with
  | VList _ | VDict _ => false
  | _ => true
  end.

(** A key of a dict, as the value an iteration over the dict yields; the
    dicts of a document have string keys. *)
Definition key_as_value (k : pykey) : value :=
  match k with
  | KStr s => VStr s
  | KConfigKey _ => VNone
  end.

Fixpoint characters (s : string) : list value :=
  match s with
  | EmptyString => []
  | String c rest => VStr (String c EmptyString) :: characters rest
  end.

(** What [for x in v] iterates over. *)
Definition py_iter (v : value) : result (list value) :=
  match v with
  | VList l => Ok l
  | VDict d => Ok (map (fun kv => key_as_value (fst kv)) d)
  | VStr s => Ok (characters s)
  | _ => Raise TypeError
  end.

(** [is_itl_resource(config)] *)
Definition is_itl_resource (config : value) : result bool :=
  match py_contains "apiVersion" config with
  | Raise e => Raise e
  | Ok false => Ok false
  | Ok true =>
      match py_contains "kind" config with
      | Raise e => Raise e
      | Ok false => Ok false
      | Ok true =>
          match py_index config "apiVersion" with
          | Raise e => Raise e
          | Ok v =>
              if value_eq_dec v (VStr "thatone.ai/v1") then
                match py_index config "kind" with
                | Raise e => Raise e
                | Ok (VStr k) => Ok (dict_mem string_dec CONFIG_PRIORITY k)
                | Ok k => if py_hashable k then Ok false else Raise TypeError
                end
              else Ok false
          end
      end
  end.

(** The tuples [expand_keys] yields. *)
Definition resource_key : Type := (value * value)%type.

Definition resource_key_eq_dec (a b : resource_key) : {a = b} + {a <> b}.
Proof. decide equality; apply value_eq_dec. Defined.

(** A dictionary finds a key by its hash and by [==], and for both [True]
    is [1] and [False] is [0]: a hashable literal with its booleans read
    as integers.  Two hashable literals are equal for Python exactly when
    their canonical values are identical. *)
Definition canonical_value (v : value) : value :=
  match v with
  | VBool true => VInt 1
  | VBool false => VInt 0
  | _ => v
  end.

(** Tuples are compared and hashed component by component. *)
Definition canonical (key : resource_key) : resource_key :=
  (canonical_value (fst key), canonical_value (snd key)).

(** [for member in config_value: yield (kind, member["name"])].  The
    consumer, [check_duplicates], uses each key as a dictionary key as soon
    as it is yielded, which needs it hashable. *)
Fixpoint member_keys (kind : string) (members : list value)
  : result (list resource_key) :=
  match members with
  | [] => Ok []
  | member :: rest =>
      match py_index member "name" with
      | Raise e => Raise e
      | Ok n =>
          if py_hashable n then
            match member_keys kind rest with
            | Raise e => Raise e
            | Ok ks => Ok ((VStr kind, n) :: ks)
            end
          else Raise TypeError
      end
  end.

Definition section_kind (config_type : pykey) : option string :=
  match config_type with
  | KStr "apikeys" => Some "ApiKey"
  | KStr "clients" => Some "Client"
  | KStr "groups" => Some "Group"
  | KStr "loops" => Some "Loop"
  | KStr "streams" => Some "Stream"
  | KStr "clusters" => Some "Cluster"
  | _ => None
  end.

(** The loop of [expand_keys] over [config["spec"].items()]. *)
Fixpoint expand_sections (items : pydict) : result (list resource_key) :=
  match items with
  | [] => Ok []
  | (config_type, config_value) :: rest =>
      match section_kind config_type with
      | None => Raise ValueError
      | Some kind =>
          match py_iter config_value with
          | Raise e => Raise e
          | Ok members =>
              match member_keys kind members with
              | Raise e => Raise e
              | Ok ks =>
                  match expand_sections rest with
                  | Raise e => Raise e
                  | Ok ks' => Ok (ks ++ ks')%list
                  end
              end
          end
      end
  end.

(** [expand_keys(config)]: every key the generator yields, or the
    exception that ends it. *)
Definition expand_keys (config : value) : result (list resource_key) :=
  match py_index config "kind" with
  | Raise e => Raise e
  | Ok k =>
      if value_eq_dec k (VStr "ResourceDefs") then
        match py_index config "spec" with
        | Raise e => Raise e
        | Ok (VDict items) => expand_sections items
        | Ok _ => Raise AttributeError
        end
      else
        match py_index config "metadata" with
        | Raise e => Raise e
        | Ok metadata =>
            match py_index metadata "name" with
            | Raise e => Raise e
            | Ok n =>
                if py_hashable k && py_hashable n then Ok [(k, n)]
                else Raise TypeError
            end
        end
  end.

(** [known_keys]: the entries are found by the canonical form of the key;
    an entry keeps the key as it was first written (a dictionary never
    replaces the key object of an existing entry), then file, then number
    of occurrences. *)
Definition key_counts : Type :=
  list (resource_key * (resource_key * list (string * nat))).

(** [known_keys[key][filepath] += 1] on the nested [defaultdict]. *)
Definition count_key (known_keys : key_counts) (key : resource_key) (filepath : string)
  : key_counts :=
  let entry :=
    match dict_get resource_key_eq_dec known_keys (canonical key) with
    | Some entry => entry
    | None => (key, [])
    end in
  let n := match dict_get string_dec (snd entry) filepath with
           | Some n => n
           | None => 0%nat
           end in
  dict_set resource_key_eq_dec known_keys (canonical key)
           (fst entry, dict_set string_dec (snd entry) filepath (S n)).

Definition count_keys_of (known_keys : key_counts) (filepath : string)
           (keys : list resource_key) : key_counts :=
  fold_left (fun known key => count_key known key filepath) keys known_keys.

(** The first loop of [check_duplicates]. *)
Fixpoint count_configs (known_keys : key_counts) (configs : list located_config)
  : result key_counts :=
  match configs with
  | [] => Ok known_keys
  | (filepath, _, config) :: rest =>
      match is_itl_resource config with
      | Raise e => Raise e
      | Ok false => count_configs known_keys rest
      | Ok true =>
          match expand_keys config with
          | Raise e => Raise e
          | Ok keys =>
              count_configs (count_keys_of known_keys filepath keys) rest
          end
      end
  end.

(** [sum(file_counts.values()) > 1] *)
Definition is_duplicate (entry : resource_key * (resource_key * list (string * nat)))
  : bool :=
  Nat.ltb 1 (list_sum (map snd (snd (snd entry)))).

(** [check_duplicates(configs)]: the duplicates it prints, each key as the
    dictionary holds it with the files it names, and whether it raises. *)
Definition check_duplicates (configs : list located_config)
  : list (resource_key * list string) * result unit :=
  match count_configs [] configs with
  | Raise e => ([], Raise e)
  | Ok known_keys =>
      let error := existsb is_duplicate known_keys in
      (map (fun entry => (fst (snd entry), map fst (snd (snd entry))))
           (filter is_duplicate known_keys),
       if error then Raise ValueError else Ok tt)
  end.

(** ** The remote policy service and the run's world *)

Record request : Type := mkRequest {
  url : string;
  json : value;
  apikey_param : option string
}.

(** What [httpx.Client.put] does: it returns a response, or raises when
    the transport fails. *)
Inductive reply : Type :=
| Response (status_code : Z)
| TransportFailure.

(** Everything a run can read or change: the indices, the files on disk,
    the requests sent so far, and the service, which answers the [n]-th
    request of the run. *)
Record world : Type := mkWorld {
  indices : store;
  files : filesystem;
  sent : list request;
  remote_service : nat -> request -> reply
}.

Definition on_store {A} (m : M store A) : M world A :=
  fun w =>
    match m (indices w) with
    | None => None
    | Some (r, s') => Some (r, mkWorld s' (files w) (sent w) (remote_service w))
    end.

(** [put_with_key(url, json, key=None)] *)
Definition put_with_key (url : string) (json : value) (key : option string)
  : M world Z :=
  fun w =>
    let params := match key with
                  | Some k => if truthy (VStr k) then Some k else None
                  | None => None
                  end in
    let req := mkRequest url json params in
    let w' := mkWorld (indices w) (files w) (sent w ++ [req])%list (remote_service w) in
    match remote_service w (length (sent w)) req with
    | Response status => Some (Ok status, w')
    | TransportFailure => Some (Raise TransportError, w')
    end.

(** ** Credentials *)

(** An [ApiKey] object is found in one of the two indices, under its
    reference. *)
Inductive origin : Type := FromCompiled | FromExisting.
Definition handle : Type := (origin * ResourceReference)%type.

(** [get_resources_by_type(kind)], each resource with where it lives. *)
Definition get_resources_by_type (s : store) (kind : string)
  : list (handle * Resource) :=
  (map (fun cr => ((FromCompiled, fst cr), snd cr))
       (filter (fun cr => String.eqb (ref_kind (fst cr)) kind) (compiled_resources s))
   ++
   map (fun cv => ((FromExisting, fst cv), resource (snd cv)))
       (filter (fun cv => String.eqb (ref_kind (fst cv)) kind) (existing_resources s)))%list.

Definition with_valid (r : Resource) (b : bool) : Resource :=
  mkResource (kind r) (name r) (config r) (parent_ref_or_id r) b.

(** [apikey.valid = b] on the object behind a handle. *)
Definition set_valid (h : handle) (b : bool) (s : store) : store :=
  match h with
  | (FromCompiled, ref) =>
      match dict_get ResourceReference_eq_dec (compiled_resources s) ref with
      | Some r =>
          set_compiled_resources s
            (dict_set ResourceReference_eq_dec (compiled_resources s) ref (with_valid r b))
      | None => s
      end
  | (FromExisting, ref) =>
      match dict_get ResourceReference_eq_dec (existing_resources s) ref with
      | Some l =>
          set_existing_resources s
            (dict_set ResourceReference_eq_dec (existing_resources s) ref
                      (mkLocated (path l) (index l) (with_valid (resource l) b)))
      | None => s
      end
  end.

(** The current [valid] flag of the object behind a handle. *)
Definition valid_of (s : store) (h : handle) : option bool :=
  match h with
  | (FromCompiled, ref) =>
      option_map valid (dict_get ResourceReference_eq_dec (compiled_resources s) ref)
  | (FromExisting, ref) =>
      option_map (fun l => valid (resource l))
                 (dict_get ResourceReference_eq_dec (existing_resources s) ref)
  end.

(** [str(r.config['spec']['clientId'])] *)
Definition spec_clientId (fuel : nat) (r : Resource) : M store string :=
  spec <- of_result (py_getitem (config r) "spec") ;;
  cid <- of_result (py_index spec "clientId") ;;
  py_str fuel cid.

(** [ApiKey.key] *)
Definition ApiKey_key (fuel : nat) (apikey : Resource) : M store string :=
  spec <- of_result (py_getitem (config apikey) "spec") ;;
  k <- of_result (py_index spec "apiKey") ;;
  py_str fuel k.

(** [get_client_parent_id(client_id)] *)
Definition get_client_parent_id (fuel : nat) (client_id : ResourceId)
  : M store (option ResourceId) :=
  client_reference <- gets (fun s => dict_get ResourceId_eq_dec (id_to_reference s) client_id) ;;
  match client_reference with
  | None => ret None
  | Some ref =>
      found <- gets (fun s => get_resource_by_reference s ref) ;;
      match found with
      | None => ret None
      | Some res =>
          spec <- of_result (py_getitem (config res) "spec") ;;
          has_parent <- of_result (py_contains "parentId" spec) ;;
          if has_parent : bool then
            parent <- of_result (py_index spec "parentId") ;;
            parent_str <- py_str fuel parent ;;
            ret (Some (mkId "Client" (VStr parent_str)))
          else ret None
      end
  end.

(** A suspended [apikeys_for_client] generator: the client whose keys it is
    listing and how far it is through [get_resources_by_type('ApiKey')].
    The generator that recurses into the parent client takes the place of
    the one that created it. *)
Record generator : Type := mkGenerator {
  client_id : ResourceId;
  position : nat
}.

(** Resuming the generator: the next key it yields with the generator
    suspended after it, or [None] when it returns.  The [valid] flag is
    read when the generator reaches the key, not when it was created. *)
Fixpoint apikeys_for_client_next (fuel : nat) (g : generator)
  : M store (option (handle * Resource * generator)) :=
  match fuel with
  | O => fun _ => None
  | S fuel' =>
      candidates <- gets (fun s => get_resources_by_type s "ApiKey") ;;
      match nth_error candidates (position g) with
      | Some (h, apikey) =>
          let g' := mkGenerator (client_id g) (S (position g)) in
          if negb (valid apikey) then apikeys_for_client_next fuel' g'
          else
            cid_str <- spec_clientId fuel' apikey ;;
            if value_eq_dec (VStr cid_str) (id (client_id g))
            then
              (* print('found key', apikey.key, ...) evaluates the key *)
              _ <- ApiKey_key fuel' apikey ;;
              ret (Some (h, apikey, g'))
            else apikeys_for_client_next fuel' g'
      | None =>
          parent_id <- get_client_parent_id fuel' (client_id g) ;;
          match parent_id with
          | None => ret None
          | Some parent => apikeys_for_client_next fuel' (mkGenerator parent 0)
          end
      end
  end.

(** [apikeys_for_client(client_id)]: calling a generator function runs
    nothing yet. *)
Definition apikeys_for_client (client_id : ResourceId) : generator :=
  mkGenerator client_id 0.

(** [apikeys_for_resource(client_resource)]; [None] is the implicit return
    after [break]. *)
Fixpoint apikeys_for_resource (fuel : nat) (client_resource : Resource)
  : M store (option generator) :=
  match fuel with
  | O => fun _ => None
  | S fuel' =>
      if String.eqb (kind client_resource) "Client" then
        cid_str <- spec_clientId fuel' client_resource ;;
        ret (Some (apikeys_for_client (mkId "Client" (VStr cid_str))))
      else
        parent <- (fun s => Some (Resource_parent s client_resource, s)) ;;
        match parent with
        | None => ret None
        | Some p => apikeys_for_resource fuel' p
        end
  end.

(** ** Pushing a resource *)

Definition policies_url (url api_version kind : string) : string :=
  url ++ "/policies/" ++ api_version ++ "/" ++ kind.

(** One [put_with_key(f"{url}/policies/{self.api_version}/{self.kind}", ...)]
    of [Resource.apply]: with [apikey.key] inside the loop, without a key
    in the [else] clause. *)
Definition Resource_apply_put (fuel : nat) (self : Resource) (url : string)
           (spec : value) (apikey : option Resource) : M world Z :=
  api_version <- on_store (v <- of_result (py_getitem (config self) "apiVersion") ;;
                           py_str fuel v) ;;
  match apikey with
  | Some credential =>
      k <- on_store (ApiKey_key fuel credential) ;;
      put_with_key (policies_url url api_version (kind self)) spec (Some k)
  | None => put_with_key (policies_url url api_version (kind self)) spec None
  end.

(** The [for apikey in api_keys: ... else: ...] statement of
    [Resource.apply]; it leaves the last response in [response]. *)
Fixpoint Resource_apply_keys (fuel : nat) (self : Resource) (url : string)
         (spec : value) (api_keys : generator) : M world Z :=
  match fuel with
  | O => fun _ => None
  | S fuel' =>
      next <- on_store (apikeys_for_client_next fuel' api_keys) ;;
      match next with
      | Some (h, apikey, api_keys') =>
          status <- Resource_apply_put fuel' self url spec (Some apikey) ;;
          if negb (Z.eqb status 401) then ret status
          else
            _ <- on_store (fun s => Some (Ok tt, set_valid h false s)) ;;
            Resource_apply_keys fuel' self url spec api_keys'
      | None => Resource_apply_put fuel' self url spec None
      end
  end.

(** [Resource.apply], the method of every kind but [ApiKey]. *)
Definition Resource_apply (fuel : nat) (self : Resource) : M world bool :=
  api_keys <- on_store (apikeys_for_resource fuel self) ;;
  namespace <- of_result (Resource_namespace self) ;;
  url <- on_store (py_str fuel namespace) ;;
  compiled_config <- on_store (Resource_link fuel self) ;;
  match api_keys with
  | None => raise TypeError
  | Some g =>
      spec <- of_result (py_getitem compiled_config "spec") ;;
      status <- Resource_apply_keys fuel self url spec g ;;
      if negb (Z.eqb status 200) then ret false else ret true
  end.

(** [ApiKey.attach_to_client(existing_key)] *)
Definition ApiKey_attach_to_client (fuel : nat) (self : Resource)
           (existing_key : string) : M world bool :=
  config <- on_store (Resource_link fuel self) ;;
  metadata <- of_result (py_getitem config "metadata") ;;
  _ <- of_result (py_index metadata "name") ;;
  namespace <- of_result (py_index metadata "namespace") ;;
  url <- on_store (py_str fuel namespace) ;;
  spec <- of_result (py_getitem config "spec") ;;
  _ <- put_with_key (url ++ "/policies/thatone.ai/v1/ApiKey") spec (Some existing_key) ;;
  ret true.

(** The [for apikey in apikeys_for_client(resource_id)] loop of
    [ApiKey.apply]: [Some b] when the body returns [b], [None] when the
    generator is exhausted. *)
Fixpoint ApiKey_apply_keys (fuel : nat) (self : Resource) (api_keys : generator)
  : M world (option bool) :=
  match fuel with
  | O => fun _ => None
  | S fuel' =>
      next <- on_store (apikeys_for_client_next fuel' api_keys) ;;
      match next with
      | None => ret None
      | Some (h, apikey, api_keys') =>
          k <- on_store (ApiKey_key fuel' apikey) ;;
          attached <- ApiKey_attach_to_client fuel' self k ;;
          if attached : bool then ret (Some true)
          else
            _ <- on_store (fun s => Some (Ok tt, set_valid h false s)) ;;
            located <- on_store (gets (fun s =>
                         dict_get ResourceReference_eq_dec (existing_resources s)
                                  (Resource_reference apikey))) ;;
            match located with
            | None => raise KeyError
            | Some _ => ApiKey_apply_keys fuel' self api_keys'
            end
      end
  end.

(** [ApiKey.apply] *)
Definition ApiKey_apply (fuel : nat) (self : Resource) : M world bool :=
  cid_str <- on_store (spec_clientId fuel self) ;;
  looped <- ApiKey_apply_keys fuel self (apikeys_for_client (mkId "Client" (VStr cid_str))) ;;
  match looped with
  | Some b => ret b
  | None =>
      k <- on_store (ApiKey_key fuel self) ;;
      _ <- ApiKey_attach_to_client fuel self k ;;
      ret false
  end.

(** [resource.apply()]: the method of the resource's class. *)
Definition apply (fuel : nat) (resource : Resource) : M world bool :=
  if String.eqb (kind resource) "ApiKey" then ApiKey_apply fuel resource
  else Resource_apply fuel resource.

(** ** The apply run *)

Section Orchestrator.

(** [compile_config(filepath, config)]: the constructors of the six
    kinds.  They build resources from a document, raise on a document
    they reject, and register identifiers in [id_to_reference]; the run
    is described for whatever they compute. *)
Variable compile_config : string -> value -> store -> result (list Resource) * store.

(** The loop of [map_config_locations]; the state is its [error] flag. *)
Fixpoint map_config_locations_loop (prior_configs : list located_config)
         (error : bool) : M store bool :=
  match prior_configs with
  | [] => ret error
  | (path, i, config) :: rest =>
      itl <- of_result (is_itl_resource config) ;;
      if negb itl then map_config_locations_loop rest error
      else
        k <- of_result (py_index config "kind") ;;
        if value_eq_dec k (VStr "ResourceDefs")
        then map_config_locations_loop rest error
        else
          compiled <- attempt (total (compile_config path config)) ;;
          match compiled with
          | Raise ValueError => map_config_locations_loop rest true
          | Raise e => raise e
          | Ok [] => raise StopIteration
          | Ok (resource :: _) =>
              let key := Resource_reference resource in
              known <- gets (fun s =>
                         dict_mem ResourceReference_eq_dec (existing_resources s) key) ;;
              if known : bool then map_config_locations_loop rest true
              else
                _ <- (fun s =>
                        Some (Ok tt,
                              set_existing_resources s
                                (dict_set ResourceReference_eq_dec (existing_resources s)
                                          key (mkLocated path i resource)))) ;;
                map_config_locations_loop rest error
          end
  end.

(** [map_config_locations(resources_path, prior_configs)] *)
Definition map_config_locations (prior_configs : list located_config) : M store unit :=
  error <- map_config_locations_loop prior_configs false ;;
  if error : bool then raise ValueError else ret tt.

(** The inner loop of [compile_configs] over the resources of one
    document. *)
Fixpoint register_compiled (generated_resources : list Resource)
         (already_compiled : list ResourceReference) (s : store)
  : list ResourceReference * store :=
  match generated_resources with
  | [] => (already_compiled, s)
  | resource :: rest =>
      let key := Resource_reference resource in
      if existsb (fun k => if ResourceReference_eq_dec key k then true else false)
                 already_compiled
      then register_compiled rest already_compiled s
      else register_compiled rest (key :: already_compiled)
             (set_compiled_resources s
                (dict_set ResourceReference_eq_dec (compiled_resources s) key resource))
  end.

(** The loop of [compile_configs]. *)
Fixpoint compile_configs_loop (new_configs : list located_config)
         (already_compiled : list ResourceReference) (error : bool) : M store bool :=
  match new_configs with
  | [] => ret error
  | (filepath, _, config) :: rest =>
      compiled <- attempt (total (compile_config filepath config)) ;;
      match compiled with
      | Raise ValueError => compile_configs_loop rest already_compiled true
      | Raise e => raise e
      | Ok generated_resources =>
          fun s =>
            let (already, s') := register_compiled generated_resources already_compiled s in
            compile_configs_loop rest already error s'
      end
  end.

(** [compile_configs(new_configs)] *)
Definition compile_configs (new_configs : list located_config) : M store unit :=
  error <- compile_configs_loop new_configs [] false ;;
  if error : bool then raise ValueError else ret tt.

(** The body of the [try] statement of [Commander.apply]: the two
    duplicate checks, the locate pass, compilation and the merge pass.
    None of them can write a file or reach the service: they are
    computations over the indices that only read the disk. *)
Definition prepare (fuel : nat) (fs : filesystem)
           (new_configs prior_configs : list located_config)
           (resources_path secrets_path : string)
  : M store (list (string * list value)) :=
  _ <- of_result (snd (check_duplicates new_configs)) ;;
  _ <- of_result (snd (check_duplicates prior_configs)) ;;
  _ <- map_config_locations prior_configs ;;
  _ <- compile_configs new_configs ;;
  link_resources fuel fs prior_configs resources_path secrets_path.

(** "Save the yaml files": each file is overwritten with its documents. *)
Definition save_files (updated_configs : list (string * list value)) : M world unit :=
  fun w =>
    Some (Ok tt,
          mkWorld (indices w)
                  (fold_left (fun fs fc => dict_set string_dec fs (fst fc) (snd fc))
                             updated_configs (files w))
                  (sent w) (remote_service w)).

(** "Push the updates": the handler prints and raises the exception
    again. *)
Fixpoint push_updates (fuel : nat) (resources : list (ResourceReference * Resource))
  : M world unit :=
  match resources with
  | [] => ret tt
  | (_, resource) :: rest =>
      applied <- attempt (apply fuel resource) ;;
      match applied with
      | Raise e => raise e
      | Ok _ => push_updates fuel rest
      end
  end.

(** [Commander.apply], from the documents read from the files to apply
    (already sorted by kind priority) and from the two storage roots. *)
Definition Commander_apply (fuel : nat)
           (new_configs prior_configs : list located_config)
           (resources_path secrets_path : string) : M world unit :=
  fs <- gets files ;;
  prepared <- attempt (on_store (prepare fuel fs new_configs prior_configs
                                         resources_path secrets_path)) ;;
  match prepared with
  | Raise ValueError => ret tt
  | Raise e => raise e
  | Ok updated_configs =>
      _ <- save_files updated_configs ;;
      compiled <- gets (fun w => compiled_resources (indices w)) ;;
      push_updates fuel compiled
  end.

End Orchestrator.

(** ** Reading and ordering the documents *)

(** [validate_keys(location, config, required_keys, optional_keys)]: the
    keys of [config] hold every required key and nothing beyond the
    required and optional ones.  [location] is only printed. *)
Definition validate_keys (location : string) (config : value)
           (required_keys optional_keys : list string) : result bool :=
  match config with
  | VDict d =>
      if negb (forallb (fun r => dict_mem pykey_eq_dec d (KStr r)) required_keys)
      then Ok false
      else if negb (forallb
                      (fun k => match k with
                                | KStr s => existsb (String.eqb s)
                                                    (required_keys ++ optional_keys)%list
                                | KConfigKey _ => false
                                end)
                      (map fst d))
      then Ok false
      else Ok true
  | _ => Raise AttributeError
  end.

(** The character class [[a-z0-9.-]] of the apiVersion pattern. *)
Definition group_char (c : ascii) : bool :=
  let n := nat_of_ascii c in
  (Nat.leb 97 n && Nat.leb n 122) || (Nat.leb 48 n && Nat.leb n 57)
  || Ascii.eqb c "." || Ascii.eqb c "-".

(** The longest run of class characters at the head of a string: its
    length and what follows it. *)
Fixpoint group_run (s : string) : nat * string :=
  match s with
  | String c rest =>
      if group_char c then let (n, r) := group_run rest in (S n, r) else (0, s)
  | EmptyString => (0, s)
  end.

(** [re.match(r"^[a-z0-9.-]+/[a-z0-9.-]+$", s)]: [$] also matches before a
    final newline. *)
Definition matches_group_version (s : string) : bool :=
  let (n1, r1) := group_run s in
  Nat.ltb 0 n1
  && match r1 with
     | String c r2 =>
         Ascii.eqb c "/"
         && (let (n2, r3) := group_run r2 in
             Nat.ltb 0 n2
             && (String.eqb r3 "" || String.eqb r3 (String (ascii_of_nat 10) "")))
     | EmptyString => false
     end.

(** What the loop of [read_resource_configs_file] does with one document
    when [read_fully] is false. *)
Inductive verdict : Type :=
| Yielded | Skipped | SkippedApiVersion | SkippedKind.

Definition is_str (v : value) : bool :=
  match v with VStr _ => true | _ => false end.

Definition is_dict (v : value) : bool :=
  match v with VDict _ => true | _ => false end.

(** The body of the loop of [read_resource_configs_file], for
    [read_fully = False]. *)
Definition examine_config (config : value) : result verdict :=
  match py_contains "apiVersion" config with
  | Raise e => Raise e
  | Ok false => Ok Skipped
  | Ok true =>
  match py_index config "apiVersion" with
  | Raise e => Raise e
  | Ok apiVersion =>
  if negb (is_str apiVersion) then Ok Skipped else
  if negb (match apiVersion with VStr s => matches_group_version s | _ => false end)
  then Ok Skipped else
  match py_contains "kind" config with
  | Raise e => Raise e
  | Ok false => Ok Skipped
  | Ok true =>
  match py_index config "kind" with
  | Raise e => Raise e
  | Ok k =>
  if negb (is_str k) then Ok Skipped else
  match py_contains "metadata" config with
  | Raise e => Raise e
  | Ok false => Ok Skipped
  | Ok true =>
  match py_index config "metadata" with
  | Raise e => Raise e
  | Ok metadata =>
  if negb (is_dict metadata) then Ok Skipped else
  match py_contains "name" metadata with
  | Raise e => Raise e
  | Ok false => Ok Skipped
  | Ok true =>
  match py_index metadata "name" with
  | Raise e => Raise e
  | Ok n =>
  if negb (is_str n) then Ok Skipped else
  if value_eq_dec apiVersion (VStr "thatone.ai/v1") then
    match k with
    | VStr kind_name =>
        if dict_mem string_dec CONFIG_PRIORITY kind_name then Ok Yielded
        else Ok SkippedKind
    | _ => Ok SkippedKind
    end
  else Ok SkippedApiVersion
  end end end end end end end end.

(** What [read_resource_configs_file(file, read_fully)] yields from the
    documents that the YAML loader found in the file: the documents with
    their ordinal, and how often the file was added to
    [skipped_apiversion] and to [skipped_kind]. *)
Fixpoint read_resource_configs (read_fully : bool) (i : nat) (configs : list value)
  : result (list (nat * value) * nat * nat) :=
  match configs with
  | [] => Ok ([], 0, 0)%nat
  | config :: rest =>
      if read_fully then
        match read_resource_configs read_fully (S i) rest with
        | Raise e => Raise e
        | Ok (ys, a, k) => Ok ((i, config) :: ys, a, k)
        end
      else
        match examine_config config with
        | Raise e => Raise e
        | Ok v =>
            match read_resource_configs read_fully (S i) rest with
            | Raise e => Raise e
            | Ok (ys, a, k) =>
                match v with
                | Yielded => Ok ((i, config) :: ys, a, k)
                | Skipped => Ok (ys, a, k)
                | SkippedApiVersion => Ok (ys, S a, k)
                | SkippedKind => Ok (ys, a, S k)
                end
            end
        end
  end.

(** [config_priority(config)]: [CONFIG_PRIORITY[config["kind"]]]. *)
Definition config_priority (config : value) : result nat :=
  match py_index config "kind" with
  | Raise e => Raise e
  | Ok (VStr k) =>
      match dict_get string_dec CONFIG_PRIORITY k with
      | Some n => Ok n
      | None => Raise KeyError
      end
  | Ok k => if py_hashable k then Raise KeyError else Raise TypeError
  end.

(** The keys [sorted] computes, one per element and in order, before it
    sorts. *)
Fixpoint priorities (configs : list located_config)
  : result (list (nat * located_config)) :=
  match configs with
  | [] => Ok []
  | c :: rest =>
      match config_priority (snd c) with
      | Raise e => Raise e
      | Ok n =>
          match priorities rest with
          | Raise e => Raise e
          | Ok l => Ok ((n, c) :: l)
          end
      end
  end.

Fixpoint insert_by_priority (x : nat * located_config) (l : list (nat * located_config))
  : list (nat * located_config) :=
  match l with
  | [] => [x]
  | y :: l' =>
      if Nat.leb (fst x) (fst y) then x :: y :: l' else y :: insert_by_priority x l'
  end.

(** [sorted(configs, key=lambda x: config_priority(x[-1]))]: Python's
    sort is stable, and a stable sort has one result; it is computed here
    by insertion. *)
Definition sorted_configs (configs : list located_config)
  : result (list located_config) :=
  match priorities configs with
  | Raise e => Raise e
  | Ok keyed => Ok (map snd (fold_right insert_by_priority [] keyed))
  end.

(** ** Vocabulary of the statements *)

(** What the first three rules of [get_generated_id] find for a key,
    without allocating: the literal a resource compiled this run carries,
    else the value generated this run, else the persisted value.  The
    rules look at the payload of the compiled resource, at the generated
    value and at the payload of the persisted resource. *)
Definition recorded_of (configKey : ConfigKey)
           (created : option pydict) (generated : option string)
           (existing : option pydict) : option (result value) :=
  let from_existing :=
    match existing with
    | Some existing_config =>
        match py_getitem existing_config "spec" with
        | Raise e => Some (Raise e)
        | Ok spec =>
            match py_dot_get spec (KConfigKey configKey) with
            | Raise e => Some (Raise e)
            | Ok r => if truthy r then Some (Ok r) else None
            end
        end
    | None => None
    end in
  let from_generated :=
    match generated with
    | Some g => if truthy (VStr g) then Some (Ok (VStr g)) else from_existing
    | None => from_existing
    end in
  match created with
  | Some created_config =>
      match py_getitem created_config "spec" with
      | Raise e => Some (Raise e)
      | Ok spec =>
          match py_dot_get spec (KConfigKey configKey) with
          | Raise e => Some (Raise e)
          | Ok r =>
              if truthy r && negb (is_DeferredValue r) then Some (Ok r)
              else from_generated
          end
      end
  | None => from_generated
  end.

Definition recorded_id (configKey : ConfigKey) (s : store) : option (result value) :=
  recorded_of configKey
    (option_map config
       (dict_get ResourceReference_eq_dec (compiled_resources s) (reference configKey)))
    (dict_get ConfigKey_eq_dec (generated_values s) configKey)
    (option_map (fun l => config (resource l))
       (dict_get ResourceReference_eq_dec (existing_resources s) (reference configKey))).

(** The ways the indices change once compilation is over, during
    materialization and the pushes: an identifier is resolved, an
    identifier is registered under its reference, a credential is marked
    invalid. *)
Inductive run_step : store -> store -> Prop :=
| step_resolve ck prefix s :
    run_step s (snd (get_generated_id ck prefix s))
| step_register i ref s :
    run_step s (set_id_to_reference s (dict_set ResourceId_eq_dec (id_to_reference s) i ref))
| step_invalidate h s :
    run_step s (set_valid h false s).

Inductive later : store -> store -> Prop :=
| later_refl s : later s s
| later_step s1 s2 s3 : later s1 s2 -> run_step s2 s3 -> later s1 s3.

(** [resolves s res r]: the walk of [Remote.link] started at [res] ends
    with [r], a namespace or an exception. *)
Definition resolves (s : store) (res : Resource) (r : result value) : Prop :=
  exists fuel, Remote_link_walk fuel s res = Some r.

(** [ascends s p res]: at [res] the walk finds no namespace and moves up
    to the parent [p]. *)
Definition ascends (s : store) (p res : Resource) : Prop :=
  exists namespace,
    Resource_namespace res = Ok namespace
    /\ known_namespace namespace = None
    /\ Resource_parent s res = Ok (Some p).

(** How the walk of [Remote.link] started at a resource ends: at the
    first resource on the way up that has no metadata, that tells its
    namespace (a non-empty string, or a [Remote] with a preset remote), or
    that has no parent or one that cannot be looked up. *)
Inductive walk_outcome (s : store) : Resource -> result value -> Prop :=
| outcome_no_metadata res e :
    Resource_namespace res = Raise e -> walk_outcome s res (Raise e)
| outcome_literal res str :
    Resource_namespace res = Ok (VStr str) -> str <> "" ->
    walk_outcome s res (Ok (VStr str))
| outcome_preset res ref remote :
    Resource_namespace res = Ok (VRemote ref remote) -> truthy remote = true ->
    walk_outcome s res (Ok remote)
| outcome_no_parent res namespace :
    Resource_namespace res = Ok namespace -> known_namespace namespace = None ->
    Resource_parent s res = Ok None ->
    walk_outcome s res (Raise ValueError)
| outcome_lost_parent res namespace e :
    Resource_namespace res = Ok namespace -> known_namespace namespace = None ->
    Resource_parent s res = Raise e ->
    walk_outcome s res (Raise e)
| outcome_above res p r :
    ascends s p res -> walk_outcome s p r -> walk_outcome s res r.

(** Every key the documents of a set expand to, with the file it comes
    from, in the order [check_duplicates] meets them; defined when each
    document can be classified and expanded. *)
Fixpoint occurrences (configs : list located_config)
  : result (list (resource_key * string)) :=
  match configs with
  | [] => Ok []
  | (filepath, _, config) :: rest =>
      match is_itl_resource config with
      | Raise e => Raise e
      | Ok false => occurrences rest
      | Ok true =>
          match expand_keys config with
          | Raise e => Raise e
          | Ok keys =>
              match occurrences rest with
              | Raise e => Raise e
              | Ok occs => Ok (map (fun k => (k, filepath)) keys ++ occs)%list
              end
          end
      end
  end.

(** Two keys that a dictionary takes for the same key. *)
Definition same_key (a b : resource_key) : Prop := canonical a = canonical b.

(** How many times a key occurs across the files, counted as the
    dictionary of [check_duplicates] identifies keys. *)
Definition occurrence_count (key : resource_key) (occs : list (resource_key * string))
  : nat :=
  count_occ resource_key_eq_dec (map (fun o => canonical (fst o)) occs) (canonical key).

(** [check_duplicates] prints the key, in one of its spellings, as a
    duplicate and names [file]. *)
Definition reported (configs : list located_config) (key : resource_key) (file : string)
  : Prop :=
  exists key' files,
    same_key key' key
    /\ In (key', files) (fst (check_duplicates configs)) /\ In file files.

(** The document of a set at which the first loop of [check_duplicates]
    stops with the exception [e]: it cannot be classified, or it is a
    resource and cannot be expanded. *)
Definition unreadable (config : value) (e : exn) : Prop :=
  is_itl_resource config = Raise e
  \/ (is_itl_resource config = Ok true /\ expand_keys config = Raise e).

(** The counting of [check_duplicates], one occurrence at a time. *)
Definition tally (occs : list (resource_key * string)) (known_keys : key_counts)
  : key_counts :=
  fold_left (fun known o => count_key known (fst o) (snd o)) occs known_keys.

Definition file_total (file_counts : list (string * nat)) : nat :=
  list_sum (map snd file_counts).

(** What [known_keys] holds for a key: its total and the files it names. *)
Definition key_total (known : key_counts) (key : resource_key) : nat :=
  match dict_get resource_key_eq_dec known (canonical key) with
  | Some entry => file_total (snd entry)
  | None => 0
  end.

Definition key_files (known : key_counts) (key : resource_key) : list string :=
  match dict_get resource_key_eq_dec known (canonical key) with
  | Some entry => map fst (snd entry)
  | None => []
  end.

Definition files_distinct (known : key_counts) : Prop :=
  forall ck entry,
    dict_get resource_key_eq_dec known ck = Some entry -> NoDup (map fst (snd entry)).

(** Every entry is found under the canonical form of the key it keeps,
    and that key was met among the occurrences. *)
Definition spelled (occs : list (resource_key * string)) (known : key_counts) : Prop :=
  forall ck entry,
    dict_get resource_key_eq_dec known ck = Some entry ->
    canonical (fst entry) = ck /\ exists f, In (fst entry, f) occs.

Definition handle_eq_dec (a b : handle) : {a = b} + {a <> b}.
Proof. decide equality; [apply ResourceReference_eq_dec | decide equality]. Defined.

(** [preserves R m]: whenever [m] finishes, normally or by raising, the
    states before and after are related by [R]. *)
Definition preserves {S A : Type} (R : S -> S -> Prop) (m : M S A) : Prop :=
  forall s r s', m s = Some (r, s') -> R s s'.

(** [quiet s s']: [s'] is a later state of [s] that holds the same
    resources, flags included; only identifiers were resolved or
    registered in between. *)
Definition quiet (s s' : store) : Prop :=
  later s s'
  /\ compiled_resources s' = compiled_resources s
  /\ existing_resources s' = existing_resources s.

(** The indices of the later world are a later state of the indices. *)
Definition later_world (w w' : world) : Prop := later (indices w) (indices w').

(** [pushes fuel resources w w']: the resources are applied in turn from
    the world [w] to the world [w'], and each [apply] returns, [True] or
    [False]. *)
Inductive pushes (fuel : nat) : list (ResourceReference * Resource) -> world -> world -> Prop :=
| pushes_nil w : pushes fuel [] w w
| pushes_cons ref resource rest w b w1 w2 :
    apply fuel resource w = Some (Ok b, w1) ->
    pushes fuel rest w1 w2 ->
    pushes fuel ((ref, resource) :: rest) w w2.

Definition quiet_world (w w' : world) : Prop := quiet (indices w) (indices w').

(** The request [attach_to_client] sends. *)
Definition attach_request (url : string) (spec : value) (existing_key : string) : request :=
  mkRequest (url ++ "/policies/thatone.ai/v1/ApiKey") spec
            (if truthy (VStr existing_key) then Some existing_key else None).

(** The two dictionaries of resources have one entry per reference, as
    Python dictionaries do. *)
Definition store_ok (s : store) : Prop :=
  NoDup (map fst (compiled_resources s)) /\ NoDup (map fst (existing_resources s)).

(** A lowercase hexadecimal digit. *)
Definition lowercase_hex (c : ascii) : bool :=
  let n := nat_of_ascii c in
  (Nat.leb 48 n && Nat.leb n 57) || (Nat.leb 97 n && Nat.leb n 102).

Definition hex_value (c : ascii) : nat :=
  let n := nat_of_ascii c in
  if Nat.leb n 57 then (n - 48)%nat else (n - 87)%nat.

(** Reading two hexadecimal digits back as a byte. *)
Definition parse_02x (s : string) : option byte :=
  match s with
  | String hi (String lo EmptyString) => Byte.of_nat (16 * hex_value hi + hex_value lo)%nat
  | _ => None
  end.

(** A value that holds no deferred placeholder, at any depth. *)
Fixpoint literal (v : value) : bool :=
  match v with
  | VList l => forallb literal l
  | VDict d => forallb (fun kv => literal (snd kv)) d
  | VDeferredId _ | VApiKeyId _ | VRemote _ _ => false
  | _ => true
  end.

(** The loops of [link] over the elements of a list and over the items of
    a dict. *)
Definition link_list (fuel : nat) : list value -> M store (list value) :=
  fix link_list (l : list value) : M store (list value) :=
    match l with
    | [] => ret []
    | x :: xs => x' <- link fuel x ;; xs' <- link_list xs ;; ret (x' :: xs')
    end.

Definition link_items (fuel : nat) : pydict -> M store pydict :=
  fix link_items (d : pydict) : M store pydict :=
    match d with
    | [] => ret []
    | (k, x) :: xs => x' <- link fuel x ;; xs' <- link_items xs ;; ret ((k, x') :: xs')
    end.

(** The sort key of a located document; 0 where [config_priority]
    raises. *)
Definition priority_of (c : located_config) : nat :=
  match config_priority (snd c) with
  | Ok n => n
  | Raise _ => 0
  end.

(** The documents the reader passes on are well formed for the phases that
    follow. *)
Definition checked_document (config : value) : Prop :=
  is_itl_resource config = Ok true
  /\ (exists p, config_priority config = Ok p)
  /\ exists metadata n,
       py_index config "metadata" = Ok (VDict metadata)
       /\ py_getitem metadata "name" = Ok (VStr n).

(** What a push may do to the world outside the indices: it leaves the
    disk and the service alone and only adds to the requests sent. *)
Definition appends (w w' : world) : Prop :=
  files w' = files w
  /\ remote_service w' = remote_service w
  /\ exists reqs, sent w' = (sent w ++ reqs)%list.

(** "Save the yaml files", on the disk alone. *)
Definition written (updated_configs : list (string * list value)) (fs : filesystem)
  : filesystem :=
  fold_left (fun fs fc => dict_set string_dec fs (fst fc) (snd fc)) updated_configs fs.

(** The documents that the prior configs hold for one file, in order. *)
Definition documents_of (file : string) (configs : list located_config) : list value :=
  map snd (filter (fun c => String.eqb (fst (fst c)) file) configs).

(** Document [i] of [file] is the persisted form of a resource that was
    compiled again. *)
Definition rewritten (s : store) (file : string) (i : nat) : Prop :=
  exists ref target loc,
    In (ref, target) (compiled_resources s)
    /\ dict_get ResourceReference_eq_dec (existing_resources s) ref = Some loc
    /\ path loc = file /\ index loc = i.

(** The first resource of a list that has the given reference. *)
Definition first_with_reference (k : ResourceReference) (resources : list Resource)
  : option Resource :=
  find (fun r => if ResourceReference_eq_dec (Resource_reference r) k then true else false)
       resources.

(** From [d] to [d'], no file lost a document and the untouched positions
    hold what they held. *)
Definition keeps (untouched : string -> nat -> Prop) (d d' : list (string * list value))
  : Prop :=
  forall f,
    length (defaultdict_get d f) <= length (defaultdict_get d' f)
    /\ forall i, untouched f i -> i < length (defaultdict_get d f) ->
                 nth_error (defaultdict_get d' f) i = nth_error (defaultdict_get d f) i.

(** Every character of the string is of the class [[a-z0-9.-]]. *)
Fixpoint all_group_chars (s : string) : bool :=
  match s with
  | EmptyString => true
  | String c rest => group_char c && all_group_chars rest
  end.

Definition newline : string := String (ascii_of_nat 10) "".

(** Where an entry of [existing_resources] says its resource is stored. *)
Definition location_of (entry : ResourceReference * LocatedResource) : string * nat :=
  (path (snd entry), index (snd entry)).

(** The prior documents that the locate pass compiles: the resources of
    this tool, bundles apart. *)
Definition persisted_resource (c : located_config) : bool :=
  match is_itl_resource (snd c) with
  | Ok true =>
      match py_index (snd c) "kind" with
      | Ok k => if value_eq_dec k (VStr "ResourceDefs") then false else true
      | Raise _ => false
      end
  | _ => false
  end.

(** ** Scenarios

    The resources of the spec's end-to-end scenario, as the constructors
    build them. *)

Definition no_groups (fields : list string) : pydict :=
  map (fun f => (KStr f, VList [])) fields.

(** [Client("ResourceDefs", config)] for a bundle entry with a [name], an
    optional [remote] ([VNone] when absent) and an optional [parentName],
    and no tags or access lists. *)
Definition bundle_client (name : string) (remote : value) (parentName : option string)
  : Resource :=
  mkResource "Client" name
    [ (KStr "apiVersion", VStr "thatone.ai/v1");
      (KStr "kind", VStr "Client");
      (KStr "metadata",
       VDict [ (KStr "name", VStr name);
               (KStr "namespace", VRemote (mkRef "Client" name) remote) ]);
      (KStr "spec",
       VDict ([ (KStr "clientId", ClientId name);
                (KStr "parentId",
                 match parentName with Some p => ClientId p | None => VNone end);
                (KStr "dacTags", VList []) ]
              ++ no_groups [ "dacDefaultRead"; "dacDefaultWrite"; "dacDefaultExecute";
                             "dacWhitelistRead"; "dacWhitelistWrite"; "dacWhitelistExecute";
                             "dacBlacklistRead"; "dacBlacklistWrite"; "dacBlacklistExecute" ]
              ++ [ (KStr "macTags", VList []) ]
              ++ no_groups [ "macWhitelistRead"; "macWhitelistWrite"; "macWhitelistExecute";
                             "macBlacklistRead"; "macBlacklistWrite"; "macBlacklistExecute" ])%list) ]
    (option_map (fun p => ParentReference (mkRef "Client" p)) parentName)
    true.

(** [ApiKey("ResourceDefs", {"name": name, "clientName": clientName})] *)
Definition bundle_apikey (name clientName : string) : Resource :=
  mkResource "ApiKey" name
    [ (KStr "apiVersion", VStr "thatone.ai/v1");
      (KStr "kind", VStr "ApiKey");
      (KStr "metadata",
       VDict [ (KStr "name", VStr name);
               (KStr "namespace", VRemote (mkRef "ApiKey" name) VNone) ]);
      (KStr "spec",
       VDict [ (KStr "clientId", ClientId clientName);
               (KStr "apiKey", ApiKeyId name) ]) ]
    (Some (ParentReference (mkRef "Client" clientName)))
    true.

(** The document of a client as a run writes it, and the resource
    [Client("Client", config)] that the next run reads back from it. *)
Definition client_document (name namespace clientId : string) : pydict :=
  [ (KStr "apiVersion", VStr "thatone.ai/v1");
    (KStr "kind", VStr "Client");
    (KStr "metadata",
     VDict [ (KStr "name", VStr name); (KStr "namespace", VStr namespace) ]);
    (KStr "spec", VDict [ (KStr "clientId", VStr clientId) ]) ].

Definition persisted_client (name namespace clientId : string) : Resource :=
  mkResource "Client" name (client_document name namespace clientId) None true.

Definition acme : ResourceReference := mkRef "Client" "acme".
Definition acme_id : string := "acme-0123456789abcdef0123456789abcdef01234567".

(** The indices of a second run of the bundle
    [clients: [{name: acme, remote: https://policy.example}]], after the
    locate pass and compilation: the client written by the first run is in
    [existing_resources] with its identifier, the newly compiled one in
    [compiled_resources], and nothing has been generated yet. *)
Definition second_run : store :=
  mkStore
    [ (acme, mkLocated "resources/Client/acme.yaml" 0
               (persisted_client "acme" "https://policy.example" acme_id)) ]
    [ (acme, bundle_client "acme" (VStr "https://policy.example") None) ]
    []
    [ (mkId "Client" (VStr acme_id), acme) ]
    (fun _ _ => xab)
    0.

(** The indices of a first run of the bundle
    [apikeys: [{name: acme-key, clientName: acme}]],
    [clients: [{name: acme, remote: https://policy.example}]],
    after compilation. *)
Definition first_run : store :=
  mkStore
    []
    [ (mkRef "ApiKey" "acme-key", bundle_apikey "acme-key" "acme");
      (acme, bundle_client "acme" (VStr "https://policy.example") None) ]
    []
    []
    (fun _ _ => xab)
    0.

(** Two clients of one bundle that name each other as parent, neither
    with a [remote]:
    [clients: [{name: a, parentName: b}, {name: b, parentName: a}]]. *)
Definition cyclic_clients : store :=
  mkStore
    []
    [ (mkRef "Client" "a", bundle_client "a" VNone (Some "b"));
      (mkRef "Client" "b", bundle_client "b" VNone (Some "a")) ]
    []
    []
    (fun _ _ => xab)
    0.

(** A disk on which [resources/Client/acme.yaml] already exists, holding
    a hand-written note rather than a resource, so that the client [acme]
    of the bundle has no persisted entry and counts as new. *)
Definition occupied_disk : filesystem :=
  [ ("resources/Client/acme.yaml", [VStr "notes"]) ].

(** The service that answers every request with the given status. *)
Definition always (status : Z) : nat -> request -> reply :=
  fun _ _ => Response status.

(** The indices of the first run after the merge pass on an empty disk. *)
Definition first_run_linked : store :=
  match link_resources 3 [] [] "resources" "secrets" first_run with
  | Some (_, s) => s
  | None => first_run
  end.

(** The world of the first run when the pushes start, in front of a
    service that rejects every credential. *)
Definition first_run_rejected : world :=
  mkWorld first_run_linked [] [] (always 401).

Definition acme_client : Resource :=
  bundle_client "acme" (VStr "https://policy.example") None.
Definition acme_key : Resource := bundle_apikey "acme-key" "acme".
Definition acme_key_handle : handle := (FromCompiled, mkRef "ApiKey" "acme-key").

Definition acme_generated_id : string :=
  "acme-abababababababababababababababababababab".

(** The [spec] that [Resource.link] gives the client [acme] in that run. *)
Definition acme_spec : value :=
  VDict [ (KStr "clientId", VStr acme_generated_id) ].

(** The world after the client [acme] has been pushed and refused: the
    credential [acme-key] is marked invalid. *)
Definition after_rejected_client : world :=
  match Resource_apply 6 acme_client first_run_rejected with
  | Some (_, w) => w
  | None => first_run_rejected
  end.

(** The first run in front of a service that cannot be reached. *)
Definition first_run_unreachable : world :=
  mkWorld first_run_linked [] [] (fun _ _ => TransportFailure).

(** Two files that both declare the client [acme]: a bundle and a
    standalone document. *)
Definition acme_bundle : value :=
  VDict [ (KStr "apiVersion", VStr "thatone.ai/v1");
          (KStr "kind", VStr "ResourceDefs");
          (KStr "metadata", VDict [ (KStr "name", VStr "defs") ]);
          (KStr "spec",
           VDict [ (KStr "clients", VList [ VDict [ (KStr "name", VStr "acme") ] ]) ]) ].

Definition acme_twice : list located_config :=
  [ ("a.yaml", 0, acme_bundle);
    ("b.yaml", 0, VDict (client_document "acme" "https://policy.example" acme_id)) ].

(** A bundle with a section that is not one of the six known ones. *)
Definition widgets_bundle : value :=
  VDict [ (KStr "apiVersion", VStr "thatone.ai/v1");
          (KStr "kind", VStr "ResourceDefs");
          (KStr "metadata", VDict [ (KStr "name", VStr "defs") ]);
          (KStr "spec", VDict [ (KStr "widgets", VList []) ]) ].

(** The indices at process start. *)
Definition fresh_store : store :=
  mkStore [] [] [] [] (fun _ _ => xab) 0.

(** Constructors that reject every document; the runs below stop before
    they are called. *)
Definition reject_all (filepath : string) (config : value) (s : store)
  : result (list Resource) * store :=
  (Raise ValueError, s).

(** Constructors that build, for every document, the ApiKey [acme-key] and
    the client [acme] of the first run's bundle. *)
Definition compile_acme (filepath : string) (config : value) (s : store)
  : result (list Resource) * store :=
  (Ok [acme_key; acme_client], s).

(** The file of the persisted client [acme], followed by a document that
    is not a resource. *)
Definition acme_file_with_notes : list located_config :=
  [ ("resources/Client/acme.yaml", 0,
     VDict (client_document "acme" "https://policy.example" acme_id));
    ("resources/Client/acme.yaml", 1, VStr "notes") ].

(** A disk that holds a file of notes and nothing else. *)
Definition disk_with_notes : filesystem := [ ("notes.txt", [VStr "notes"]) ].

(** A group of the bundle that names no owner: it has a namespace of its
    own and no parent. *)
Definition orphan_group : Resource :=
  mkResource "Group" "staff"
    [ (KStr "apiVersion", VStr "thatone.ai/v1");
      (KStr "kind", VStr "Group");
      (KStr "metadata",
       VDict [ (KStr "name", VStr "staff");
               (KStr "namespace", VStr "https://policy.example") ]);
      (KStr "spec", VDict [ (KStr "groupId", GroupId "staff") ]) ]
    None
    true.

(** Constructors that build, for every document, the client that the
    persisted document of [acme] describes. *)
Definition compile_acme_document (filepath : string) (config : value) (s : store)
  : result (list Resource) * store :=
  (Ok [persisted_client "acme" "https://policy.example" acme_id], s).

(** A bundle whose two clients are named by the YAML scalars [1] and
    [true]. *)
Definition one_and_true_bundle : value :=
  VDict [ (KStr "apiVersion", VStr "thatone.ai/v1");
          (KStr "kind", VStr "ResourceDefs");
          (KStr "metadata", VDict [ (KStr "name", VStr "defs") ]);
          (KStr "spec",
           VDict [ (KStr "clients",
                    VList [ VDict [ (KStr "name", VInt 1) ];
                            VDict [ (KStr "name", VBool true) ] ]) ]) ].

(** A standalone document of kind [Loop] with a namespace of its own,
    whose [ownerId] is the identifier of no resource, and the resource
    [Loop("Loop", config)] builds from it: the parent is the identifier,
    and the constructor registers the identifier of the loop. *)
Definition standalone_loop_document : pydict :=
  [ (KStr "apiVersion", VStr "thatone.ai/v1");
    (KStr "kind", VStr "Loop");
    (KStr "metadata",
     VDict [ (KStr "name", VStr "l1"); (KStr "namespace", VStr "https://policy.example") ]);
    (KStr "spec", VDict [ (KStr "ownerId", VStr "nobody"); (KStr "loopId", VStr "l1-id") ]) ].

Definition standalone_loop : Resource :=
  mkResource "Loop" "l1" standalone_loop_document
             (Some (ParentId (mkId "Client" (VStr "nobody")))) true.

Definition compile_standalone_loop (filepath : string) (config : value) (s : store)
  : result (list Resource) * store :=
  (Ok [standalone_loop],
   set_id_to_reference s
     (dict_set ResourceId_eq_dec (id_to_reference s)
               (mkId "Loop" (VStr "l1-id")) (mkRef "Loop" "l1"))).

Definition standalone_loop_configs : list located_config :=
  [ ("loop.yaml", 0, VDict standalone_loop_document) ].

(** * Properties *)

Unset Implicit Arguments.

(** ** Dictionaries *)

Section DictFacts.
Variables K V : Type.
Variable K_eq_dec : forall a b : K, {a = b} + {a <> b}.

Lemma dict_get_set_same (d : list (K * V)) k v :
  dict_get K_eq_dec (dict_set K_eq_dec d k v) k = Some v.
Proof.
  induction d as [|[k' v'] d IH]; simpl.
  - destruct (K_eq_dec k k); congruence.
  - destruct (K_eq_dec k k') as [->|Hne]; simpl.
    + destruct (K_eq_dec k' k'); congruence.
    + destruct (K_eq_dec k k'); congruence.
Qed.

Lemma dict_get_set_other (d : list (K * V)) k k' v :
  k' <> k -> dict_get K_eq_dec (dict_set K_eq_dec d k v) k' = dict_get K_eq_dec d k'.
Proof.
  intros Hne. induction d as [|[k0 v0] d IH]; simpl.
  - destruct (K_eq_dec k' k); congruence.
  - destruct (K_eq_dec k k0) as [->|Hne0]; simpl.
    + destruct (K_eq_dec k' k0); congruence.
    + destruct (K_eq_dec k' k0); congruence.
Qed.

Lemma dict_set_keys_present (d : list (K * V)) k v v0 :
  dict_get K_eq_dec d k = Some v0 ->
  map fst (dict_set K_eq_dec d k v) = map fst d.
Proof.
  induction d as [|[k' v'] d IH]; simpl; [discriminate|].
  destruct (K_eq_dec k k') as [->|Hne]; simpl; [reflexivity|].
  intros H. now rewrite IH.
Qed.

Lemma dict_set_keys_absent (d : list (K * V)) k v :
  dict_get K_eq_dec d k = None ->
  map fst (dict_set K_eq_dec d k v) = (map fst d ++ [k])%list.
Proof.
  induction d as [|[k' v'] d IH]; simpl; [reflexivity|].
  destruct (K_eq_dec k k') as [->|Hne]; simpl; [discriminate|].
  intros H. now rewrite IH.
Qed.

Lemma dict_get_None_not_In (d : list (K * V)) k :
  dict_get K_eq_dec d k = None <-> ~ In k (map fst d).
Proof.
  induction d as [|[k' v'] d IH]; simpl.
  - tauto.
  - destruct (K_eq_dec k k') as [->|Hne].
    + split; [discriminate | intros H; exfalso; apply H; now left].
    + rewrite IH. split; intros H; [intros [E|I]; [congruence | tauto] | tauto].
Qed.

Lemma dict_get_In (d : list (K * V)) k v :
  NoDup (map fst d) -> (In (k, v) d <-> dict_get K_eq_dec d k = Some v).
Proof.
  induction d as [|[k' v'] d IH]; simpl; intros ND.
  - split; [tauto | discriminate].
  - inversion ND as [|? ? Hnin ND']; subst.
    destruct (K_eq_dec k k') as [->|Hne].
    + split.
      * intros [E|I]; [congruence|].
        exfalso. apply Hnin. apply (in_map fst) in I. exact I.
      * intros E. left. congruence.
    + rewrite <- (IH ND'). split; [intros [E|I]; [congruence | exact I] | tauto].
Qed.

Lemma dict_set_NoDup (d : list (K * V)) k v :
  NoDup (map fst d) -> NoDup (map fst (dict_set K_eq_dec d k v)).
Proof.
  intros ND. destruct (dict_get K_eq_dec d k) as [v0|] eqn:E.
  - now rewrite (dict_set_keys_present d k v v0 E).
  - rewrite (dict_set_keys_absent d k v E).
    apply NoDup_app; [exact ND | repeat constructor; simpl; tauto|].
    intros x Hx [<-|[]]. now apply dict_get_None_not_In in E.
Qed.
End DictFacts.

(** ** Identifier resolution *)

Lemma random_id_not_empty s : fst (random_id s) <> "".
Proof. unfold random_id. simpl. discriminate. Qed.

Lemma append_not_empty (a b : string) : b <> "" -> a ++ b <> "".
Proof. destruct a; simpl; [auto | discriminate]. Qed.

Lemma truthy_str (x : string) : x <> "" -> truthy (VStr x) = true.
Proof. simpl. destruct (String.eqb_spec x ""); [contradiction | reflexivity]. Qed.

(** [get_generated_id] returns what is recorded and leaves the indices
    alone, or else allocates. *)
Lemma get_generated_id_recorded ck prefix s :
  get_generated_id ck prefix s =
  match recorded_id ck s with
  | Some r => (r, s)
  | None =>
      let new_id := prefix ++ fst (random_id s) in
      (Ok (VStr new_id),
       set_generated_values (snd (random_id s))
         (dict_set ConfigKey_eq_dec (generated_values s) ck new_id))
  end.
Proof.
  unfold get_generated_id, recorded_id, recorded_of.
  repeat match goal with
         | |- context [match dict_get ?e ?d ?k with _ => _ end] =>
             destruct (dict_get e d k) eqn:?; simpl option_map
         | |- context [match py_getitem ?d ?k with _ => _ end] =>
             destruct (py_getitem d k) eqn:?
         | |- context [match py_dot_get ?d ?k with _ => _ end] =>
             destruct (py_dot_get d k) eqn:?
         | |- context [if ?c then _ else _] => destruct c eqn:?
         end; try reflexivity; congruence.
Qed.

Lemma recorded_id_congr ck s s' :
  option_map config (dict_get ResourceReference_eq_dec (compiled_resources s') (reference ck))
  = option_map config (dict_get ResourceReference_eq_dec (compiled_resources s) (reference ck)) ->
  dict_get ConfigKey_eq_dec (generated_values s') ck
  = dict_get ConfigKey_eq_dec (generated_values s) ck ->
  option_map (fun l => config (resource l))
             (dict_get ResourceReference_eq_dec (existing_resources s') (reference ck))
  = option_map (fun l => config (resource l))
               (dict_get ResourceReference_eq_dec (existing_resources s) (reference ck)) ->
  recorded_id ck s' = recorded_id ck s.
Proof.
  unfold recorded_id. now intros -> -> ->.
Qed.

Lemma set_valid_configs h b s ref :
  option_map config (dict_get ResourceReference_eq_dec (compiled_resources (set_valid h b s)) ref)
  = option_map config (dict_get ResourceReference_eq_dec (compiled_resources s) ref)
  /\ option_map (fun l => config (resource l))
       (dict_get ResourceReference_eq_dec (existing_resources (set_valid h b s)) ref)
     = option_map (fun l => config (resource l))
         (dict_get ResourceReference_eq_dec (existing_resources s) ref)
  /\ generated_values (set_valid h b s) = generated_values s
  /\ id_to_reference (set_valid h b s) = id_to_reference s.
Proof.
  destruct h as [[|] r]; simpl.
  - destruct (dict_get _ (compiled_resources s) r) as [x|] eqn:E; simpl; [|auto].
    repeat split; try reflexivity.
    destruct (ResourceReference_eq_dec ref r) as [->|Hne].
    + rewrite dict_get_set_same, E. reflexivity.
    + now rewrite dict_get_set_other.
  - destruct (dict_get _ (existing_resources s) r) as [x|] eqn:E; simpl; [|auto].
    repeat split; try reflexivity.
    destruct (ResourceReference_eq_dec ref r) as [->|Hne].
    + rewrite dict_get_set_same, E. reflexivity.
    + now rewrite dict_get_set_other.
Qed.

(** Once a key has a recorded value, no later step of the run changes it. *)
Lemma recorded_id_step ck r s s' :
  run_step s s' -> recorded_id ck s = Some r -> recorded_id ck s' = Some r.
Proof.
  intros Hstep Hrec. destruct Hstep as [ck' prefix s | i ref s | h s].
  - rewrite get_generated_id_recorded.
    destruct (recorded_id ck' s) as [r'|] eqn:E'; simpl; [exact Hrec|].
    rewrite <- Hrec. apply recorded_id_congr; simpl; try reflexivity.
    apply dict_get_set_other. intros ->. congruence.
  - rewrite <- Hrec. apply recorded_id_congr; reflexivity.
  - rewrite <- Hrec.
    destruct (set_valid_configs h false s (reference ck)) as (Hc & He & Hg & _).
    apply recorded_id_congr; [exact Hc | now rewrite Hg | exact He].
Qed.

Lemma recorded_id_later ck r s s' :
  later s s' -> recorded_id ck s = Some r -> recorded_id ck s' = Some r.
Proof.
  induction 1 as [|s1 s2 s3 _ IH Hstep]; [auto|].
  intros H. eapply recorded_id_step; eauto.
Qed.

(** A resolution leaves its own result recorded. *)
Lemma recorded_id_after ck prefix s :
  recorded_id ck (snd (get_generated_id ck prefix s))
  = Some (fst (get_generated_id ck prefix s)).
Proof.
  rewrite get_generated_id_recorded.
  destruct (recorded_id ck s) as [r|] eqn:E; cbn [fst snd]; [exact E|].
  assert (Hnew : truthy (VStr (prefix ++ fst (random_id s))) = true)
    by (apply truthy_str, append_not_empty, random_id_not_empty).
  set (new_id := prefix ++ fst (random_id s)) in *. clearbody new_id.
  revert E. unfold recorded_id.
  change (compiled_resources (set_generated_values (snd (random_id s))
            (dict_set ConfigKey_eq_dec (generated_values s) ck new_id)))
    with (compiled_resources s).
  change (existing_resources (set_generated_values (snd (random_id s))
            (dict_set ConfigKey_eq_dec (generated_values s) ck new_id)))
    with (existing_resources s).
  change (generated_values (set_generated_values (snd (random_id s))
            (dict_set ConfigKey_eq_dec (generated_values s) ck new_id)))
    with (dict_set ConfigKey_eq_dec (generated_values s) ck new_id).
  rewrite dict_get_set_same.
  generalize (option_map config
                (dict_get ResourceReference_eq_dec (compiled_resources s) (reference ck))).
  generalize (option_map (fun l => config (resource l))
                (dict_get ResourceReference_eq_dec (existing_resources s) (reference ck))).
  generalize (dict_get ConfigKey_eq_dec (generated_values s) ck).
  intros g e c. unfold recorded_of. rewrite Hnew.
  destruct c as [c|]; [|reflexivity].
  destruct (py_getitem c "spec") as [spec|]; [|discriminate].
  destruct (py_dot_get spec _) as [x|]; [|discriminate].
  destruct (truthy x && negb (is_DeferredValue x)); [discriminate | reflexivity].
Qed.

(** C9.  Within a run identifier resolution is idempotent: whatever
    [get_generated_id] returns for a ConfigKey, every later resolution of
    that ConfigKey in the run (after any number of other resolutions,
    registrations and credential invalidations, and under any prefix)
    returns the same value and leaves the indices unchanged; in particular
    a freshly allocated identifier is read back from the memoization
    table and never allocated again. *)
Theorem get_generated_id_idempotent :
  forall ck prefix s s' prefix',
    later (snd (get_generated_id ck prefix s)) s' ->
    get_generated_id ck prefix' s' = (fst (get_generated_id ck prefix s), s').
Proof.
  intros ck prefix s s' prefix' Hlater.
  rewrite (get_generated_id_recorded ck prefix' s').
  erewrite recorded_id_later; [reflexivity | exact Hlater | apply recorded_id_after].
Qed.

Lemma get_generated_id_idempotent_witness :
  let ck := mkKey acme "clientId" in
  let s1 := snd (get_generated_id ck "acme-" second_run) in
  let s2 := snd (get_generated_id (mkKey (mkRef "Group" "staff") "groupId") "staff-" s1) in
  later s1 s2
  /\ get_generated_id ck "acme-" s2 = (fst (get_generated_id ck "acme-" second_run), s2).
Proof.
  intros ck s1 s2.
  assert (H : later s1 s2)
    by (eapply later_step; [apply later_refl | apply step_resolve]).
  split; [exact H | exact (get_generated_id_idempotent ck "acme-" second_run s2 "acme-" H)].
Defined.

(** A payload read from a document has string keys only, so looking a
    [ConfigKey] object up in it finds nothing. *)
Definition string_keyed (d : pydict) : Prop :=
  forall k, In k (map fst d) -> exists s, k = KStr s.

Lemma py_get_ConfigKey d ck : string_keyed d -> py_get d (KConfigKey ck) = None.
Proof.
  unfold py_get. intros Hd. apply dict_get_None_not_In. intros Hin.
  destruct (Hd _ Hin) as [s Hs]. discriminate.
Qed.

(** With nothing generated yet for the key and string-keyed payloads,
    [get_generated_id] never finds the persisted value: it allocates. *)
Lemma get_generated_id_allocates ck prefix s existing spec :
  dict_get ResourceReference_eq_dec (compiled_resources s) (reference ck) = None ->
  dict_get ConfigKey_eq_dec (generated_values s) ck = None ->
  dict_get ResourceReference_eq_dec (existing_resources s) (reference ck) = Some existing ->
  py_getitem (config (resource existing)) "spec" = Ok (VDict spec) ->
  string_keyed spec ->
  fst (get_generated_id ck prefix s) = Ok (VStr (prefix ++ fst (random_id s))).
Proof.
  intros Hc Hg He Hspec Hkeys.
  rewrite get_generated_id_recorded. unfold recorded_id. rewrite Hc, Hg, He. simpl option_map.
  unfold recorded_of. rewrite Hspec. unfold py_dot_get.
  rewrite (py_get_ConfigKey spec ck Hkeys). reflexivity.
Qed.

(** C1 (the code departs from the claim).  In the second run of a bundle
    the persisted client carries the literal identifier [acme_id] in the
    field [clientId], nothing has been generated for that field, and yet
    resolving it allocates a fresh random identifier. *)
Theorem persisted_identifier_not_reused :
  let ck := mkKey acme "clientId" in
  option_map (fun l => py_getitem (config (resource l)) "spec")
    (dict_get ResourceReference_eq_dec (existing_resources second_run) (reference ck))
  = Some (Ok (VDict [(KStr "clientId", VStr acme_id)]))
  /\ dict_get ConfigKey_eq_dec (generated_values second_run) ck = None
  /\ fst (DeferredId_link ck second_run)
     = Ok (VStr "acme-abababababababababababababababababababab")
  /\ fst (DeferredId_link ck second_run) <> Ok (VStr acme_id).
Proof.
  repeat split; try reflexivity. vm_compute. discriminate.
Qed.

(** ** Namespace resolution *)

Lemma Remote_link_walk_mono s fuel :
  forall res r fuel',
    Remote_link_walk fuel s res = Some r -> fuel <= fuel' ->
    Remote_link_walk fuel' s res = Some r.
Proof.
  induction fuel as [|fuel IH]; intros res r fuel' H Hle; [discriminate|].
  destruct fuel' as [|fuel']; [lia|].
  simpl in *.
  destruct (Resource_namespace res) as [ns|]; [|exact H].
  destruct (known_namespace ns); [exact H|].
  destruct (Resource_parent s res) as [[p|]|]; try exact H.
  apply IH; [exact H | lia].
Qed.

(** The walk has one outcome at most. *)
Lemma resolves_functional s res r1 r2 :
  resolves s res r1 -> resolves s res r2 -> r1 = r2.
Proof.
  intros [n1 H1] [n2 H2].
  apply (Remote_link_walk_mono s n1 res r1 (n1 + n2)) in H1; [|lia].
  apply (Remote_link_walk_mono s n2 res r2 (n1 + n2)) in H2; [|lia].
  congruence.
Qed.

Lemma undeclared_namespace_unknown (namespace : value) :
  (forall str, namespace <> VStr str) ->
  (forall ref remote, namespace = VRemote ref remote -> truthy remote = false) ->
  known_namespace namespace = None.
Proof.
  intros Hstr Hrem. unfold known_namespace.
  destruct (truthy namespace); [|reflexivity].
  destruct namespace; try reflexivity.
  - exfalso. eapply Hstr. reflexivity.
  - now rewrite (Hrem resource_reference namespace eq_refl).
Qed.

Lemma resolves_step s res namespace :
  Resource_namespace res = Ok namespace ->
  known_namespace namespace = None ->
  match Resource_parent s res with
  | Ok (Some p) => forall r, resolves s res r <-> resolves s p r
  | Ok None => resolves s res (Raise ValueError)
  | Raise e => resolves s res (Raise e)
  end.
Proof.
  intros Hns Hk.
  destruct (Resource_parent s res) as [[p|]|e] eqn:Hp.
  - intros r. split.
    + intros [[|n] H]; [discriminate|]. simpl in H. rewrite Hns, Hk, Hp in H.
      now exists n.
    + intros [n H]. exists (S n). simpl. now rewrite Hns, Hk, Hp.
  - exists 1. simpl. now rewrite Hns, Hk, Hp.
  - exists 1. simpl. now rewrite Hns, Hk, Hp.
Qed.

(** C3.  Namespace inheritance: for a resource whose declared namespace
    is not a literal string, and whose [Remote] placeholder carries no
    preset remote, the walk from the resource ends exactly as the walk
    from its parent does (the same namespace or the same error), at every
    level of the chain; and when the resource has no parent the
    resolution raises an error. *)
Theorem namespace_inheritance :
  forall s res namespace,
    Resource_namespace res = Ok namespace ->
    (forall str, namespace <> VStr str) ->
    (forall ref remote, namespace = VRemote ref remote -> truthy remote = false) ->
    match Resource_parent s res with
    | Ok (Some p) => forall r, resolves s res r <-> resolves s p r
    | Ok None => resolves s res (Raise ValueError)
    | Raise e => resolves s res (Raise e)
    end.
Proof.
  intros s res namespace Hns Hstr Hrem.
  apply (resolves_step s res namespace Hns).
  now apply undeclared_namespace_unknown.
Qed.

Lemma namespace_inheritance_witness :
  let res := bundle_apikey "acme-key" "acme" in
  let namespace := VRemote (mkRef "ApiKey" "acme-key") VNone in
  Resource_namespace res = Ok namespace
  /\ (forall str, namespace <> VStr str)
  /\ (forall ref remote, namespace = VRemote ref remote -> truthy remote = false)
  /\ forall r,
       resolves first_run res r
       <-> resolves first_run (bundle_client "acme" (VStr "https://policy.example") None) r.
Proof.
  intros res namespace.
  assert (H1 : Resource_namespace res = Ok namespace) by reflexivity.
  assert (H2 : forall str, namespace <> VStr str) by (intros str; discriminate).
  assert (H3 : forall ref remote, namespace = VRemote ref remote -> truthy remote = false)
    by (intros ref remote E; injection E as _ <-; reflexivity).
  repeat split; try assumption;
    apply (namespace_inheritance first_run res namespace H1 H2 H3).
Defined.

(** Up a whole chain: the resource inherits the outcome of any ancestor
    the walk reaches. *)
Lemma namespace_inherited_from_ancestor s res top :
  Relation_Operators.clos_refl_trans_1n Resource (fun r p => ascends s p r) res top ->
  forall r, resolves s res r <-> resolves s top r.
Proof.
  induction 1 as [|res p top (ns & Hns & Hk & Hp) _ IH]; [tauto|].
  intros r. rewrite <- IH.
  pose proof (resolves_step s res ns Hns Hk) as Hstep. rewrite Hp in Hstep. apply Hstep.
Qed.

(** C2 (as stated it fails).  Two clients that name each other as parent
    and carry no remote: the walk of [Remote.link] never ends, neither
    with a namespace nor with an error, whatever the fuel. *)
Lemma Remote_link_cyclic_diverges :
  ~ exists fuel r, Remote_link fuel cyclic_clients (mkRef "Client" "a") VNone = Some r.
Proof.
  assert (H : forall fuel,
             Remote_link_walk fuel cyclic_clients (bundle_client "a" VNone (Some "b")) = None
             /\ Remote_link_walk fuel cyclic_clients (bundle_client "b" VNone (Some "a")) = None).
  { induction fuel as [|fuel [IHa IHb]]; [split; reflexivity|].
    split.
    - change (Remote_link_walk fuel cyclic_clients (bundle_client "b" VNone (Some "a")) = None).
      exact IHb.
    - change (Remote_link_walk fuel cyclic_clients (bundle_client "a" VNone (Some "b")) = None).
      exact IHa. }
  intros (fuel & r & Hr).
  change (Remote_link_walk fuel cyclic_clients (bundle_client "a" VNone (Some "b")) = Some r) in Hr.
  destruct (H fuel) as [Ha _]. congruence.
Qed.

Lemma known_namespace_Some namespace n :
  known_namespace namespace = Some n ->
  (exists str, namespace = VStr str /\ str <> "" /\ n = VStr str)
  \/ (exists ref remote, namespace = VRemote ref remote /\ truthy remote = true /\ n = remote).
Proof.
  unfold known_namespace.
  destruct namespace as [| b | z | str | l | d | ck | ck | ref remote];
    try (destruct (truthy _); discriminate).
  - destruct (truthy (VStr str)) eqn:E; [|discriminate].
    intros H. injection H as <-. left. exists str. split; [reflexivity|]. split; [|reflexivity].
    intros ->. discriminate.
  - cbn [truthy]. destruct (truthy remote) eqn:E; [|discriminate].
    intros H. injection H as <-. right. now exists ref, remote.
Qed.

(** Along parent links that never stop ascending, the walk runs out of
    every amount of fuel. *)
Lemma Remote_link_walk_ascends_for_ever s (cycle : Resource -> Prop) :
  (forall res, cycle res -> exists p, ascends s p res /\ cycle p) ->
  forall fuel res, cycle res -> Remote_link_walk fuel s res = None.
Proof.
  intros Hcycle. induction fuel as [|fuel IH]; intros res Hres; [reflexivity|].
  destruct (Hcycle res Hres) as (p & (ns & Hns & Hk & Hp) & Hcp).
  cbn [Remote_link_walk]. rewrite Hns, Hk, Hp. now apply IH.
Qed.

(** C2 (amended).  When no chain of parents goes up for ever from the
    resource the placeholder names, [Remote.link] terminates: some amount
    of fuel is enough, and it then returns the preset remote of the
    placeholder, raises because the named resource is unknown, or ends as
    the walk does, at the first resource on the way up that tells its
    namespace, has no metadata, has no parent, or has a parent that cannot
    be looked up.  The walk has no bound: from a resource in a set of
    resources each of which ascends to another of the set (a cycle of
    parents without a namespace), it never returns and never raises. *)
Theorem Remote_link_terminates :
  forall s resource_reference remote,
    ((forall res,
         require_resource_by_reference s resource_reference = Ok res ->
         Acc (ascends s) res) ->
     exists r n,
       (forall fuel, n <= fuel ->
                     Remote_link fuel s resource_reference remote = Some r)
       /\ (if truthy remote then r = Ok remote
           else match require_resource_by_reference s resource_reference with
                | Raise e => r = Raise e
                | Ok res => walk_outcome s res r
                end))
    /\ (forall cycle : Resource -> Prop,
           (forall res, cycle res -> exists p, ascends s p res /\ cycle p) ->
           truthy remote = false ->
           forall res,
             require_resource_by_reference s resource_reference = Ok res ->
             cycle res ->
             forall fuel, Remote_link fuel s resource_reference remote = None).
Proof.
  intros s ref remote. split.
  - intros Hacc. unfold Remote_link.
    destruct (truthy remote); [exists (Ok remote), 0; split; reflexivity|].
    destruct (require_resource_by_reference s ref) as [res|e];
      [|exists (Raise e), 0; split; reflexivity].
    specialize (Hacc res eq_refl).
    induction Hacc as [res _ IH].
    destruct (Resource_namespace res) as [ns|e] eqn:Hns.
    + destruct (known_namespace ns) as [n|] eqn:Hk.
      * exists (Ok n), 1. split.
        -- intros [|fuel] Hle; [lia|]. simpl. now rewrite Hns, Hk.
        -- destruct (known_namespace_Some ns n Hk)
             as [(str & -> & Hstr & ->)|(r0 & remote0 & -> & Hrem & ->)].
           ++ now apply outcome_literal.
           ++ eapply outcome_preset; [exact Hns | exact Hrem].
      * destruct (Resource_parent s res) as [[p|]|e] eqn:Hp.
        -- destruct (IH p) as (r & n & Hr & Hout); [now exists ns|].
           exists r, (S n). split.
           ++ intros [|fuel] Hle; [lia|]. simpl. rewrite Hns, Hk, Hp. apply Hr. lia.
           ++ eapply outcome_above; [|exact Hout]. now exists ns.
        -- exists (Raise ValueError), 1. split.
           ++ intros [|fuel] Hle; [lia|]. simpl. now rewrite Hns, Hk, Hp.
           ++ eapply outcome_no_parent; eassumption.
        -- exists (Raise e), 1. split.
           ++ intros [|fuel] Hle; [lia|]. simpl. now rewrite Hns, Hk, Hp.
           ++ eapply outcome_lost_parent; eassumption.
    + exists (Raise e), 1. split.
      * intros [|fuel] Hle; [lia|]. simpl. now rewrite Hns.
      * now apply outcome_no_metadata.
  - intros cycle Hcycle Hremote res Hres Hin fuel. unfold Remote_link.
    rewrite Hremote, Hres. now apply (Remote_link_walk_ascends_for_ever s cycle).
Qed.

Lemma Remote_link_terminates_witness :
  (forall res,
      require_resource_by_reference first_run (mkRef "ApiKey" "acme-key") = Ok res ->
      Acc (ascends first_run) res)
  /\ exists r n,
       (forall fuel, n <= fuel ->
                     Remote_link fuel first_run (mkRef "ApiKey" "acme-key") VNone = Some r)
       /\ walk_outcome first_run acme_key r.
Proof.
  assert (H : forall res,
             require_resource_by_reference first_run (mkRef "ApiKey" "acme-key") = Ok res ->
             Acc (ascends first_run) res).
  { intros res E. vm_compute in E. injection E as <-.
    constructor. intros p (ns & Hns & _ & Hp).
    vm_compute in Hp. injection Hp as <-.
    constructor. intros p' (ns' & Hns' & Hk' & _).
    vm_compute in Hns'. injection Hns' as <-. vm_compute in Hk'. discriminate. }
  split; [exact H|].
  exact (proj1 (Remote_link_terminates first_run (mkRef "ApiKey" "acme-key") VNone) H).
Defined.

(** ** Storage paths of new resources *)

(** The loop of [create_resource_path] returns the unsuffixed path when it
    is free; when it is taken, the second iteration adds the integer
    suffix to a string and raises. *)
Lemma create_resource_path_loop_outcome fs prefix fuel :
  create_resource_path_loop (S (S fuel)) fs prefix 0 =
  Some (if os_path_exists fs (prefix ++ "" ++ ".yaml")
        then Raise TypeError
        else Ok (prefix ++ "" ++ ".yaml")).
Proof.
  simpl. replace ((prefix ++ "") ++ ".yaml") with (prefix ++ ".yaml").
  - now destruct (os_path_exists fs (prefix ++ ".yaml")).
  - clear. induction prefix as [|c p IH]; simpl; [reflexivity | now rewrite <- IH].
Qed.

(** The loop never returns a path with a numeric suffix. *)
Lemma create_resource_path_loop_no_suffix fs prefix fuel result :
  create_resource_path_loop fuel fs prefix 0 = Some (Ok result) ->
  result = prefix ++ "" ++ ".yaml".
Proof.
  destruct fuel as [|[|fuel]]; [discriminate | |].
  - simpl. replace ((prefix ++ "") ++ ".yaml") with (prefix ++ ".yaml").
    + destruct (os_path_exists fs (prefix ++ ".yaml")); simpl; [discriminate | congruence].
    + clear. induction prefix as [|c p IH]; simpl; [reflexivity | now rewrite <- IH].
  - rewrite create_resource_path_loop_outcome.
    destruct (os_path_exists fs (prefix ++ "" ++ ".yaml")); [discriminate | congruence].
Qed.

(** C6 (the code departs from the claim).  The client [acme] is new and
    the path [resources/Client/acme.yaml] is taken: instead of moving on
    to [resources/Client/acme1.yaml], [create_resource_path] raises
    [TypeError] in its second iteration, and the merge pass raises with
    it. *)
Theorem create_resource_path_collision :
  os_path_exists occupied_disk "resources/Client/acme.yaml" = true
  /\ os_path_exists occupied_disk "resources/Client/acme1.yaml" = false
  /\ (forall fuel,
        create_resource_path (S (S fuel)) occupied_disk "resources"
          (config (bundle_client "acme" (VStr "https://policy.example") None))
        = Some (Raise TypeError))
  /\ option_map fst (link_resources 3 occupied_disk [] "resources" "secrets" first_run)
     = Some (Raise TypeError).
Proof.
  split; [reflexivity|]. split; [reflexivity|]. split; [|reflexivity].
  intros fuel. unfold create_resource_path.
  change (create_resource_path_loop (S (S fuel)) occupied_disk "resources/Client/acme" 0
          = Some (Raise TypeError)).
  rewrite create_resource_path_loop_outcome. reflexivity.
Qed.

(** ** Duplicate detection *)

Lemma count_configs_tally configs :
  forall known occs,
    occurrences configs = Ok occs ->
    count_configs known configs = Ok (tally occs known).
Proof.
  induction configs as [|[[filepath i] config] rest IH]; intros known occs H; simpl in *.
  - injection H as <-. reflexivity.
  - destruct (is_itl_resource config) as [[|]|]; try discriminate; [|now apply IH].
    destruct (expand_keys config) as [keys|]; [|discriminate].
    destruct (occurrences rest) as [occs'|]; [|discriminate].
    injection H as <-.
    rewrite (IH _ occs' eq_refl). unfold tally, count_keys_of.
    rewrite fold_left_app. f_equal. f_equal.
    clear. revert known. induction keys as [|k ks IHk]; intros known; simpl; [reflexivity|].
    apply IHk.
Qed.

(** The first document that cannot be read ends the counting. *)
Lemma count_configs_unreadable before :
  forall known file i config after occs e,
    occurrences before = Ok occs ->
    unreadable config e ->
    count_configs known (before ++ (file, i, config) :: after) = Raise e.
Proof.
  induction before as [|[[f0 i0] c0] rest IH]; intros known file i config after occs e Hocc Hun.
  - simpl. destruct Hun as [H|[H1 H2]]; [now rewrite H | now rewrite H1, H2].
  - simpl in Hocc |- *.
    destruct (is_itl_resource c0) as [[|]|]; try discriminate.
    + destruct (expand_keys c0) as [keys|]; [|discriminate].
      destruct (occurrences rest) as [occs'|] eqn:E; [|discriminate].
      now apply (IH _ file i config after occs' e).
    + now apply (IH _ file i config after occs e).
Qed.

Lemma file_total_bump fc f :
  file_total (dict_set string_dec fc f
                (S match dict_get string_dec fc f with Some n => n | None => 0 end))
  = S (file_total fc).
Proof.
  unfold file_total. induction fc as [|[f' n'] fc IH]; simpl; [reflexivity|].
  destruct (string_dec f f') as [->|Hne]; simpl; [reflexivity|].
  rewrite IH. lia.
Qed.

Lemma dict_set_keys_In {K V} (dec : forall a b : K, {a = b} + {a <> b})
      (d : list (K * V)) k v k' :
  In k' (map fst (dict_set dec d k v)) <-> k' = k \/ In k' (map fst d).
Proof.
  destruct (dict_get dec d k) as [v0|] eqn:E.
  - rewrite (dict_set_keys_present K V dec d k v v0 E). split; [tauto|].
    intros [->|H]; [|exact H].
    destruct (in_dec dec k (map fst d)) as [I|N]; [exact I|].
    apply (dict_get_None_not_In K V dec) in N. congruence.
  - rewrite (dict_set_keys_absent K V dec d k v E), in_app_iff. simpl. intuition.
Qed.

(** The entry that [known_keys[key]] gives, before it is counted. *)
Lemma count_key_get known key f ck :
  dict_get resource_key_eq_dec (count_key known key f) ck =
  if resource_key_eq_dec ck (canonical key)
  then Some (let entry := match dict_get resource_key_eq_dec known (canonical key) with
                          | Some entry => entry
                          | None => (key, [])
                          end in
             (fst entry,
              dict_set string_dec (snd entry) f
                (S match dict_get string_dec (snd entry) f with Some n => n | None => 0 end)))
  else dict_get resource_key_eq_dec known ck.
Proof.
  unfold count_key. cbv zeta.
  destruct (resource_key_eq_dec ck (canonical key)) as [->|Hne].
  - now rewrite dict_get_set_same.
  - now rewrite dict_get_set_other.
Qed.

Lemma count_key_total known key f key' :
  key_total (count_key known key f) key' =
  (if resource_key_eq_dec (canonical key') (canonical key) then 1 else 0)
  + key_total known key'.
Proof.
  unfold key_total. rewrite count_key_get.
  destruct (resource_key_eq_dec (canonical key') (canonical key)) as [E|Hne]; [|reflexivity].
  rewrite E. cbv zeta. cbn [snd]. rewrite file_total_bump.
  now destruct (dict_get resource_key_eq_dec known (canonical key)).
Qed.

Lemma count_key_files known key f key' f' :
  In f' (key_files (count_key known key f) key') <->
  (same_key key' key /\ f' = f) \/ In f' (key_files known key').
Proof.
  unfold key_files, same_key. rewrite count_key_get.
  destruct (resource_key_eq_dec (canonical key') (canonical key)) as [E|Hne].
  - rewrite E. cbv zeta. cbn [snd]. rewrite dict_set_keys_In.
    destruct (dict_get resource_key_eq_dec known (canonical key)); simpl; intuition.
  - intuition.
Qed.

Lemma count_key_files_distinct known key f :
  files_distinct known -> files_distinct (count_key known key f).
Proof.
  intros H ck entry. rewrite count_key_get.
  destruct (resource_key_eq_dec ck (canonical key)) as [->|Hne]; [|apply H].
  cbv zeta. intros E. injection E as <-. cbn [snd]. apply dict_set_NoDup.
  destruct (dict_get resource_key_eq_dec known (canonical key)) as [e0|] eqn:E0;
    [exact (H _ _ E0) | constructor].
Qed.

Lemma count_key_spelled seen known key f :
  spelled seen known -> spelled (seen ++ [(key, f)]) (count_key known key f).
Proof.
  intros H ck entry. rewrite count_key_get.
  destruct (resource_key_eq_dec ck (canonical key)) as [->|Hne].
  - cbv zeta. intros E. injection E as <-. cbn [fst].
    destruct (dict_get resource_key_eq_dec known (canonical key)) as [e0|] eqn:E0.
    + destruct (H _ _ E0) as [Hc [f0 Hin]]. split; [exact Hc|].
      exists f0. apply in_or_app. now left.
    + cbn [fst]. split; [reflexivity|]. exists f. apply in_or_app. right. now left.
  - intros E. destruct (H _ _ E) as [Hc [f0 Hin]]. split; [exact Hc|].
    exists f0. apply in_or_app. now left.
Qed.

Lemma occurrence_count_same a b occs :
  same_key a b -> occurrence_count a occs = occurrence_count b occs.
Proof. unfold same_key, occurrence_count. now intros ->. Qed.

Lemma occurrence_count_cons k f occs key :
  occurrence_count key ((k, f) :: occs)
  = (if resource_key_eq_dec (canonical key) (canonical k) then 1 else 0)
    + occurrence_count key occs.
Proof.
  unfold occurrence_count. cbn [map fst].
  destruct (resource_key_eq_dec (canonical key) (canonical k)) as [E|N].
  - now rewrite count_occ_cons_eq by (symmetry; exact E).
  - now rewrite count_occ_cons_neq by congruence.
Qed.

Lemma tally_facts occs :
  forall known seen,
    (NoDup (map fst known) -> NoDup (map fst (tally occs known)))
    /\ (files_distinct known -> files_distinct (tally occs known))
    /\ (spelled seen known -> spelled (seen ++ occs) (tally occs known))
    /\ (forall key, key_total (tally occs known) key
                    = occurrence_count key occs + key_total known key)
    /\ (forall key f, In f (key_files (tally occs known) key)
                      <-> (exists k, same_key k key /\ In (k, f) occs)
                          \/ In f (key_files known key)).
Proof.
  induction occs as [|[k f] occs IH]; intros known seen.
  - simpl. split; [auto|]. split; [auto|]. split; [now rewrite app_nil_r|].
    split; [reflexivity|]. intros key f. split; [auto|]. intros [(k & _ & [])|H]. exact H.
  - change (tally ((k, f) :: occs) known) with (tally occs (count_key known k f)).
    destruct (IH (count_key known k f) (seen ++ [(k, f)])%list) as (H1 & H2 & H3 & H4 & H5).
    split; [|split; [|split; [|split]]].
    + intros ND. apply H1. unfold count_key. now apply dict_set_NoDup.
    + intros FD. apply H2. now apply count_key_files_distinct.
    + intros SP. replace (seen ++ (k, f) :: occs)%list with ((seen ++ [(k, f)]) ++ occs)%list
        by (now rewrite <- app_assoc).
      apply H3. now apply count_key_spelled.
    + intros key. rewrite H4, count_key_total, occurrence_count_cons. lia.
    + intros key f'. rewrite H5, count_key_files. split.
      * intros [(k0 & Hs & Hin)|[[Hs ->]|H]].
        -- left. exists k0. split; [exact Hs | now right].
        -- left. exists k. split; [symmetry; exact Hs | now left].
        -- now right.
      * intros [(k0 & Hs & [E|Hin])|H].
        -- injection E as <- <-. right. left. split; [symmetry; exact Hs | reflexivity].
        -- left. now exists k0.
        -- right. now right.
Qed.

Lemma NoDup_keys_filter {K V} (p : K * V -> bool) (d : list (K * V)) :
  NoDup (map fst d) -> NoDup (map fst (filter p d)).
Proof.
  induction d as [|[k v] d IH]; simpl; intros ND; [constructor|].
  inversion ND as [|? ? Hnin ND']; subst.
  destruct (p (k, v)); simpl; [|auto].
  constructor; [|auto].
  intros Hin. apply Hnin. apply in_map_iff in Hin as ([k' v'] & <- & Hin).
  apply filter_In in Hin as [Hin _]. apply in_map_iff. now exists (k', v').
Qed.

(** What [check_duplicates] prints and whether it raises, in terms of the
    occurrences of the keys. *)
Lemma check_duplicates_report configs occs :
  occurrences configs = Ok occs ->
  (forall key files,
      In (key, files) (fst (check_duplicates configs)) <->
      1 < occurrence_count key occs
      /\ option_map fst (dict_get resource_key_eq_dec (tally occs []) (canonical key))
         = Some key
      /\ files = key_files (tally occs []) key)
  /\ NoDup (map (fun r => canonical (fst r)) (fst (check_duplicates configs)))
  /\ snd (check_duplicates configs)
     = (if existsb is_duplicate (tally occs []) then Raise ValueError else Ok tt)
  /\ (existsb is_duplicate (tally occs []) = true
      <-> exists key, 1 < occurrence_count key occs).
Proof.
  intros Hocc. unfold check_duplicates.
  rewrite (count_configs_tally configs [] occs Hocc).
  destruct (tally_facts occs [] []) as (HND & HFD & HSP & Htot & Hfiles).
  specialize (HND (NoDup_nil _)).
  assert (HSP' : spelled occs (tally occs [])) by (apply HSP; intros ck entry E; discriminate).
  clear HSP.
  assert (Hget : forall ck entry,
             In (ck, entry) (tally occs []) <->
             dict_get resource_key_eq_dec (tally occs []) ck = Some entry)
    by (intros; now apply dict_get_In).
  assert (Hcount : forall key entry,
             dict_get resource_key_eq_dec (tally occs []) (canonical key) = Some entry ->
             file_total (snd entry) = occurrence_count key occs).
  { intros key entry E. specialize (Htot key). unfold key_total in Htot.
    rewrite E in Htot. simpl in Htot. lia. }
  cbn [fst snd]. split; [|split; [|split]].
  - intros key files. rewrite in_map_iff. split.
    + intros ([ck [first fc]] & E & Hin). cbn [fst snd] in E. injection E as -> <-.
      apply filter_In in Hin as [Hin Hdup].
      apply Hget in Hin. destruct (HSP' _ _ Hin) as [Hc _]. cbn [fst] in Hc. subst ck.
      unfold is_duplicate in Hdup. cbn [snd] in Hdup.
      apply Nat.ltb_lt in Hdup. fold (file_total fc) in Hdup.
      rewrite <- (Hcount key (key, fc) Hin). split; [exact Hdup|].
      unfold key_files. rewrite Hin. split; reflexivity.
    + intros (Hlt & Hfirst & ->). unfold key_files.
      destruct (dict_get resource_key_eq_dec (tally occs []) (canonical key))
        as [[first fc]|] eqn:E; [|discriminate].
      cbn in Hfirst. injection Hfirst as ->.
      exists (canonical key, (key, fc)). split; [reflexivity|].
      apply filter_In. split; [now apply Hget|].
      unfold is_duplicate. cbn [snd]. apply Nat.ltb_lt. fold (file_total fc).
      pose proof (Hcount key (key, fc) E) as Hc. cbn [snd] in Hc. now rewrite Hc.
  - rewrite map_map.
    rewrite (map_ext_in _ fst).
    + now apply NoDup_keys_filter.
    + intros [ck entry] Hin. apply filter_In in Hin as [Hin _]. apply Hget in Hin.
      cbn [fst snd]. exact (proj1 (HSP' _ _ Hin)).
  - reflexivity.
  - rewrite existsb_exists. split.
    + intros ([ck [first fc]] & Hin & Hdup). exists first.
      apply Hget in Hin. destruct (HSP' _ _ Hin) as [Hc _]. cbn [fst] in Hc. subst ck.
      unfold is_duplicate in Hdup. cbn [snd] in Hdup.
      apply Nat.ltb_lt in Hdup. fold (file_total fc) in Hdup.
      now rewrite <- (Hcount first (first, fc) Hin).
    + intros [key Hlt]. specialize (Htot key). unfold key_total in Htot.
      destruct (dict_get resource_key_eq_dec (tally occs []) (canonical key))
        as [entry|] eqn:E; [|simpl in Htot; lia].
      exists (canonical key, entry). split; [now apply Hget|].
      unfold is_duplicate. cbn [snd]. apply Nat.ltb_lt. fold (file_total (snd entry)).
      now rewrite (Hcount key entry E).
Qed.

Lemma occurrences_Permutation configs configs' :
  Permutation configs configs' ->
  forall occs,
    occurrences configs = Ok occs ->
    exists occs', occurrences configs' = Ok occs' /\ Permutation occs occs'.
Proof.
  induction 1 as [| [[f i] c] l l' _ IH | [[f1 i1] c1] [[f2 i2] c2] l | l l' l'' _ IH1 _ IH2];
    intros occs H.
  - exists occs. split; [exact H | apply Permutation_refl].
  - simpl in *.
    destruct (is_itl_resource c) as [[|]|]; try discriminate; [|now apply IH].
    destruct (expand_keys c) as [keys|]; [|discriminate].
    destruct (occurrences l) as [o|]; [|discriminate].
    injection H as <-.
    destruct (IH o eq_refl) as (o' & -> & Hp).
    eexists. split; [reflexivity | now apply Permutation_app_head].
  - simpl in *.
    destruct (is_itl_resource c1) as [[|]|]; try discriminate;
      destruct (is_itl_resource c2) as [[|]|]; try discriminate;
      repeat match goal with
             | H : context [match expand_keys ?c with _ => _ end] |- _ =>
                 destruct (expand_keys c); try discriminate
             end;
      destruct (occurrences l) as [o|]; try discriminate;
      injection H as <-; eexists; (split; [reflexivity|]);
      try apply Permutation_refl.
    apply Permutation_app_swap_app.
  - destruct (IH1 occs H) as (o1 & H1 & P1).
    destruct (IH2 o1 H1) as (o2 & H2 & P2).
    exists o2. split; [exact H2 | eapply Permutation_trans; eauto].
Qed.

Lemma occurrence_count_Permutation occs occs' key :
  Permutation occs occs' -> occurrence_count key occs = occurrence_count key occs'.
Proof.
  intros P. unfold occurrence_count.
  apply (Permutation_count_occ resource_key_eq_dec). now apply Permutation_map.
Qed.

Lemma reported_occurrences configs occs key f :
  occurrences configs = Ok occs ->
  (reported configs key f
   <-> 1 < occurrence_count key occs /\ exists k, same_key k key /\ In (k, f) occs).
Proof.
  intros Hocc. destruct (check_duplicates_report configs occs Hocc) as (Hrep & _).
  destruct (tally_facts occs [] []) as (_ & _ & HSP & Htot & Hfiles).
  assert (HSP' : spelled occs (tally occs [])) by (apply HSP; intros ck entry E; discriminate).
  unfold reported. split.
  - intros (key' & files & Hsame & Hin & Hf). apply Hrep in Hin as (Hlt & _ & ->).
    split; [now rewrite <- (occurrence_count_same key' key occs Hsame)|].
    apply Hfiles in Hf as [(k & Hk & Hin)|Hf]; [|contradiction].
    exists k. split; [unfold same_key in *; congruence | exact Hin].
  - intros [Hlt (k & Hk & Hin)].
    pose proof (Htot key) as Ht. unfold key_total in Ht.
    destruct (dict_get resource_key_eq_dec (tally occs []) (canonical key))
      as [[first fc]|] eqn:E; [|simpl in Ht; lia].
    destruct (HSP' _ _ E) as [Hc _]. cbn [fst] in Hc.
    exists first, (key_files (tally occs []) first). split; [exact Hc|]. split.
    + apply Hrep. split; [now rewrite (occurrence_count_same first key occs Hc)|].
      split; [|reflexivity]. rewrite Hc, E. reflexivity.
    + apply Hfiles. left. exists k. split; [unfold same_key in *; congruence | exact Hin].
Qed.

(** C8 (amended).  Exhaustive duplicate detection.  For a set of documents
    that can all be classified and expanded, to the occurrences [occs],
    with keys counted the way the dictionary of the detector identifies
    them: a key is printed as a duplicate exactly when it occurs more than
    once across the files; it is printed once, in a spelling that occurs
    in the documents, with exactly the files that contain it; the
    detector raises one [ValueError] after the whole report when some key
    occurs more than once and returns normally when none does; and a
    reordering of the documents changes neither the outcome nor which
    keys and files are reported.  The first document that cannot be
    classified or expanded makes the detector raise that exception at
    once, with nothing reported. *)
Theorem check_duplicates_exhaustive :
  forall configs,
    (forall occs,
        occurrences configs = Ok occs ->
        (forall key,
            1 < occurrence_count key occs <->
            exists key' files,
              same_key key' key /\ In (key', files) (fst (check_duplicates configs)))
        /\ (forall key files,
               In (key, files) (fst (check_duplicates configs)) ->
               NoDup files
               /\ (exists f, In (key, f) occs)
               /\ forall f, In f files <-> exists k, same_key k key /\ In (k, f) occs)
        /\ NoDup (map (fun r => canonical (fst r)) (fst (check_duplicates configs)))
        /\ (snd (check_duplicates configs) = Raise ValueError
            <-> exists key, 1 < occurrence_count key occs)
        /\ (snd (check_duplicates configs) = Ok tt
            <-> forall key, occurrence_count key occs <= 1)
        /\ (forall configs',
               Permutation configs configs' ->
               snd (check_duplicates configs') = snd (check_duplicates configs)
               /\ forall key f, reported configs' key f <-> reported configs key f))
    /\ (forall before file i config after occs e,
           configs = (before ++ (file, i, config) :: after)%list ->
           occurrences before = Ok occs ->
           unreadable config e ->
           check_duplicates configs = ([], Raise e)).
Proof.
  intros configs. split.
  2:{ intros before file i config after occs e -> Hocc Hun.
      pose proof (count_configs_unreadable before [] file i config after occs e Hocc Hun)
        as Hraise.
      unfold check_duplicates.
      match goal with
      | |- match ?x with _ => _ end = _ =>
          assert (E : x = Raise e) by exact Hraise; rewrite E
      end.
      reflexivity. }
  intros occs Hocc.
  destruct (check_duplicates_report configs occs Hocc) as (Hrep & HND & Hout & Hex).
  destruct (tally_facts occs [] []) as (_ & HFD & HSP & Htot & Hfiles).
  assert (HSP' : spelled occs (tally occs [])) by (apply HSP; intros ck entry E; discriminate).
  assert (Hraise : snd (check_duplicates configs) = Raise ValueError
                   <-> exists key, 1 < occurrence_count key occs).
  { rewrite Hout, <- Hex. destruct (existsb is_duplicate (tally occs [])); split;
      intros; try reflexivity; discriminate. }
  assert (Hok : snd (check_duplicates configs) = Ok tt
                <-> forall key, occurrence_count key occs <= 1).
  { split.
    - intros E key. destruct (le_lt_dec (occurrence_count key occs) 1) as [Hle|Hlt];
        [exact Hle|].
      assert (R : snd (check_duplicates configs) = Raise ValueError)
        by (apply Hraise; now exists key).
      congruence.
    - intros Hall. rewrite Hout.
      destruct (existsb is_duplicate (tally occs [])); [|reflexivity].
      destruct (proj1 Hex eq_refl) as [key Hlt]. specialize (Hall key). lia. }
  split; [|split; [|split; [|split; [|split]]]]; try assumption.
  - intros key. split.
    + intros Hlt. pose proof (Htot key) as Ht. unfold key_total in Ht.
      destruct (dict_get resource_key_eq_dec (tally occs []) (canonical key))
        as [[first fc]|] eqn:E; [|simpl in Ht; lia].
      destruct (HSP' _ _ E) as [Hc _]. cbn [fst] in Hc.
      exists first, (key_files (tally occs []) first). split; [exact Hc|].
      apply Hrep. split; [now rewrite (occurrence_count_same first key occs Hc)|].
      split; [|reflexivity]. rewrite Hc, E. reflexivity.
    + intros (key' & files & Hsame & Hin). apply Hrep in Hin as (Hlt & _).
      now rewrite <- (occurrence_count_same key' key occs Hsame).
  - intros key files Hin. apply Hrep in Hin as (_ & Hfirst & ->).
    destruct (dict_get resource_key_eq_dec (tally occs []) (canonical key))
      as [[first fc]|] eqn:E; [|discriminate].
    cbn in Hfirst. injection Hfirst as ->.
    split; [|split].
    + unfold key_files. rewrite E.
      exact (HFD (fun ck entry E' => ltac:(discriminate)) _ _ E).
    + exact (proj2 (HSP' _ _ E)).
    + intros f. rewrite Hfiles. split; [|auto]. intros [H|H]; [exact H | contradiction].
  - intros configs' Hperm.
    destruct (occurrences_Permutation configs configs' Hperm occs Hocc) as (occs' & Hocc' & P).
    destruct (check_duplicates_report configs' occs' Hocc') as (_ & _ & Hout' & Hex').
    split.
    + rewrite Hout, Hout'.
      destruct (existsb is_duplicate (tally occs [])),
               (existsb is_duplicate (tally occs' [])); try reflexivity; exfalso.
      * destruct (proj1 Hex eq_refl) as [key Hlt].
        rewrite (occurrence_count_Permutation occs occs' key P) in Hlt.
        assert (X : false = true) by (apply Hex'; now exists key).
        discriminate.
      * destruct (proj1 Hex' eq_refl) as [key Hlt].
        rewrite <- (occurrence_count_Permutation occs occs' key P) in Hlt.
        assert (X : false = true) by (apply Hex; now exists key).
        discriminate.
    + intros key f.
      rewrite (reported_occurrences configs' occs' key f Hocc').
      rewrite (reported_occurrences configs occs key f Hocc).
      rewrite (occurrence_count_Permutation occs occs' key P).
      split; intros [Hlt (k & Hk & Hin)]; (split; [exact Hlt|]); exists k;
        (split; [exact Hk|]).
      * eapply Permutation_in; [apply Permutation_sym; exact P | exact Hin].
      * eapply Permutation_in; [exact P | exact Hin].
Qed.

(** ** What a computation can change *)

Section Footprint.
Context {S : Type} (R : S -> S -> Prop).
Hypothesis R_refl : forall s, R s s.
Hypothesis R_trans : forall s1 s2 s3, R s1 s2 -> R s2 s3 -> R s1 s3.

Lemma preserves_ret {A} (a : A) : preserves R (ret a).
Proof. intros s r s' H. injection H as _ <-. apply R_refl. Qed.

Lemma preserves_raise {A} (e : exn) : preserves R (@raise S A e).
Proof. intros s r s' H. injection H as _ <-. apply R_refl. Qed.

Lemma preserves_of_result {A} (x : result A) : preserves R (of_result x).
Proof. intros s r s' H. injection H as _ <-. apply R_refl. Qed.

Lemma preserves_gets {A} (f : S -> A) : preserves R (gets f).
Proof. intros s r s' H. injection H as _ <-. apply R_refl. Qed.

Lemma preserves_reading {A} (f : S -> option (result A)) : preserves R (reading f).
Proof.
  intros s r s' H. unfold reading in H. destruct (f s); [|discriminate].
  injection H as _ <-. apply R_refl.
Qed.

Lemma preserves_timeout {A} : preserves R (fun _ : S => @None (result A * S)).
Proof. intros s r s' H. discriminate. Qed.

Lemma preserves_bind {A B} (m : M S A) (f : A -> M S B) :
  preserves R m -> (forall a, preserves R (f a)) -> preserves R (bind m f).
Proof.
  intros Hm Hf s r s' H. unfold bind in H.
  destruct (m s) as [[[a|e] s1]|] eqn:E; [| |discriminate].
  - eapply R_trans; [eapply Hm; exact E | eapply Hf; exact H].
  - injection H as _ <-. eapply Hm; exact E.
Qed.

Lemma preserves_attempt {A} (m : M S A) : preserves R m -> preserves R (attempt m).
Proof.
  intros Hm s r s' H. unfold attempt in H.
  destruct (m s) as [[x s1]|] eqn:E; [|discriminate].
  injection H as _ <-. eapply Hm; exact E.
Qed.
End Footprint.

Lemma later_trans s1 s2 s3 : later s1 s2 -> later s2 s3 -> later s1 s3.
Proof.
  intros H12 H23. induction H23 as [|s2 s3 s4 _ IH Hstep]; [exact H12|].
  eapply later_step; [apply IH; exact H12 | exact Hstep].
Qed.

Lemma later_one s s' : run_step s s' -> later s s'.
Proof. intros H. eapply later_step; [apply later_refl | exact H]. Qed.

Lemma later_world_trans w1 w2 w3 :
  later_world w1 w2 -> later_world w2 w3 -> later_world w1 w3.
Proof. unfold later_world. apply later_trans. Qed.

Lemma quiet_refl s : quiet s s.
Proof. repeat split; apply later_refl. Qed.

Lemma quiet_trans s1 s2 s3 : quiet s1 s2 -> quiet s2 s3 -> quiet s1 s3.
Proof.
  intros (L1 & C1 & E1) (L2 & C2 & E2). repeat split; try congruence.
  eapply later_trans; eauto.
Qed.

Lemma preserves_quiet_later {A} (m : M store A) : preserves quiet m -> preserves later m.
Proof. intros H s r s' E. exact (proj1 (H s r s' E)). Qed.

Lemma preserves_on_store {A} (m : M store A) :
  preserves later m -> preserves later_world (on_store m).
Proof.
  intros Hm w r w' H. unfold on_store in H.
  destruct (m (indices w)) as [[x s1]|] eqn:E; [|discriminate].
  injection H as _ <-. unfold later_world. simpl. eapply Hm; exact E.
Qed.

Lemma preserves_put_with_key u j k : preserves later_world (put_with_key u j k).
Proof.
  intros w r w' H. unfold put_with_key in H.
  destruct (remote_service w _ _); injection H as _ <-; apply later_refl.
Qed.

(** A resolution changes neither dictionary of resources. *)
Lemma get_generated_id_resources ck prefix s :
  compiled_resources (snd (get_generated_id ck prefix s)) = compiled_resources s
  /\ existing_resources (snd (get_generated_id ck prefix s)) = existing_resources s.
Proof.
  rewrite get_generated_id_recorded. destruct (recorded_id ck s); split; reflexivity.
Qed.

Lemma preserves_DeferredId_link ck : preserves quiet (total (DeferredId_link ck)).
Proof.
  intros s r s' H. unfold total, DeferredId_link in H.
  pose proof (step_resolve ck (ref_name (reference ck) ++ "-") s) as Hstep.
  destruct (get_generated_id_resources ck (ref_name (reference ck) ++ "-") s) as [Hc He].
  destruct (get_generated_id ck (ref_name (reference ck) ++ "-") s) as [[x|e] s1];
    simpl in Hstep, Hc, He; injection H as _ <-.
  - repeat split; [|exact Hc | exact He].
    eapply later_step; [apply later_one; exact Hstep | apply step_register].
  - repeat split; [|exact Hc | exact He]. now apply later_one.
Qed.

Lemma preserves_ApiKeyId_link ck : preserves quiet (total (ApiKeyId_link ck)).
Proof.
  intros s r s' H. unfold total, ApiKeyId_link in H.
  pose proof (step_resolve ck "" s) as Hstep.
  destruct (get_generated_id_resources ck "" s) as [Hc He].
  destruct (get_generated_id ck "" s) as [x s1]; simpl in Hstep, Hc, He.
  injection H as _ <-. repeat split; [|exact Hc | exact He]. now apply later_one.
Qed.

(** Induction over values, through the lists and dictionaries they nest. *)
Lemma value_nested_ind (P : value -> Prop) :
  P VNone ->
  (forall b, P (VBool b)) ->
  (forall z, P (VInt z)) ->
  (forall s, P (VStr s)) ->
  (forall l, Forall P l -> P (VList l)) ->
  (forall d, Forall (fun kv => P (snd kv)) d -> P (VDict d)) ->
  (forall ck, P (VDeferredId ck)) ->
  (forall ck, P (VApiKeyId ck)) ->
  (forall ref remote, P remote -> P (VRemote ref remote)) ->
  forall v, P v.
Proof.
  intros HN HB HI HS HL HD HDi HA HR.
  fix IH 1. intros [| b | z | s | l | d | ck | ck | ref remote].
  - exact HN.
  - apply HB.
  - apply HI.
  - apply HS.
  - apply HL. induction l as [|x xs IHl]; constructor; [apply IH | exact IHl].
  - apply HD. induction d as [|[k x] xs IHd]; constructor; [apply IH | exact IHd].
  - apply HDi.
  - apply HA.
  - apply HR, IH.
Qed.

(** Footprints of composite computations, by their structure. *)
Ltac footprint refl trans :=
  repeat first
    [ apply (preserves_ret _ refl)
    | apply (preserves_raise _ refl)
    | apply (preserves_of_result _ refl)
    | apply (preserves_gets _ refl)
    | apply (preserves_reading _ refl)
    | apply preserves_timeout
    | apply preserves_attempt
    | apply (preserves_bind _ trans); [|intros ?]
    | match goal with
      | |- preserves _ (match ?x with _ => _ end) => destruct x
      | |- preserves _ (if ?x then _ else _) => destruct x
      end
    | assumption ].

Lemma preserves_link fuel v : preserves quiet (link fuel v).
Proof.
  induction v as [| b | z | s | l IHl | d IHd | ck | ck | ref remote _] using value_nested_ind;
    try (simpl; apply (preserves_ret _ quiet_refl)).
  - simpl. apply (preserves_bind _ quiet_trans); [|intros l'; apply (preserves_ret _ quiet_refl)].
    induction IHl as [|x xs Hx _ IHxs]; footprint quiet_refl quiet_trans.
  - simpl. apply (preserves_bind _ quiet_trans); [|intros d'; apply (preserves_ret _ quiet_refl)].
    induction IHd as [|[k x] xs Hx _ IHxs]; footprint quiet_refl quiet_trans.
  - simpl. apply preserves_DeferredId_link.
  - simpl. apply preserves_ApiKeyId_link.
  - simpl. apply (preserves_reading _ quiet_refl).
Qed.

Lemma preserves_Resource_link fuel r : preserves quiet (Resource_link fuel r).
Proof.
  unfold Resource_link.
  apply (preserves_bind _ quiet_trans); [apply preserves_link|].
  intros compiled. footprint quiet_refl quiet_trans.
Qed.

Lemma preserves_py_str fuel v : preserves quiet (py_str fuel v).
Proof.
  unfold py_str. destruct v; footprint quiet_refl quiet_trans;
    try apply preserves_link; footprint quiet_refl quiet_trans.
Qed.

Lemma preserves_spec_clientId fuel r : preserves quiet (spec_clientId fuel r).
Proof.
  unfold spec_clientId. footprint quiet_refl quiet_trans. all: apply preserves_py_str.
Qed.

Lemma preserves_ApiKey_key fuel r : preserves quiet (ApiKey_key fuel r).
Proof.
  unfold ApiKey_key. footprint quiet_refl quiet_trans. all: apply preserves_py_str.
Qed.

Lemma preserves_get_client_parent_id fuel i :
  preserves quiet (get_client_parent_id fuel i).
Proof.
  unfold get_client_parent_id. footprint quiet_refl quiet_trans.
  all: apply preserves_py_str.
Qed.

Lemma preserves_apikeys_for_client_next fuel :
  forall g, preserves quiet (apikeys_for_client_next fuel g).
Proof.
  induction fuel as [|fuel IH]; intros g; simpl; [apply preserves_timeout|].
  footprint quiet_refl quiet_trans.
  all: first [ apply IH | apply preserves_spec_clientId | apply preserves_py_str
             | apply preserves_ApiKey_key | apply preserves_get_client_parent_id ].
Qed.

Lemma preserves_apikeys_for_resource fuel :
  forall r, preserves quiet (apikeys_for_resource fuel r).
Proof.
  induction fuel as [|fuel IH]; intros r; simpl; [apply preserves_timeout|].
  footprint quiet_refl quiet_trans.
  all: first [ apply IH | apply preserves_spec_clientId | apply preserves_py_str
             | intros s x s' H; injection H as _ <-; apply quiet_refl ].
Qed.

Lemma preserves_invalidate h :
  preserves later (fun s => Some (Ok tt, set_valid h false s)).
Proof. intros s r s' H. injection H as _ <-. apply later_one, step_invalidate. Qed.

(** Footprints in the world: what happens to the indices. *)
Ltac world_footprint :=
  repeat first
    [ apply (preserves_ret later_world (fun w => later_refl (indices w)))
    | apply (preserves_raise later_world (fun w => later_refl (indices w)))
    | apply (preserves_of_result later_world (fun w => later_refl (indices w)))
    | apply (preserves_gets later_world (fun w => later_refl (indices w)))
    | apply preserves_timeout
    | apply preserves_attempt
    | apply preserves_put_with_key
    | apply (preserves_bind later_world later_world_trans); [|intros ?]
    | apply preserves_on_store
    | apply preserves_invalidate
    | apply preserves_quiet_later
    | apply preserves_Resource_link
    | apply preserves_py_str
    | apply preserves_ApiKey_key
    | apply preserves_spec_clientId
    | apply preserves_apikeys_for_client_next
    | apply preserves_apikeys_for_resource
    | apply (preserves_ret quiet quiet_refl)
    | apply (preserves_gets quiet quiet_refl)
    | apply (preserves_of_result quiet quiet_refl)
    | apply (preserves_bind quiet quiet_trans); [|intros ?]
    | match goal with
      | |- preserves _ (match ?x with _ => _ end) => destruct x
      | |- preserves _ (if ?x then _ else _) => destruct x
      end
    | assumption ].

Lemma preserves_Resource_apply_put fuel self u spec apikey :
  preserves later_world (Resource_apply_put fuel self u spec apikey).
Proof. unfold Resource_apply_put. world_footprint. Qed.

Lemma preserves_Resource_apply_keys fuel :
  forall self u spec g, preserves later_world (Resource_apply_keys fuel self u spec g).
Proof.
  induction fuel as [|fuel IH]; intros self u spec g; simpl; [apply preserves_timeout|].
  world_footprint. all: first [ apply preserves_Resource_apply_put | apply IH ].
Qed.

Lemma preserves_Resource_apply fuel self : preserves later_world (Resource_apply fuel self).
Proof.
  unfold Resource_apply. world_footprint. all: apply preserves_Resource_apply_keys.
Qed.

Lemma preserves_ApiKey_attach_to_client fuel self k :
  preserves later_world (ApiKey_attach_to_client fuel self k).
Proof. unfold ApiKey_attach_to_client. world_footprint. Qed.

Lemma preserves_ApiKey_apply_keys fuel :
  forall self g, preserves later_world (ApiKey_apply_keys fuel self g).
Proof.
  induction fuel as [|fuel IH]; intros self g; simpl; [apply preserves_timeout|].
  world_footprint. all: first [ apply preserves_ApiKey_attach_to_client | apply IH ].
Qed.

Lemma preserves_ApiKey_apply fuel self : preserves later_world (ApiKey_apply fuel self).
Proof.
  unfold ApiKey_apply. world_footprint.
  all: first [ apply preserves_ApiKey_apply_keys | apply preserves_ApiKey_attach_to_client ].
Qed.

(** Every push changes the indices by steps of the run only. *)
Lemma preserves_apply fuel resource : preserves later_world (apply fuel resource).
Proof.
  unfold apply. destruct (String.eqb (kind resource) "ApiKey");
    [apply preserves_ApiKey_apply | apply preserves_Resource_apply].
Qed.

Lemma preserves_push_updates fuel resources :
  preserves later_world (push_updates fuel resources).
Proof.
  induction resources as [|[ref r] rest IH]; simpl; world_footprint.
  all: apply preserves_apply.
Qed.

(** ** Credentials *)

Lemma bind_Ok_inv {S A B} (m : M S A) (f : A -> M S B) s b s' :
  bind m f s = Some (Ok b, s') ->
  exists a s1, m s = Some (Ok a, s1) /\ f a s1 = Some (Ok b, s').
Proof.
  unfold bind. destruct (m s) as [[[a|e] s1]|]; try discriminate.
  intros H. now exists a, s1.
Qed.

Lemma of_result_inv {S A} (x : result A) (s : S) r s' :
  of_result x s = Some (r, s') -> r = x /\ s' = s.
Proof. intros H. injection H as <- <-. auto. Qed.

Lemma run_step_keys s s' :
  run_step s s' ->
  map fst (compiled_resources s') = map fst (compiled_resources s)
  /\ map fst (existing_resources s') = map fst (existing_resources s).
Proof.
  destruct 1 as [ck prefix s | i r s | [[|] ref] s].
  - destruct (get_generated_id_resources ck prefix s) as [-> ->]. auto.
  - auto.
  - simpl. destruct (dict_get _ (compiled_resources s) ref) as [r|] eqn:E; simpl; [|auto].
    split; [|reflexivity]. eapply dict_set_keys_present; exact E.
  - simpl. destruct (dict_get _ (existing_resources s) ref) as [l|] eqn:E; simpl; [|auto].
    split; [reflexivity|]. eapply dict_set_keys_present; exact E.
Qed.

Lemma later_store_ok s s' : later s s' -> store_ok s -> store_ok s'.
Proof.
  induction 1 as [|s1 s2 s3 _ IH Hstep]; [auto|].
  intros Hok. destruct (IH Hok) as [Hc He].
  destruct (run_step_keys s2 s3 Hstep) as [Kc Ke].
  split; [rewrite Kc | rewrite Ke]; assumption.
Qed.

Lemma valid_of_set_same h b s x :
  valid_of s h = Some x -> valid_of (set_valid h b s) h = Some b.
Proof.
  destruct h as [[|] ref]; simpl.
  - destruct (dict_get _ (compiled_resources s) ref) as [r|]; [|discriminate].
    intros _. simpl. now rewrite dict_get_set_same.
  - destruct (dict_get _ (existing_resources s) ref) as [l|]; [|discriminate].
    intros _. simpl. now rewrite dict_get_set_same.
Qed.

Lemma valid_of_set_other h h' b s :
  h <> h' -> valid_of (set_valid h' b s) h = valid_of s h.
Proof.
  destruct h as [o ref], h' as [o' ref']. intros Hne.
  destruct o, o'; simpl;
    try (destruct (dict_get _ (compiled_resources s) ref'); reflexivity);
    try (destruct (dict_get _ (existing_resources s) ref'); reflexivity).
  - destruct (dict_get _ (compiled_resources s) ref') as [r|] eqn:E; [|reflexivity].
    simpl. rewrite dict_get_set_other; [reflexivity | congruence].
  - destruct (dict_get _ (existing_resources s) ref') as [l|] eqn:E; [|reflexivity].
    simpl. rewrite dict_get_set_other; [reflexivity | congruence].
Qed.

(** No step of the run makes an invalid credential valid again. *)
Lemma run_step_invalid s s' h :
  run_step s s' -> valid_of s h = Some false -> valid_of s' h = Some false.
Proof.
  destruct 1 as [ck prefix s | i r s | h' s]; intros Hv.
  - destruct (get_generated_id_resources ck prefix s) as [Hc He].
    destruct h as [[|] ref]; simpl in *; [now rewrite Hc | now rewrite He].
  - destruct h as [[|] ref]; exact Hv.
  - destruct (handle_eq_dec h h') as [<-|Hne].
    + eapply valid_of_set_same; exact Hv.
    + now rewrite valid_of_set_other.
Qed.

Lemma later_invalid s s' h :
  later s s' -> valid_of s h = Some false -> valid_of s' h = Some false.
Proof.
  induction 1 as [|s1 s2 s3 _ IH Hstep]; [auto|].
  intros Hv. eapply run_step_invalid; eauto.
Qed.

Lemma get_resources_by_type_quiet s s' k :
  quiet s s' -> get_resources_by_type s' k = get_resources_by_type s k.
Proof. intros (_ & Hc & He). unfold get_resources_by_type. now rewrite Hc, He. Qed.

Lemma valid_of_quiet s s' h : quiet s s' -> valid_of s' h = valid_of s h.
Proof. intros (_ & Hc & He). destruct h as [[|] ref]; simpl; now rewrite ?Hc, ?He. Qed.

(** The flag of a candidate, as the indices hold it. *)
Lemma candidate_valid_of s k h apikey :
  store_ok s ->
  In (h, apikey) (get_resources_by_type s k) ->
  valid_of s h = Some (valid apikey).
Proof.
  intros [NDc NDe] Hin. unfold get_resources_by_type in Hin.
  apply in_app_iff in Hin as [Hin|Hin];
    apply in_map_iff in Hin as ([ref x] & E & Hin); simpl in E; injection E as <- <-;
    apply filter_In in Hin as [Hin _]; simpl.
  - apply (dict_get_In _ _ ResourceReference_eq_dec) in Hin; [|exact NDc]. now rewrite Hin.
  - apply (dict_get_In _ _ ResourceReference_eq_dec) in Hin; [|exact NDe]. now rewrite Hin.
Qed.

(** What the generator yields is one of the current [ApiKey] resources,
    and its flag is set. *)
Lemma apikeys_for_client_next_yields fuel :
  forall g s h apikey g' s',
    apikeys_for_client_next fuel g s = Some (Ok (Some (h, apikey, g')), s') ->
    In (h, apikey) (get_resources_by_type s' "ApiKey") /\ valid apikey = true.
Proof.
  induction fuel as [|fuel IH]; intros g s h apikey g' s' H; [discriminate|].
  simpl in H.
  apply bind_Ok_inv in H as (cands & s0 & Hc & H).
  injection Hc as <- <-.
  destruct (nth_error (get_resources_by_type s "ApiKey") (position g))
    as [[h0 a0]|] eqn:Hn.
  - destruct (valid a0) eqn:Hv; simpl in H; [|eapply IH; exact H].
    apply bind_Ok_inv in H as (cid_str & s3 & H3 & H).
    destruct (value_eq_dec (VStr cid_str) (id (client_id g))); [|eapply IH; exact H].
    apply bind_Ok_inv in H as (k & s4 & H4 & H).
    injection H as <- <- <- <-.
    apply preserves_spec_clientId in H3. apply preserves_ApiKey_key in H4.
    rewrite (get_resources_by_type_quiet s s4 "ApiKey" (quiet_trans _ _ _ H3 H4)).
    split; [eapply nth_error_In; exact Hn | exact Hv].
  - apply bind_Ok_inv in H as (parent & s1 & _ & H).
    destruct parent as [parent|]; [eapply IH; exact H | discriminate].
Qed.

(** A credential whose flag is down is not yielded. *)
Lemma apikeys_for_client_skips_invalid fuel g s h apikey g' s' :
  store_ok s ->
  valid_of s h = Some false ->
  apikeys_for_client_next fuel g s <> Some (Ok (Some (h, apikey, g')), s').
Proof.
  intros Hok Hv H.
  pose proof (preserves_apikeys_for_client_next fuel g _ _ _ H) as Hq.
  apply apikeys_for_client_next_yields in H as [Hin Htrue].
  assert (Hok' : store_ok s') by (eapply later_store_ok; [exact (proj1 Hq) | exact Hok]).
  pose proof (candidate_valid_of s' "ApiKey" h apikey Hok' Hin) as Hv'.
  rewrite (valid_of_quiet s s' h Hq), Hv, Htrue in Hv'. discriminate.
Qed.

Lemma run_step_present s s' h x :
  run_step s s' -> valid_of s h = Some x -> exists y, valid_of s' h = Some y.
Proof.
  destruct 1 as [ck prefix s | i r s | h' s]; intros Hv.
  - destruct (get_generated_id_resources ck prefix s) as [Hc He]. exists x.
    destruct h as [[|] ref]; simpl in *; [now rewrite Hc | now rewrite He].
  - exists x. destruct h as [[|] ref]; exact Hv.
  - destruct (handle_eq_dec h h') as [<-|Hne].
    + exists false. eapply valid_of_set_same; exact Hv.
    + exists x. now rewrite valid_of_set_other.
Qed.

Lemma later_present s s' h x :
  later s s' -> valid_of s h = Some x -> exists y, valid_of s' h = Some y.
Proof.
  intros H. revert x. induction H as [|s1 s2 s3 _ IH Hstep]; intros x Hv; [eauto|].
  destruct (IH x Hv) as [y Hy]. eapply run_step_present; eauto.
Qed.

(** Invalidation by [Resource.apply] is permanent.  When the service
    answers 401 to the credential the generator has just yielded, the loop
    marks that ApiKey invalid before it asks for the next one; from then
    on, in every later state of the run, the flag stays down and no
    resumption of any [apikeys_for_client] generator yields that ApiKey;
    and every push leaves the indices in a later state of the run. *)
Theorem rejected_credential_never_offered :
  forall fuel self url spec g w h apikey g' s1 w2,
    store_ok (indices w) ->
    apikeys_for_client_next fuel g (indices w) = Some (Ok (Some (h, apikey, g')), s1) ->
    Resource_apply_put fuel self url spec (Some apikey)
      (mkWorld s1 (files w) (sent w) (remote_service w)) = Some (Ok 401%Z, w2) ->
    let w3 := mkWorld (set_valid h false (indices w2)) (files w2) (sent w2)
                      (remote_service w2) in
    Resource_apply_keys (S fuel) self url spec g w
    = Resource_apply_keys fuel self url spec g' w3
    /\ valid_of (indices w3) h = Some false
    /\ (forall s',
           later (indices w3) s' ->
           valid_of s' h = Some false
           /\ forall fuel' g0 a g1 s'',
               apikeys_for_client_next fuel' g0 s' <> Some (Ok (Some (h, a, g1)), s''))
    /\ (forall w' fuel' resource r w'',
           later_world w3 w' ->
           apply fuel' resource w' = Some (r, w'') ->
           later_world w3 w'').
Proof.
  intros fuel self u spec g w h apikey g' s1 w2 Hok Hnext Hput w3.
  pose proof (preserves_apikeys_for_client_next fuel g _ _ _ Hnext) as Hq.
  assert (Hok1 : store_ok s1) by (eapply later_store_ok; [exact (proj1 Hq) | exact Hok]).
  destruct (apikeys_for_client_next_yields fuel g _ h apikey g' s1 Hnext) as [Hin Htrue].
  pose proof (candidate_valid_of s1 "ApiKey" h apikey Hok1 Hin) as Hv1.
  pose proof (preserves_Resource_apply_put fuel self u spec (Some apikey) _ _ _ Hput) as Hl.
  unfold later_world in Hl. simpl in Hl.
  destruct (later_present s1 (indices w2) h _ Hl Hv1) as [y Hy].
  assert (Hok3 : store_ok (indices w3)).
  { eapply later_store_ok; [|exact Hok1].
    eapply later_step; [exact Hl | apply step_invalidate]. }
  assert (Hv3 : valid_of (indices w3) h = Some false)
    by (eapply valid_of_set_same; exact Hy).
  split; [|split; [exact Hv3|split]].
  - simpl. unfold bind at 1. unfold on_store at 1. rewrite Hnext.
    unfold bind at 1. rewrite Hput. simpl. reflexivity.
  - intros s' Hlater.
    assert (Hv' : valid_of s' h = Some false) by (eapply later_invalid; eauto).
    split; [exact Hv'|].
    intros fuel' g0 a g1 s''. apply apikeys_for_client_skips_invalid; [|exact Hv'].
    eapply later_store_ok; eauto.
  - intros w' fuel' resource r w'' Hw Happly.
    eapply later_world_trans; [exact Hw|].
    eapply preserves_apply; exact Happly.
Qed.

Lemma first_run_rejected_ok : store_ok (indices first_run_rejected).
Proof. split; repeat constructor; simpl; intuition discriminate. Qed.

Lemma rejected_credential_never_offered_witness :
  store_ok (indices first_run_rejected)
  /\ exists s3,
       valid_of s3 acme_key_handle = Some false
       /\ forall s', later s3 s' -> valid_of s' acme_key_handle = Some false.
Proof.
  split; [exact first_run_rejected_ok|].
  edestruct (rejected_credential_never_offered 5 acme_client "https://policy.example"
               acme_spec (apikeys_for_client (mkId "Client" (VStr acme_generated_id)))
               first_run_rejected acme_key_handle)
    as (_ & Hv & Hl & _);
    [exact first_run_rejected_ok | vm_compute; reflexivity | vm_compute; reflexivity |].
  eexists. split; [exact Hv | intros s' Hs; exact (proj1 (Hl s' Hs))].
Defined.

(** C7 (the code departs from the claim).  The push of the ApiKey
    [acme-key] offers the credential [acme-key]; the service answers 401 to
    the attachment; [ApiKey.apply] returns [True] all the same, the
    credential is still valid afterwards, and the credential search yields
    it again, where [Resource.apply] would have marked it invalid. *)
Theorem attachment_rejection_keeps_credential :
  exists w' req apikey g' s'',
    ApiKey_apply 6 acme_key first_run_rejected = Some (Ok true, w')
    /\ sent w' = [req]
    /\ apikey_param req = Some "abababababababababababababababababababab"
    /\ remote_service first_run_rejected 0 req = Response 401
    /\ valid_of (indices w') acme_key_handle = Some true
    /\ apikeys_for_client_next 6
         (apikeys_for_client (mkId "Client" (VStr acme_generated_id))) (indices w')
       = Some (Ok (Some (acme_key_handle, apikey, g')), s'').
Proof.
  do 5 eexists.
  split; [vm_compute; reflexivity|]. split; [vm_compute; reflexivity|].
  split; [vm_compute; reflexivity|]. split; [vm_compute; reflexivity|].
  split; vm_compute; reflexivity.
Qed.

(** ** Attaching an ApiKey *)

Lemma on_store_inv {A} (m : M store A) w r w' :
  on_store m w = Some (r, w') ->
  exists s', m (indices w) = Some (r, s')
             /\ w' = mkWorld s' (files w) (sent w) (remote_service w).
Proof.
  unfold on_store. destruct (m (indices w)) as [[x s']|]; [|discriminate].
  intros H. injection H as <- <-. now exists s'.
Qed.

Lemma quiet_world_refl w : quiet_world w w.
Proof. apply quiet_refl. Qed.

Lemma quiet_world_trans w1 w2 w3 : quiet_world w1 w2 -> quiet_world w2 w3 -> quiet_world w1 w3.
Proof. apply quiet_trans. Qed.

Lemma preserves_on_store_quiet {A} (m : M store A) :
  preserves quiet m -> preserves quiet_world (on_store m).
Proof.
  intros Hm w r w' H. apply on_store_inv in H as (s' & E & ->).
  unfold quiet_world. simpl. eapply Hm; exact E.
Qed.

Lemma preserves_put_with_key_quiet u j k : preserves quiet_world (put_with_key u j k).
Proof.
  intros w r w' H. unfold put_with_key in H.
  destruct (remote_service w _ _); injection H as _ <-; apply quiet_refl.
Qed.

(** An attachment resolves identifiers at most: it touches no flag. *)
Lemma preserves_attach_quiet fuel self k :
  preserves quiet_world (ApiKey_attach_to_client fuel self k).
Proof.
  unfold ApiKey_attach_to_client. footprint quiet_world_refl quiet_world_trans.
  all: first [ apply preserves_put_with_key_quiet
             | apply preserves_on_store_quiet;
               first [ apply preserves_Resource_link | apply preserves_py_str ] ].
Qed.

(** [attach_to_client] has no [return False]. *)
Lemma attach_to_client_returns_True fuel self k w b w' :
  ApiKey_attach_to_client fuel self k w = Some (Ok b, w') -> b = true.
Proof.
  unfold ApiKey_attach_to_client. intros H.
  repeat (apply bind_Ok_inv in H as (? & ? & _ & H)).
  now injection H as <- _.
Qed.

(** An attachment that returns has sent exactly one request, with the
    credential it was given. *)
Lemma attach_to_client_sends_one fuel self k w b w' :
  ApiKey_attach_to_client fuel self k w = Some (Ok b, w') ->
  exists u spec, sent w' = (sent w ++ [attach_request u spec k])%list.
Proof.
  unfold ApiKey_attach_to_client. intros H.
  apply bind_Ok_inv in H as (config & w1 & H1 & H).
  apply on_store_inv in H1 as (s1 & _ & ->).
  apply bind_Ok_inv in H as (metadata & w2 & H2 & H). apply of_result_inv in H2 as [_ ->].
  apply bind_Ok_inv in H as (nm & w3 & H3 & H). apply of_result_inv in H3 as [_ ->].
  apply bind_Ok_inv in H as (ns & w4 & H4 & H). apply of_result_inv in H4 as [_ ->].
  apply bind_Ok_inv in H as (u & w5 & H5 & H).
  apply on_store_inv in H5 as (s2 & _ & ->).
  apply bind_Ok_inv in H as (spec & w6 & H6 & H). apply of_result_inv in H6 as [_ ->].
  apply bind_Ok_inv in H as (status & w7 & H7 & H).
  injection H as _ <-. unfold put_with_key in H7. simpl in H7.
  exists u, spec.
  destruct (remote_service _ _ _); [|discriminate]. now injection H7 as _ <-.
Qed.

(** Whatever status the service answers with, the attachment returns
    [True]. *)
Lemma attach_to_client_any_status
      fuel self k w config s1 metadata nm namespace u s2 spec status :
  Resource_link fuel self (indices w) = Some (Ok config, s1) ->
  py_getitem config "metadata" = Ok metadata ->
  py_index metadata "name" = Ok nm ->
  py_index metadata "namespace" = Ok namespace ->
  py_str fuel namespace s1 = Some (Ok u, s2) ->
  py_getitem config "spec" = Ok spec ->
  remote_service w (length (sent w)) (attach_request u spec k) = Response status ->
  ApiKey_attach_to_client fuel self k w
  = Some (Ok true,
          mkWorld s2 (files w) (sent w ++ [attach_request u spec k])%list (remote_service w)).
Proof.
  intros Hlink Hmeta Hname Hns Hstr Hspec Hanswer.
  unfold ApiKey_attach_to_client, bind, on_store, of_result.
  rewrite Hlink, Hmeta, Hname, Hns. simpl. rewrite Hstr, Hspec.
  unfold put_with_key. simpl.
  unfold attach_request in Hanswer. simpl in Hanswer. rewrite Hanswer. reflexivity.
Qed.

Lemma ApiKey_apply_keys_first fuel self g w h apikey g' s1 k s2 b w3 :
  apikeys_for_client_next fuel g (indices w) = Some (Ok (Some (h, apikey, g')), s1) ->
  ApiKey_key fuel apikey s1 = Some (Ok k, s2) ->
  ApiKey_attach_to_client fuel self k (mkWorld s2 (files w) (sent w) (remote_service w))
  = Some (Ok b, w3) ->
  ApiKey_apply_keys (S fuel) self g w = Some (Ok (Some true), w3).
Proof.
  intros Hnext Hkey Hattach.
  rewrite (attach_to_client_returns_True _ _ _ _ _ _ Hattach) in Hattach.
  simpl. unfold bind at 1. unfold on_store at 1. rewrite Hnext.
  unfold bind at 1. unfold on_store at 1. simpl. rewrite Hkey.
  unfold bind at 1. rewrite Hattach. reflexivity.
Qed.

(** The loop of [ApiKey.apply] ends in [return True] or by exhausting the
    generator, and the latter only if the generator yielded nothing. *)
Lemma ApiKey_apply_keys_outcome fuel self g w x w1 :
  ApiKey_apply_keys fuel self g w = Some (Ok x, w1) ->
  match x with
  | Some b => b = true
  | None => exists fuel' s1, apikeys_for_client_next fuel' g (indices w) = Some (Ok None, s1)
  end.
Proof.
  destruct fuel as [|fuel]; [discriminate|]. simpl. intros H.
  apply bind_Ok_inv in H as (next & w0 & Hnext & H).
  apply on_store_inv in Hnext as (s0 & Hnext & ->).
  destruct next as [[[h apikey] g']|].
  - apply bind_Ok_inv in H as (k & w2 & _ & H).
    apply bind_Ok_inv in H as (attached & w3 & Hattach & H).
    rewrite (attach_to_client_returns_True _ _ _ _ _ _ Hattach) in H.
    now injection H as <- _.
  - injection H as <- _. now exists fuel, s0.
Qed.

(** C10.  The outcome of attaching an ApiKey does not depend on the
    response: [attach_to_client] never returns [False], and returns [True]
    whatever status the service answers with.  Hence, when the credential
    search of [ApiKey.apply] yields a credential, the loop returns [True]
    after that one attachment, with one request sent and the credential
    still valid; the loop is left without a result only when the search
    yields no credential; [ApiKey.apply] then attaches with the key's own
    value and returns [False] even though that attachment returns. *)
Theorem attachment_ignores_the_response :
  (forall fuel self k w b w',
      ApiKey_attach_to_client fuel self k w = Some (Ok b, w') -> b = true)
  /\ (forall fuel self k w config s1 metadata nm namespace u s2 spec status,
         Resource_link fuel self (indices w) = Some (Ok config, s1) ->
         py_getitem config "metadata" = Ok metadata ->
         py_index metadata "name" = Ok nm ->
         py_index metadata "namespace" = Ok namespace ->
         py_str fuel namespace s1 = Some (Ok u, s2) ->
         py_getitem config "spec" = Ok spec ->
         remote_service w (length (sent w)) (attach_request u spec k) = Response status ->
         ApiKey_attach_to_client fuel self k w
         = Some (Ok true,
                 mkWorld s2 (files w) (sent w ++ [attach_request u spec k])%list
                         (remote_service w)))
  /\ (forall fuel self g w h apikey g' s1 k s2 b w3,
         store_ok (indices w) ->
         apikeys_for_client_next fuel g (indices w)
         = Some (Ok (Some (h, apikey, g')), s1) ->
         ApiKey_key fuel apikey s1 = Some (Ok k, s2) ->
         ApiKey_attach_to_client fuel self k
           (mkWorld s2 (files w) (sent w) (remote_service w)) = Some (Ok b, w3) ->
         ApiKey_apply_keys (S fuel) self g w = Some (Ok (Some true), w3)
         /\ valid_of (indices w3) h = Some true
         /\ exists u spec, sent w3 = (sent w ++ [attach_request u spec k])%list)
  /\ (forall fuel self g w w1,
         ApiKey_apply_keys fuel self g w = Some (Ok None, w1) ->
         exists fuel' s1,
           apikeys_for_client_next fuel' g (indices w) = Some (Ok None, s1))
  /\ (forall fuel self w cid w0 x w1,
         on_store (spec_clientId fuel self) w = Some (Ok cid, w0) ->
         ApiKey_apply_keys fuel self (apikeys_for_client (mkId "Client" (VStr cid))) w0
         = Some (Ok (Some x), w1) ->
         ApiKey_apply fuel self w = Some (Ok true, w1))
  /\ (forall fuel self w cid w0 w1 k w2 b w3,
         on_store (spec_clientId fuel self) w = Some (Ok cid, w0) ->
         ApiKey_apply_keys fuel self (apikeys_for_client (mkId "Client" (VStr cid))) w0
         = Some (Ok None, w1) ->
         on_store (ApiKey_key fuel self) w1 = Some (Ok k, w2) ->
         ApiKey_attach_to_client fuel self k w2 = Some (Ok b, w3) ->
         ApiKey_apply fuel self w = Some (Ok false, w3)).
Proof.
  split; [exact attach_to_client_returns_True|].
  split; [exact attach_to_client_any_status|].
  split; [|split; [|split]].
  - intros fuel self g w h apikey g' s1 k s2 b w3 Hok Hnext Hkey Hattach.
    split; [eapply ApiKey_apply_keys_first; eauto|].
    split; [|exact (attach_to_client_sends_one _ _ _ _ _ _ Hattach)].
    pose proof (preserves_apikeys_for_client_next fuel g _ _ _ Hnext) as Hq1.
    pose proof (preserves_ApiKey_key fuel apikey _ _ _ Hkey) as Hq2.
    pose proof (preserves_attach_quiet fuel self k _ _ _ Hattach) as Hq3.
    unfold quiet_world in Hq3. simpl in Hq3.
    destruct (apikeys_for_client_next_yields fuel g _ h apikey g' s1 Hnext) as [Hin Htrue].
    assert (Hok1 : store_ok s1) by (eapply later_store_ok; [exact (proj1 Hq1) | exact Hok]).
    rewrite (valid_of_quiet s2 (indices w3) h Hq3), (valid_of_quiet s1 s2 h Hq2).
    rewrite (candidate_valid_of s1 "ApiKey" h apikey Hok1 Hin). now rewrite Htrue.
  - intros fuel self g w w1 H.
    exact (ApiKey_apply_keys_outcome fuel self g w None w1 H).
  - intros fuel self w cid w0 x w1 Hcid Hloop.
    pose proof (ApiKey_apply_keys_outcome fuel self _ w0 (Some x) w1 Hloop) as ->.
    unfold ApiKey_apply. unfold bind at 1. rewrite Hcid.
    unfold bind at 1. rewrite Hloop. reflexivity.
  - intros fuel self w cid w0 w1 k w2 b w3 Hcid Hloop Hkey Hattach.
    unfold ApiKey_apply. unfold bind at 1. rewrite Hcid.
    unfold bind at 1. rewrite Hloop.
    unfold bind at 1. rewrite Hkey.
    unfold bind at 1. rewrite Hattach. reflexivity.
Qed.

Lemma attachment_ignores_the_response_witness :
  (exists w3,
      ApiKey_apply_keys 6 acme_key
        (apikeys_for_client (mkId "Client" (VStr acme_generated_id))) first_run_rejected
      = Some (Ok (Some true), w3)
      /\ valid_of (indices w3) acme_key_handle = Some true)
  /\ exists w3, ApiKey_apply 6 acme_key after_rejected_client = Some (Ok false, w3).
Proof.
  destruct attachment_ignores_the_response as (_ & _ & H3 & _ & _ & H6).
  split.
  - edestruct (H3 5 acme_key (apikeys_for_client (mkId "Client" (VStr acme_generated_id)))
                  first_run_rejected acme_key_handle) as (Hr & Hv & _);
      [exact first_run_rejected_ok | vm_compute; reflexivity | vm_compute; reflexivity
       | vm_compute; reflexivity |].
    eexists. split; [exact Hr | exact Hv].
  - eexists. eapply (H6 6 acme_key after_rejected_client).
    + vm_compute. reflexivity.
    + vm_compute. reflexivity.
    + vm_compute. reflexivity.
    + vm_compute. reflexivity.
Defined.

(** ** The push phase *)

(** C5 (as stated it fails).  The service cannot be reached when the first
    compiled resource, the ApiKey, is pushed: the exception is raised
    again by the handler, the run ends with it, and the client, the
    second compiled resource, is never pushed: one request was sent, and
    none to the Client endpoint. *)
Lemma push_failure_stops_the_pushes :
  map fst (compiled_resources first_run_linked) = [mkRef "ApiKey" "acme-key"; acme]
  /\ exists w' req,
       push_updates 6 (compiled_resources first_run_linked) first_run_unreachable
       = Some (Raise TransportError, w')
       /\ sent w' = [req]
       /\ url req = "https://policy.example/policies/thatone.ai/v1/ApiKey".
Proof.
  split; [vm_compute; reflexivity|].
  do 2 eexists. split; [vm_compute; reflexivity|].
  split; vm_compute; reflexivity.
Qed.

(** C5 (amended).  A push that returns, whether [True] or [False] (a
    refused or failed push), does not stop the loop: when every [apply]
    returns, the loop goes through all the compiled resources.  A push
    that raises ends the loop: the exception leaves the loop from the
    world that push reached, and the resources after it are not pushed. *)
Theorem push_updates_outcome :
  forall fuel before ref resource after w w1 e w2,
    pushes fuel before w w1 ->
    (forall w', pushes fuel after w1 w' ->
                push_updates fuel (before ++ after) w = Some (Ok tt, w'))
    /\ (apply fuel resource w1 = Some (Raise e, w2) ->
        push_updates fuel (before ++ (ref, resource) :: after) w = Some (Raise e, w2)).
Proof.
  intros fuel before ref resource after w w1 e w2 Hbefore.
  induction Hbefore as [w | ref0 r0 rest w b wa wb Happly _ IH].
  - split.
    + intros w' Hafter. simpl.
      induction Hafter as [w | ref0 r0 rest w b wa wb Happly _ IH]; [reflexivity|].
      simpl. unfold bind, attempt. rewrite Happly. exact IH.
    + intros Hraise. simpl. unfold bind, attempt. rewrite Hraise. reflexivity.
  - destruct IH as [IH1 IH2]. split.
    + intros w' Hafter. simpl. unfold bind, attempt. rewrite Happly. now apply IH1.
    + intros Hraise. simpl. unfold bind, attempt. rewrite Happly. now apply IH2.
Qed.

Lemma push_updates_outcome_witness :
  (exists w', pushes 6 (compiled_resources first_run_linked) first_run_rejected w'
              /\ push_updates 6 (compiled_resources first_run_linked) first_run_rejected
                 = Some (Ok tt, w'))
  /\ exists w2,
       apply 6 acme_key first_run_unreachable = Some (Raise TransportError, w2)
       /\ push_updates 6 ([] ++ (mkRef "ApiKey" "acme-key", acme_key)
                              :: [(acme, acme_client)]) first_run_unreachable
          = Some (Raise TransportError, w2).
Proof.
  split.
  - assert (P : exists w', pushes 6 (compiled_resources first_run_linked)
                                  first_run_rejected w').
    { eexists. change (compiled_resources first_run_linked)
        with [(mkRef "ApiKey" "acme-key", acme_key); (acme, acme_client)].
      eapply pushes_cons; [vm_compute; reflexivity|].
      eapply pushes_cons; [vm_compute; reflexivity|].
      apply pushes_nil. }
    destruct P as [w' P]. exists w'. split; [exact P|].
    destruct (push_updates_outcome 6 [] acme acme_client
                (compiled_resources first_run_linked)
                first_run_rejected first_run_rejected TransportError first_run_rejected
                (pushes_nil 6 first_run_rejected)) as [H _].
    exact (H w' P).
  - eexists. split.
    + vm_compute. reflexivity.
    + eapply (proj2 (push_updates_outcome 6 [] (mkRef "ApiKey" "acme-key") acme_key
                       [(acme, acme_client)] first_run_unreachable first_run_unreachable
                       TransportError _ (pushes_nil 6 first_run_unreachable))).
      vm_compute. reflexivity.
Defined.

(** ** Duplicate detection: examples *)

Example check_duplicates_acme_twice :
  check_duplicates acme_twice
  = ([((VStr "Client", VStr "acme"), ["a.yaml"; "b.yaml"])], Raise ValueError).
Proof. vm_compute. reflexivity. Qed.

Example check_duplicates_acme_twice_reversed :
  check_duplicates (rev acme_twice)
  = ([((VStr "Client", VStr "acme"), ["b.yaml"; "a.yaml"])], Raise ValueError).
Proof. vm_compute. reflexivity. Qed.

(** Two clients of one bundle named [1] and [true]: the dictionary takes
    the second key for the first, counts two and keeps the spelling [1]. *)
Example check_duplicates_true_is_one :
  check_duplicates [ ("a.yaml", 0, one_and_true_bundle) ]
  = ([((VStr "Client", VInt 1), ["a.yaml"])], Raise ValueError).
Proof. vm_compute. reflexivity. Qed.

Lemma check_duplicates_exhaustive_witness :
  let occs := [ ((VStr "Client", VStr "acme"), "a.yaml");
                ((VStr "Client", VStr "acme"), "b.yaml") ] in
  occurrences acme_twice = Ok occs
  /\ (snd (check_duplicates acme_twice) = Raise ValueError
      <-> exists key, 1 < occurrence_count key occs)
  /\ NoDup (map (fun r => canonical (fst r)) (fst (check_duplicates acme_twice))).
Proof.
  intros occs.
  assert (H : occurrences acme_twice = Ok occs) by (vm_compute; reflexivity).
  destruct (proj1 (check_duplicates_exhaustive acme_twice) occs H)
    as (_ & _ & HND & Hraise & _).
  split; [exact H|]. split; [exact Hraise | exact HND].
Defined.

(** C8 (as stated it fails).  A bundle with an unknown section: no key
    occurs more than once, yet the detector raises (the exception of
    [expand_keys]); and next to two files that declare the same client it
    makes the detector raise before anything is reported. *)
Lemma unknown_section_preempts_the_report :
  is_itl_resource widgets_bundle = Ok true
  /\ expand_keys widgets_bundle = Raise ValueError
  /\ check_duplicates [("c.yaml", 0, widgets_bundle)] = ([], Raise ValueError)
  /\ check_duplicates (acme_twice ++ [("c.yaml", 0, widgets_bundle)])%list
     = ([], Raise ValueError).
Proof.
  split; [vm_compute; reflexivity|]. split; [vm_compute; reflexivity|].
  split; vm_compute; reflexivity.
Qed.

(** ** The disk and the service during the pushes *)

Lemma put_with_key_inv u j k w x w' :
  put_with_key u j k w = Some (x, w') ->
  exists req,
    url req = u /\ json req = j
    /\ w' = mkWorld (indices w) (files w) (sent w ++ [req])%list (remote_service w)
    /\ x = match remote_service w (length (sent w)) req with
           | Response status => Ok status
           | TransportFailure => Raise TransportError
           end.
Proof.
  unfold put_with_key. intros H.
  match type of H with
  | context [remote_service w (length (sent w)) ?r] => exists r
  end.
  destruct (remote_service w (length (sent w)) _); injection H as <- <-;
    repeat split; reflexivity.
Qed.

Lemma appends_refl w : appends w w.
Proof. split; [reflexivity|]. split; [reflexivity|]. exists []. now rewrite app_nil_r. Qed.

Lemma appends_trans w1 w2 w3 : appends w1 w2 -> appends w2 w3 -> appends w1 w3.
Proof.
  intros (F1 & S1 & r1 & Q1) (F2 & S2 & r2 & Q2).
  split; [congruence|]. split; [congruence|].
  exists (r1 ++ r2)%list. now rewrite Q2, Q1, app_assoc.
Qed.

Lemma appends_on_store {A} (m : M store A) : preserves appends (on_store m).
Proof.
  intros w r w' H. apply on_store_inv in H as (s' & _ & ->). cbn.
  split; [reflexivity|]. split; [reflexivity|]. exists []. now rewrite app_nil_r.
Qed.

Lemma appends_put_with_key u j k : preserves appends (put_with_key u j k).
Proof.
  intros w r w' H. apply put_with_key_inv in H as (req & _ & _ & -> & _). cbn.
  split; [reflexivity|]. split; [reflexivity|]. now exists [req].
Qed.

Ltac appends_footprint :=
  repeat first
    [ apply (preserves_ret appends appends_refl)
    | apply (preserves_raise appends appends_refl)
    | apply (preserves_of_result appends appends_refl)
    | apply (preserves_gets appends appends_refl)
    | apply preserves_timeout
    | apply preserves_attempt
    | apply appends_put_with_key
    | apply appends_on_store
    | apply (preserves_bind appends appends_trans); [|intros ?]
    | match goal with
      | |- preserves _ (match ?x with _ => _ end) => destruct x
      | |- preserves _ (if ?x then _ else _) => destruct x
      end
    | assumption ].

Lemma appends_Resource_apply_keys fuel :
  forall self u spec g, preserves appends (Resource_apply_keys fuel self u spec g).
Proof.
  induction fuel as [|fuel IH]; intros self u spec g; simpl; [apply preserves_timeout|].
  unfold Resource_apply_put. appends_footprint. all: apply IH.
Qed.

Lemma appends_ApiKey_apply_keys fuel :
  forall self g, preserves appends (ApiKey_apply_keys fuel self g).
Proof.
  induction fuel as [|fuel IH]; intros self g; simpl; [apply preserves_timeout|].
  unfold ApiKey_attach_to_client. appends_footprint. all: apply IH.
Qed.

Lemma appends_apply fuel resource : preserves appends (apply fuel resource).
Proof.
  unfold apply, ApiKey_apply, Resource_apply, ApiKey_attach_to_client.
  destruct (String.eqb (kind resource) "ApiKey"); appends_footprint.
  all: first [ apply appends_ApiKey_apply_keys | apply appends_Resource_apply_keys ].
Qed.

Lemma appends_push_updates fuel resources : preserves appends (push_updates fuel resources).
Proof.
  induction resources as [|[ref r] rest IH]; simpl; appends_footprint.
  all: apply appends_apply.
Qed.

(** ** The apply run *)

Lemma prepare_phases compile_config fuel fs new_configs prior_configs rp sp s updated s' :
  prepare compile_config fuel fs new_configs prior_configs rp sp s = Some (Ok updated, s') ->
  snd (check_duplicates new_configs) = Ok tt
  /\ snd (check_duplicates prior_configs) = Ok tt
  /\ exists s1 s2,
       map_config_locations compile_config prior_configs s = Some (Ok tt, s1)
       /\ compile_configs compile_config new_configs s1 = Some (Ok tt, s2)
       /\ link_resources fuel fs prior_configs rp sp s2 = Some (Ok updated, s').
Proof.
  unfold prepare. intros H.
  apply bind_Ok_inv in H as ([] & s0 & H1 & H). apply of_result_inv in H1 as [H1 ->].
  apply bind_Ok_inv in H as ([] & s0 & H2 & H). apply of_result_inv in H2 as [H2 ->].
  apply bind_Ok_inv in H as ([] & s1 & H3 & H).
  apply bind_Ok_inv in H as ([] & s2 & H4 & H).
  split; [now symmetry|]. split; [now symmetry|]. now exists s1, s2.
Qed.

Lemma apply_unregistered_parent fuel self i w :
  String.eqb (kind self) "ApiKey" = false ->
  String.eqb (kind self) "Client" = false ->
  parent_ref_or_id self = Some (ParentId i) ->
  dict_get ResourceId_eq_dec (id_to_reference (indices w)) i = None ->
  apply (S fuel) self w = Some (Raise KeyError, w).
Proof.
  intros Hk Hc Hp Hi. unfold apply. rewrite Hk.
  unfold Resource_apply, bind, on_store. cbn [apikeys_for_resource]. rewrite Hc.
  unfold bind, Resource_parent. rewrite Hp, Hi. now destruct w.
Qed.

(** C4 (amended).  Write atomicity of the apply run, as far as the [try]
    block goes.  Whatever exception one of its phases raises (a
    [ValueError] for a schema error, a duplicate, a namespace that cannot
    be resolved or a reconciliation conflict, or any other exception), the
    run ends with the files on disk and the requests sent exactly as they
    were; and a run that changed a file or sent a request went through
    both duplicate checks, the locate pass, compilation and the merge
    pass, all successful.  Once they have succeeded the files are written
    whatever the pushes do; and the push of a resource that is neither a
    Client nor an ApiKey and whose parent is an identifier that no
    resource has registered raises [KeyError]: this unresolved reference
    is met after the write. *)
Theorem apply_writes_after_validation :
  forall compile_config fuel new_configs prior_configs resources_path secrets_path w,
    (forall e s',
        prepare compile_config fuel (files w) new_configs prior_configs
                resources_path secrets_path (indices w) = Some (Raise e, s') ->
        Commander_apply compile_config fuel new_configs prior_configs
                        resources_path secrets_path w
        = Some (match e with ValueError => Ok tt | _ => Raise e end,
                mkWorld s' (files w) (sent w) (remote_service w)))
    /\ (forall r w',
           Commander_apply compile_config fuel new_configs prior_configs
                           resources_path secrets_path w = Some (r, w') ->
           files w' <> files w \/ sent w' <> sent w ->
           snd (check_duplicates new_configs) = Ok tt
           /\ snd (check_duplicates prior_configs) = Ok tt
           /\ exists s1 s2 updated s3,
                map_config_locations compile_config prior_configs (indices w)
                = Some (Ok tt, s1)
                /\ compile_configs compile_config new_configs s1 = Some (Ok tt, s2)
                /\ link_resources fuel (files w) prior_configs resources_path secrets_path s2
                   = Some (Ok updated, s3))
    /\ (forall updated s' r w',
           prepare compile_config fuel (files w) new_configs prior_configs
                   resources_path secrets_path (indices w) = Some (Ok updated, s') ->
           Commander_apply compile_config fuel new_configs prior_configs
                           resources_path secrets_path w = Some (r, w') ->
           files w' = written updated (files w)
           /\ push_updates fuel (compiled_resources s')
                (mkWorld s' (written updated (files w)) (sent w) (remote_service w))
              = Some (r, w'))
    /\ (forall fuel' self i w0,
           String.eqb (kind self) "ApiKey" = false ->
           String.eqb (kind self) "Client" = false ->
           parent_ref_or_id self = Some (ParentId i) ->
           dict_get ResourceId_eq_dec (id_to_reference (indices w0)) i = None ->
           forall ref rest,
             push_updates (S fuel') ((ref, self) :: rest) w0 = Some (Raise KeyError, w0)).
Proof.
  intros cc fuel new prior rp sp w. split; [|split; [|split]].
  - intros e s' H. unfold Commander_apply, bind, gets, attempt, on_store.
    rewrite H. destruct e; reflexivity.
  - intros r w' H Hchanged.
    unfold Commander_apply, bind, gets, attempt, on_store in H.
    destruct (prepare cc fuel (files w) new prior rp sp (indices w))
      as [[[updated|e] s']|] eqn:E; [| |discriminate].
    + destruct (prepare_phases cc fuel (files w) new prior rp sp (indices w) updated s' E)
        as (H1 & H2 & s1 & s2 & H3 & H4 & H5).
      split; [exact H1|]. split; [exact H2|]. now exists s1, s2, updated, s'.
    + exfalso.
      assert (Hsame : files w' = files w /\ sent w' = sent w)
        by (destruct e; injection H as _ <-; split; reflexivity).
      destruct Hsame, Hchanged; congruence.
  - intros updated s' r w' Hp H.
    unfold Commander_apply, bind, gets, attempt, on_store in H. rewrite Hp in H.
    unfold save_files in H. cbn [indices files sent remote_service] in H.
    fold (written updated (files w)) in H. split; [|exact H].
    apply appends_push_updates in H as (Hf & _). exact Hf.
  - intros fuel' self i w0 Hk Hc Hp Hi ref rest. cbn [push_updates].
    unfold bind, attempt.
    now rewrite (apply_unregistered_parent fuel' self i w0 Hk Hc Hp Hi).
Qed.

Lemma apply_writes_after_validation_witness :
  let w := mkWorld fresh_store occupied_disk [] (always 200) in
  prepare reject_all 3 (files w) acme_twice [] "resources" "secrets" (indices w)
  = Some (Raise ValueError, fresh_store)
  /\ Commander_apply reject_all 3 acme_twice [] "resources" "secrets" w = Some (Ok tt, w).
Proof.
  intros w.
  assert (H : prepare reject_all 3 (files w) acme_twice [] "resources" "secrets" (indices w)
              = Some (Raise ValueError, fresh_store)) by (vm_compute; reflexivity).
  split; [exact H|].
  exact (proj1 (apply_writes_after_validation reject_all 3 acme_twice [] "resources"
                  "secrets" w) ValueError fresh_store H).
Defined.

(** C4 (as stated it fails).  A standalone Loop that declares its own
    namespace and an owner identifier that no resource has: every phase
    of the [try] block succeeds, the file of the loop is written, and
    only then the push raises [KeyError], with nothing sent. *)
Lemma unknown_owner_is_found_after_the_write :
  let w := mkWorld fresh_store [] [] (always 200) in
  exists updated s' w',
    prepare compile_standalone_loop 3 (files w) standalone_loop_configs []
            "resources" "secrets" (indices w) = Some (Ok updated, s')
    /\ Commander_apply compile_standalone_loop 3 standalone_loop_configs []
                       "resources" "secrets" w = Some (Raise KeyError, w')
    /\ files w' = [ ("resources/Loop/l1.yaml", [VDict standalone_loop_document]) ]
    /\ files w' <> files w
    /\ sent w' = [].
Proof.
  intros w. do 3 eexists.
  split; [vm_compute; reflexivity|]. split; [vm_compute; reflexivity|].
  split; [vm_compute; reflexivity|]. split; [|vm_compute; reflexivity].
  vm_compute. discriminate.
Qed.

(** Each kind of structural error makes the [try] block raise. *)
Lemma prepare_raises compile_config fuel fs new_configs prior_configs rp sp s :
  (forall e, snd (check_duplicates new_configs) = Raise e ->
             prepare compile_config fuel fs new_configs prior_configs rp sp s
             = Some (Raise e, s))
  /\ (forall e, snd (check_duplicates new_configs) = Ok tt ->
                snd (check_duplicates prior_configs) = Raise e ->
                prepare compile_config fuel fs new_configs prior_configs rp sp s
                = Some (Raise e, s))
  /\ (forall e s1, snd (check_duplicates new_configs) = Ok tt ->
                   snd (check_duplicates prior_configs) = Ok tt ->
                   map_config_locations compile_config prior_configs s = Some (Raise e, s1) ->
                   prepare compile_config fuel fs new_configs prior_configs rp sp s
                   = Some (Raise e, s1))
  /\ (forall e s1 s2, snd (check_duplicates new_configs) = Ok tt ->
                      snd (check_duplicates prior_configs) = Ok tt ->
                      map_config_locations compile_config prior_configs s = Some (Ok tt, s1) ->
                      compile_configs compile_config new_configs s1 = Some (Raise e, s2) ->
                      prepare compile_config fuel fs new_configs prior_configs rp sp s
                      = Some (Raise e, s2))
  /\ (forall e s1 s2 s3, snd (check_duplicates new_configs) = Ok tt ->
                         snd (check_duplicates prior_configs) = Ok tt ->
                         map_config_locations compile_config prior_configs s = Some (Ok tt, s1) ->
                         compile_configs compile_config new_configs s1 = Some (Ok tt, s2) ->
                         link_resources fuel fs prior_configs rp sp s2 = Some (Raise e, s3) ->
                         prepare compile_config fuel fs new_configs prior_configs rp sp s
                         = Some (Raise e, s3)).
Proof.
  unfold prepare, bind, of_result.
  repeat split; intros;
    repeat match goal with H : _ = _ |- _ => rewrite H; clear H end; reflexivity.
Qed.

(** * Further properties of the code *)

(** ** Random identifiers *)

Lemma hex_digit_lowercase n : lowercase_hex (hex_digit n) = true.
Proof. do 16 (destruct n as [|n]; [reflexivity|]). reflexivity. Qed.

Lemma concat_cons_empty (x : string) (xs : list string) :
  String.concat "" (x :: xs) = x ++ String.concat "" xs.
Proof.
  destruct xs as [|y ys]; simpl; [|reflexivity].
  induction x as [|c x IH]; simpl; [reflexivity | now rewrite <- IH].
Qed.

Lemma concat_format_cons b l :
  String.concat "" (map format_02x (b :: l))
  = String (hex_digit (Byte.to_nat b / 16))
           (String (hex_digit (Byte.to_nat b mod 16))
                   (String.concat "" (map format_02x l))).
Proof. change (map format_02x (b :: l)) with (format_02x b :: map format_02x l).
       rewrite concat_cons_empty. reflexivity. Qed.

Lemma concat_format_shape l :
  String.length (String.concat "" (map format_02x l)) = 2 * length l
  /\ Forall (fun c => lowercase_hex c = true)
            (list_ascii_of_string (String.concat "" (map format_02x l))).
Proof.
  induction l as [|b l [IHlen IHhex]]; [split; [reflexivity | constructor]|].
  rewrite concat_format_cons. split.
  - cbn [String.length length]. rewrite IHlen. simpl. lia.
  - cbn [list_ascii_of_string].
    constructor; [apply hex_digit_lowercase|].
    constructor; [apply hex_digit_lowercase | exact IHhex].
Qed.

(** X1.  [random_id] returns exactly forty lowercase hexadecimal digits,
    whatever bytes the operating system supplies, and consumes one call
    of [os.urandom]. *)
Theorem random_id_is_forty_hex_digits :
  forall s,
    String.length (fst (random_id s)) = 40
    /\ Forall (fun c => lowercase_hex c = true) (list_ascii_of_string (fst (random_id s)))
    /\ urandom_calls (snd (random_id s)) = S (urandom_calls s).
Proof.
  intros s. unfold random_id. cbn [fst snd urandom_calls].
  destruct (concat_format_shape (map (os_urandom s (urandom_calls s)) (seq 0 20)))
    as [Hlen Hhex].
  rewrite length_map, length_seq in Hlen.
  split; [exact Hlen | split; [exact Hhex | reflexivity]].
Qed.

Lemma parse_format_02x b : parse_02x (format_02x b) = Some b.
Proof. destruct b; vm_compute; reflexivity. Qed.

Lemma format_02x_two_digits b :
  exists c1 c2, format_02x b = String c1 (String c2 "").
Proof. unfold format_02x. cbv zeta. eauto. Qed.

Lemma concat_format_injective l1 :
  forall l2,
    length l1 = length l2 ->
    String.concat "" (map format_02x l1) = String.concat "" (map format_02x l2) ->
    l1 = l2.
Proof.
  induction l1 as [|b1 l1 IH]; intros [|b2 l2] Hlen H; try discriminate; [reflexivity|].
  change (map format_02x (b1 :: l1)) with (format_02x b1 :: map format_02x l1) in H.
  change (map format_02x (b2 :: l2)) with (format_02x b2 :: map format_02x l2) in H.
  rewrite !concat_cons_empty in H.
  pose proof (parse_format_02x b1) as P1. pose proof (parse_format_02x b2) as P2.
  destruct (format_02x_two_digits b1) as (c1 & c2 & E1).
  destruct (format_02x_two_digits b2) as (d1 & d2 & E2).
  rewrite E1 in H, P1. rewrite E2 in H, P2.
  cbn [append] in H. injection H as H1 H2 H3. subst d1 d2.
  rewrite P1 in P2. injection P2 as ->.
  f_equal. apply IH; [now injection Hlen | exact H3].
Qed.

(** X2.  The formatting of [random_id] loses nothing: two identifiers are
    equal only if all twenty random bytes behind them are equal. *)
Theorem random_id_keeps_the_entropy :
  forall s1 s2,
    fst (random_id s1) = fst (random_id s2) ->
    forall k, k < 20 ->
      os_urandom s1 (urandom_calls s1) k = os_urandom s2 (urandom_calls s2) k.
Proof.
  intros s1 s2 H k Hk. unfold random_id in H. cbn [fst] in H.
  apply concat_format_injective in H; [|now rewrite !length_map].
  assert (Hall : forall a, In a (seq 0 20) ->
                           os_urandom s1 (urandom_calls s1) a
                           = os_urandom s2 (urandom_calls s2) a)
    by (apply map_ext_in_iff; exact H).
  apply Hall, in_seq. lia.
Qed.

Lemma random_id_keeps_the_entropy_witness :
  fst (random_id first_run) = fst (random_id second_run)
  /\ os_urandom first_run (urandom_calls first_run) 7
     = os_urandom second_run (urandom_calls second_run) 7.
Proof.
  assert (H : fst (random_id first_run) = fst (random_id second_run)) by reflexivity.
  split; [exact H|].
  apply (random_id_keeps_the_entropy first_run second_run H 7). lia.
Defined.

(** ** Registration of identifiers *)

(** X3.  [DeferredId.link] registers the identifier it returns (a value
    that can be hashed, as every string is): afterwards [id_to_reference]
    maps it to the reference of the placeholder, so that a parent given as
    this identifier is the resource the reference denotes.
    [ApiKeyId.link] registers nothing. *)
Theorem DeferredId_link_registers :
  (forall ck s r s',
      DeferredId_link ck s = (Ok r, s') ->
      py_hashable r = true ->
      dict_get ResourceId_eq_dec (id_to_reference s') (mkId (ref_kind (reference ck)) r)
      = Some (reference ck)
      /\ forall res,
           parent_ref_or_id res = Some (ParentId (mkId (ref_kind (reference ck)) r)) ->
           Resource_parent s' res = Ok (get_resource_by_reference s' (reference ck)))
  /\ (forall ck s, id_to_reference (snd (ApiKeyId_link ck s)) = id_to_reference s).
Proof.
  split.
  - intros ck s r s' H _. unfold DeferredId_link in H.
    destruct (get_generated_id ck (ref_name (reference ck) ++ "-") s) as [[x|e] s1];
      [|discriminate].
    injection H as <- <-.
    assert (E : dict_get ResourceId_eq_dec
                  (id_to_reference
                     (set_id_to_reference s1
                        (dict_set ResourceId_eq_dec (id_to_reference s1)
                                  (mkId (ref_kind (reference ck)) x) (reference ck))))
                  (mkId (ref_kind (reference ck)) x) = Some (reference ck))
      by (simpl; apply dict_get_set_same).
    split; [exact E|].
    intros res Hres. unfold Resource_parent. rewrite Hres, E. reflexivity.
  - intros ck s. unfold ApiKeyId_link. rewrite get_generated_id_recorded.
    destruct (recorded_id ck s); reflexivity.
Qed.

Lemma DeferredId_link_registers_witness :
  exists r s',
    DeferredId_link (mkKey acme "clientId") first_run = (Ok r, s')
    /\ dict_get ResourceId_eq_dec (id_to_reference s') (mkId "Client" r) = Some acme.
Proof.
  do 2 eexists.
  assert (H : DeferredId_link (mkKey acme "clientId") first_run = (Ok _, _))
    by (vm_compute; reflexivity).
  split; [exact H|].
  exact (proj1 (proj1 DeferredId_link_registers (mkKey acme "clientId") first_run _ _ H
                      eq_refl)).
Defined.

(** ** Materialization *)

Lemma link_VList fuel l :
  link fuel (VList l) = (l' <- link_list fuel l ;; ret (VList l')).
Proof. reflexivity. Qed.

Lemma link_VDict fuel d :
  link fuel (VDict d) = (d' <- link_items fuel d ;; ret (VDict d')).
Proof. reflexivity. Qed.

(** X4.  Materializing a value that holds no deferred placeholder returns
    the value itself and leaves the indices untouched, at any fuel: a
    persisted document goes through [link] unchanged. *)
Theorem link_literal_is_identity :
  forall fuel v s, literal v = true -> link fuel v s = Some (Ok v, s).
Proof.
  intros fuel v.
  induction v as [| b | z | str | l IHl | d IHd | ck | ck | ref remote _]
    using value_nested_ind; intros s Hlit; try reflexivity; try discriminate.
  - rewrite link_VList. unfold bind.
    assert (E : forall s, link_list fuel l s = Some (Ok l, s)).
    { simpl in Hlit. clear s.
      induction IHl as [|x xs Hx _ IHxs]; intros s; [reflexivity|].
      simpl in Hlit. apply andb_prop in Hlit as [Hx' Hxs'].
      simpl. unfold bind. rewrite (Hx s Hx').
      fold (link_list fuel). rewrite (IHxs Hxs' s). reflexivity. }
    rewrite E. reflexivity.
  - rewrite link_VDict. unfold bind.
    assert (E : forall s, link_items fuel d s = Some (Ok d, s)).
    { simpl in Hlit. clear s.
      induction IHd as [|[k x] xs Hx _ IHxs]; intros s; [reflexivity|].
      simpl in Hlit. apply andb_prop in Hlit as [Hx' Hxs'].
      simpl. unfold bind. simpl in Hx. rewrite (Hx s Hx').
      fold (link_items fuel). rewrite (IHxs Hxs' s). reflexivity. }
    rewrite E. reflexivity.
Qed.

Lemma link_literal_is_identity_witness :
  let doc := VDict (client_document "acme" "https://policy.example" acme_id) in
  literal doc = true /\ link 0 doc second_run = Some (Ok doc, second_run).
Proof.
  intros doc. assert (H : literal doc = true) by reflexivity.
  split; [exact H | exact (link_literal_is_identity 0 doc second_run H)].
Defined.

(** X5.  Whatever [Resource.link] returns has exactly the four keys
    [apiVersion], [kind], [metadata], [spec], in this order, and its spec
    is a dict none of whose values is false, empty or [None]. *)
Theorem Resource_link_spec_is_minimal :
  forall fuel r s doc s',
    Resource_link fuel r s = Some (Ok doc, s') ->
    exists apiVersion knd metadata items,
      doc = [ (KStr "apiVersion", apiVersion); (KStr "kind", knd);
              (KStr "metadata", metadata); (KStr "spec", VDict items) ]
      /\ Forall (fun kv => truthy (snd kv) = true) items.
Proof.
  intros fuel r s doc s' H. unfold Resource_link in H.
  apply bind_Ok_inv in H as (compiled & s1 & _ & H).
  destruct compiled; try discriminate.
  apply bind_Ok_inv in H as (a & s2 & _ & H).
  apply bind_Ok_inv in H as (k & s3 & _ & H).
  apply bind_Ok_inv in H as (m & s4 & _ & H).
  apply bind_Ok_inv in H as (spec & s5 & _ & H).
  destruct spec; try discriminate.
  injection H as <- _.
  exists a, k, m, (filter (fun xy => truthy (snd xy)) d0). split; [reflexivity|].
  apply Forall_forall. intros kv Hin. now apply filter_In in Hin.
Qed.

Lemma Resource_link_spec_is_minimal_witness :
  exists doc s' items,
    Resource_link 3 acme_client first_run = Some (Ok doc, s')
    /\ py_getitem doc "spec" = Ok (VDict items)
    /\ Forall (fun kv => truthy (snd kv) = true) items.
Proof.
  assert (H : exists doc s', Resource_link 3 acme_client first_run = Some (Ok doc, s'))
    by (do 2 eexists; vm_compute; reflexivity).
  destruct H as (doc & s' & H).
  destruct (Resource_link_spec_is_minimal 3 acme_client first_run doc s' H)
    as (a & k & m & items & -> & Hall).
  eexists. exists s', items. split; [exact H|]. split; [reflexivity | exact Hall].
Defined.

(** ** Storage paths *)

(** X6.  [create_resource_path] ends within two iterations on every
    input, and a path it returns is free on disk and is the unsuffixed
    [folder/kind/name.yaml]. *)
Theorem create_resource_path_returns_free_path :
  forall fuel fs folder config,
    exists r,
      create_resource_path (S (S fuel)) fs folder config = Some r
      /\ forall p,
           r = Ok p ->
           os_path_exists fs p = false
           /\ exists k metadata n,
                py_getitem config "kind" = Ok (VStr k)
                /\ py_getitem config "metadata" = Ok metadata
                /\ py_index metadata "name" = Ok (VStr n)
                /\ p = os_path_join folder [k; n] ++ ".yaml".
Proof.
  intros fuel fs folder config. unfold create_resource_path.
  destruct (py_getitem config "kind") as [k|e];
    [|exists (Raise e); split; [reflexivity | discriminate]].
  destruct (py_getitem config "metadata") as [metadata|e];
    [|exists (Raise e); split; [reflexivity | discriminate]].
  destruct (py_index metadata "name") as [n|e] eqn:En;
    [|exists (Raise e); split; [reflexivity | discriminate]].
  destruct k as [| | |k| | | | |];
    try (exists (Raise TypeError); split; [reflexivity | discriminate]).
  destruct n as [| | |n| | | | |];
    try (exists (Raise TypeError); split; [reflexivity | discriminate]).
  cbn [as_path_component]. rewrite create_resource_path_loop_outcome.
  change (os_path_join folder [k; n] ++ "" ++ ".yaml")
    with (os_path_join folder [k; n] ++ ".yaml").
  destruct (os_path_exists fs (os_path_join folder [k; n] ++ ".yaml")) eqn:E.
  - exists (Raise TypeError). split; [reflexivity | discriminate].
  - exists (Ok (os_path_join folder [k; n] ++ ".yaml")).
    split; [reflexivity|]. intros p Hp. injection Hp as <-.
    split; [exact E|]. exists k, metadata, n.
    split; [reflexivity|]. split; [reflexivity|]. split; [exact En | reflexivity].
Qed.

(** ** Reading the documents *)

Lemma examine_config_Yielded config :
  examine_config config = Ok Yielded -> checked_document config.
Proof.
  unfold examine_config, checked_document.
  destruct (py_contains "apiVersion" config) as [[|]|] eqn:Ca; try discriminate.
  destruct (py_index config "apiVersion") as [av|] eqn:Ia; try discriminate.
  destruct av as [| | |av| | | | |]; cbn [is_str negb]; try discriminate.
  destruct (matches_group_version av); cbn [negb]; try discriminate.
  destruct (py_contains "kind" config) as [[|]|] eqn:Ck; try discriminate.
  destruct (py_index config "kind") as [k|] eqn:Ik; try discriminate.
  destruct k as [| | |k| | | | |]; cbn [is_str negb]; try discriminate.
  destruct (py_contains "metadata" config) as [[|]|] eqn:Cm; try discriminate.
  destruct (py_index config "metadata") as [m|] eqn:Im; try discriminate.
  destruct m as [| | | | |m| | |]; cbn [is_dict negb]; try discriminate.
  destruct (py_contains "name" (VDict m)) as [[|]|] eqn:Cn; try discriminate.
  destruct (py_index (VDict m) "name") as [n|] eqn:In_; try discriminate.
  destruct n as [| | |n| | | | |]; cbn [is_str negb]; try discriminate.
  destruct (value_eq_dec (VStr av) (VStr "thatone.ai/v1")) as [Eav|]; try discriminate.
  destruct (dict_mem string_dec CONFIG_PRIORITY k) eqn:Mem; try discriminate.
  intros _. split; [|split].
  - unfold is_itl_resource. rewrite Ca, Ck, Ia.
    destruct (value_eq_dec (VStr av) (VStr "thatone.ai/v1")); [|contradiction].
    rewrite Ik, Mem. reflexivity.
  - unfold config_priority. rewrite Ik. unfold dict_mem in Mem.
    destruct (dict_get string_dec CONFIG_PRIORITY k) as [p|]; [|discriminate].
    now exists p.
  - exists m, n. split; [reflexivity | exact In_].
Qed.

(** X7.  Without [read_fully], every pair the reader yields is a document
    of the file with its ordinal in the file, in increasing order of
    ordinals; the document passes [is_itl_resource], has a kind that
    [config_priority] knows, and a [metadata] dict whose [name] is a
    string.  A document is yielded or counted as skipped at most once. *)
Theorem reader_yields_checked_documents :
  forall configs i ys a k,
    read_resource_configs false i configs = Ok (ys, a, k) ->
    Forall (fun y => i <= fst y
                     /\ nth_error configs (fst y - i) = Some (snd y)
                     /\ checked_document (snd y)) ys
    /\ StronglySorted lt (map fst ys)
    /\ length ys + a + k <= length configs.
Proof.
  induction configs as [|config rest IH]; intros i ys a k H.
  - injection H as <- <- <-. split; [constructor | split; [constructor | simpl; lia]].
  - cbn [read_resource_configs] in H.
    destruct (examine_config config) as [v|e] eqn:Ex; [|discriminate].
    destruct (read_resource_configs false (S i) rest) as [[[ys' a'] k']|e] eqn:Er;
      [|discriminate].
    destruct (IH (S i) ys' a' k' Er) as (Hall & Hsorted & Hlen).
    assert (Hshift : Forall (fun y => i <= fst y
                                      /\ nth_error (config :: rest) (fst y - i) = Some (snd y)
                                      /\ checked_document (snd y)) ys').
    { eapply Forall_impl; [|exact Hall]. intros y (Hi & Hn & Hc).
      split; [lia | split; [|exact Hc]].
      replace (fst y - i) with (S (fst y - S i)) by lia. exact Hn. }
    destruct v; injection H as <- <- <-; cbn [length].
    + split; [|split; [|lia]].
      * constructor; [|exact Hshift]. cbn [fst snd].
        split; [lia | split; [|now apply examine_config_Yielded]].
        now rewrite Nat.sub_diag.
      * cbn [map fst]. constructor; [exact Hsorted|].
        apply Forall_map. eapply Forall_impl; [|exact Hall].
        intros y (Hi & _). lia.
    + split; [exact Hshift | split; [exact Hsorted | lia]].
    + split; [exact Hshift | split; [exact Hsorted | lia]].
    + split; [exact Hshift | split; [exact Hsorted | lia]].
Qed.

Lemma reader_yields_checked_documents_witness :
  read_resource_configs false 0 [VDict []; acme_bundle] = Ok ([(1, acme_bundle)], 0, 0)
  /\ checked_document acme_bundle.
Proof.
  assert (H : read_resource_configs false 0 [VDict []; acme_bundle]
              = Ok ([(1, acme_bundle)], 0, 0)) by (vm_compute; reflexivity).
  split; [exact H|].
  pose proof (proj1 (reader_yields_checked_documents _ _ _ _ _ H)) as Hall.
  inversion Hall as [|y l Hy _]. exact (proj2 (proj2 Hy)).
Defined.

(** ** Ordering the documents *)

Lemma priorities_spec configs :
  forall keyed,
    priorities configs = Ok keyed ->
    map snd keyed = configs
    /\ Forall (fun kc => fst kc = priority_of (snd kc)) keyed.
Proof.
  induction configs as [|c rest IH]; intros keyed H.
  - injection H as <-. split; [reflexivity | constructor].
  - cbn [priorities] in H.
    destruct (config_priority (snd c)) as [n|e] eqn:En; [|discriminate].
    destruct (priorities rest) as [l|e]; [|discriminate].
    injection H as <-. destruct (IH l eq_refl) as [Hmap Hall].
    split; [cbn [map snd]; now rewrite Hmap|].
    constructor; [|exact Hall]. cbn [fst snd]. unfold priority_of. now rewrite En.
Qed.

Lemma priorities_total configs :
  (forall c, In c configs -> exists n, config_priority (snd c) = Ok n) ->
  exists keyed, priorities configs = Ok keyed.
Proof.
  induction configs as [|c rest IH]; intros H; [now exists []|].
  destruct (H c (or_introl eq_refl)) as [n En].
  destruct IH as [l El]; [intros c' Hc'; apply H; now right|].
  exists ((n, c) :: l). cbn [priorities]. now rewrite En, El.
Qed.

Lemma priorities_raise configs c e :
  In c configs -> config_priority (snd c) = Raise e ->
  exists e', priorities configs = Raise e'.
Proof.
  induction configs as [|c0 rest IH]; intros Hin He; [contradiction|].
  cbn [priorities]. destruct (config_priority (snd c0)) as [n|e0] eqn:En; [|now exists e0].
  destruct Hin as [->|Hin]; [congruence|].
  destruct (IH Hin He) as [e' ->]. now exists e'.
Qed.

Lemma insert_by_priority_Permutation x l :
  Permutation (x :: l) (insert_by_priority x l).
Proof.
  induction l as [|y l IH]; simpl; [apply Permutation_refl|].
  destruct (Nat.leb (fst x) (fst y)); [apply Permutation_refl|].
  eapply Permutation_trans; [apply perm_swap | now apply perm_skip].
Qed.

Lemma insert_by_priority_sorted x l :
  StronglySorted (fun a b => fst a <= fst b) l ->
  StronglySorted (fun a b => fst a <= fst b) (insert_by_priority x l).
Proof.
  induction l as [|y l IH]; intros Hs; simpl; [repeat constructor|].
  apply StronglySorted_inv in Hs as [Hs Hy].
  destruct (Nat.leb (fst x) (fst y)) eqn:E.
  - apply Nat.leb_le in E. constructor; [now constructor|].
    constructor; [exact E|]. eapply Forall_impl; [|exact Hy]. intros a Ha. simpl in Ha. lia.
  - apply Nat.leb_gt in E. constructor; [now apply IH|].
    eapply Permutation_Forall; [apply insert_by_priority_Permutation|].
    constructor; [lia | exact Hy].
Qed.

Lemma insert_by_priority_filter p x l :
  filter (fun kc => Nat.eqb (fst kc) p) (insert_by_priority x l)
  = filter (fun kc => Nat.eqb (fst kc) p) (x :: l).
Proof.
  induction l as [|y l IH]; [reflexivity|].
  cbn [insert_by_priority]. destruct (Nat.leb (fst x) (fst y)) eqn:E; [reflexivity|].
  apply Nat.leb_gt in E. cbn [filter] in *. rewrite IH.
  destruct (Nat.eqb (fst x) p) eqn:Ex; destruct (Nat.eqb (fst y) p) eqn:Ey;
    try reflexivity.
  apply Nat.eqb_eq in Ex, Ey. lia.
Qed.

Lemma insertion_sort_facts keyed :
  Permutation keyed (fold_right insert_by_priority [] keyed)
  /\ StronglySorted (fun a b => fst a <= fst b) (fold_right insert_by_priority [] keyed)
  /\ forall p, filter (fun kc => Nat.eqb (fst kc) p) (fold_right insert_by_priority [] keyed)
               = filter (fun kc => Nat.eqb (fst kc) p) keyed.
Proof.
  induction keyed as [|x l (Hp & Hs & Hf)]; [split; [constructor | split; [constructor | reflexivity]]|].
  cbn [fold_right]. split; [|split].
  - eapply Permutation_trans; [|apply insert_by_priority_Permutation]. now apply perm_skip.
  - now apply insert_by_priority_sorted.
  - intros p. rewrite insert_by_priority_filter. cbn [filter]. now rewrite Hf.
Qed.

Lemma keyed_sorted l :
  Forall (fun kc : nat * located_config => fst kc = priority_of (snd kc)) l ->
  StronglySorted (fun a b => fst a <= fst b) l ->
  StronglySorted (fun c1 c2 => priority_of c1 <= priority_of c2) (map snd l).
Proof.
  induction l as [|x l IH]; intros Hk Hs; [constructor|].
  inversion Hk as [|? ? Hx Hl]; subst.
  apply StronglySorted_inv in Hs as [Hs Hall].
  cbn [map]. constructor; [now apply IH|].
  apply Forall_map. rewrite Forall_forall in *. intros y Hy.
  rewrite <- Hx, <- (Hl y Hy). now apply Hall.
Qed.

Lemma keyed_filter p l :
  Forall (fun kc : nat * located_config => fst kc = priority_of (snd kc)) l ->
  filter (fun c => Nat.eqb (priority_of c) p) (map snd l)
  = map snd (filter (fun kc => Nat.eqb (fst kc) p) l).
Proof.
  induction l as [|x l IH]; intros Hk; [reflexivity|].
  inversion Hk as [|? ? Hx Hl]; subst. cbn [map filter]. rewrite <- Hx, (IH Hl).
  now destruct (Nat.eqb (fst x) p).
Qed.

(** X8.  The sort of [Commander.apply]: when every document has a kind of
    [CONFIG_PRIORITY], the documents come back as a permutation in
    non-decreasing priority (bundles, then ApiKeys, Clients, Groups, Loops,
    Streams and Clusters), and documents of one priority keep the order in
    which they were read.  One document without such a kind makes the sort
    raise, whatever the others are. *)
Theorem sorted_configs_is_a_stable_sort :
  (forall configs,
      (forall c, In c configs -> exists n, config_priority (snd c) = Ok n) ->
      exists l,
        sorted_configs configs = Ok l
        /\ Permutation configs l
        /\ StronglySorted (fun c1 c2 => priority_of c1 <= priority_of c2) l
        /\ forall p, filter (fun c => Nat.eqb (priority_of c) p) l
                     = filter (fun c => Nat.eqb (priority_of c) p) configs)
  /\ (forall configs c e,
         In c configs -> config_priority (snd c) = Raise e ->
         exists e', sorted_configs configs = Raise e').
Proof.
  split.
  - intros configs Hall. destruct (priorities_total configs Hall) as [keyed Hk].
    destruct (priorities_spec configs keyed Hk) as [Hmap Hkeys].
    destruct (insertion_sort_facts keyed) as (Hp & Hs & Hf).
    assert (Hkeys' : Forall (fun kc => fst kc = priority_of (snd kc))
                            (fold_right insert_by_priority [] keyed))
      by (eapply Permutation_Forall; [exact Hp | exact Hkeys]).
    exists (map snd (fold_right insert_by_priority [] keyed)).
    unfold sorted_configs. rewrite Hk. split; [reflexivity|]. split; [|split].
    + rewrite <- Hmap. now apply Permutation_map.
    + now apply keyed_sorted.
    + intros p. rewrite (keyed_filter p _ Hkeys'), Hf, <- (keyed_filter p _ Hkeys).
      now rewrite Hmap.
  - intros configs c e Hin He. unfold sorted_configs.
    destruct (priorities_raise configs c e Hin He) as [e' ->]. now exists e'.
Qed.

Lemma sorted_configs_is_a_stable_sort_witness :
  exists l, sorted_configs acme_twice = Ok l /\ Permutation acme_twice l.
Proof.
  destruct (proj1 sorted_configs_is_a_stable_sort acme_twice) as (l & Hl & Hp & _).
  - intros c [<-|[<-|[]]]; eexists; vm_compute; reflexivity.
  - exists l. split; [exact Hl | exact Hp].
Defined.

(** ** Validation of keys *)

(** X9.  [validate_keys] accepts a dict exactly when every required key
    has a value in it and every key of it is a required or optional
    string; it never raises on a dict, and what it answers does not depend
    on the location. *)
Theorem validate_keys_accepts_iff :
  forall location d required optional,
    (validate_keys location (VDict d) required optional = Ok true
     <-> (forall r, In r required -> exists v, py_getitem d r = Ok v)
         /\ (forall k, In k (map fst d) ->
                       exists s, k = KStr s /\ In s (required ++ optional)%list))
    /\ (validate_keys location (VDict d) required optional = Ok true
        \/ validate_keys location (VDict d) required optional = Ok false).
Proof.
  intros location d required optional. unfold validate_keys.
  set (has := forallb (fun r => dict_mem pykey_eq_dec d (KStr r)) required).
  set (known := forallb _ (map fst d)).
  assert (Hhas : has = true <-> forall r, In r required -> exists v, py_getitem d r = Ok v).
  { unfold has. rewrite forallb_forall. split; intros H r Hr; specialize (H r Hr).
    - unfold dict_mem in H. unfold py_getitem, py_get.
      destruct (dict_get pykey_eq_dec d (KStr r)) as [v|]; [now exists v | discriminate].
    - destruct H as [v Hv]. unfold dict_mem. unfold py_getitem, py_get in Hv.
      now destruct (dict_get pykey_eq_dec d (KStr r)). }
  assert (Hknown : known = true
                   <-> forall k, In k (map fst d) ->
                                 exists s, k = KStr s /\ In s (required ++ optional)%list).
  { unfold known. rewrite forallb_forall. split; intros H k Hk; specialize (H k Hk).
    - destruct k as [s|ck]; [|discriminate]. exists s. split; [reflexivity|].
      apply existsb_exists in H as (x & Hx & Ex). apply String.eqb_eq in Ex. now subst.
    - destruct H as (s & -> & Hs). apply existsb_exists. exists s.
      split; [exact Hs | apply String.eqb_refl]. }
  destruct has; cbn [negb].
  - destruct known; cbn [negb].
    + split; [|now left]. split; [intros _|reflexivity].
      split; [now apply Hhas | now apply Hknown].
    + split; [|now right]. split; [discriminate|]. intros [_ H].
      apply Hknown in H. discriminate.
  - split; [|now right]. split; [discriminate|]. intros [H _].
    apply Hhas in H. discriminate.
Qed.

(** ** The requests of a push *)

Lemma Resource_apply_put_inv fuel self u spec apikey w status w' :
  Resource_apply_put fuel self u spec apikey w = Some (Ok status, w') ->
  exists req,
    json req = spec
    /\ sent w' = (sent w ++ [req])%list
    /\ files w' = files w
    /\ remote_service w' = remote_service w
    /\ remote_service w (length (sent w)) req = Response status.
Proof.
  unfold Resource_apply_put. intros H.
  apply bind_Ok_inv in H as (api_version & w1 & H1 & H).
  apply on_store_inv in H1 as (s1 & _ & ->).
  destruct apikey as [credential|].
  - apply bind_Ok_inv in H as (k & w2 & H2 & H).
    apply on_store_inv in H2 as (s2 & _ & ->).
    apply put_with_key_inv in H as (req & _ & Hj & -> & Hx). cbn in Hx |- *.
    exists req. repeat (split; [first [exact Hj | reflexivity]|]).
    destruct (remote_service w (length (sent w)) req); [congruence | discriminate].
  - apply put_with_key_inv in H as (req & _ & Hj & -> & Hx). cbn in Hx |- *.
    exists req. repeat (split; [first [exact Hj | reflexivity]|]).
    destruct (remote_service w (length (sent w)) req); [congruence | discriminate].
Qed.

Lemma Resource_apply_keys_protocol fuel :
  forall self u spec g w status w',
    Resource_apply_keys fuel self u spec g w = Some (Ok status, w') ->
    exists earlier last,
      sent w' = (sent w ++ earlier ++ [last])%list
      /\ files w' = files w
      /\ remote_service w' = remote_service w
      /\ (forall i r, nth_error earlier i = Some r ->
                      remote_service w (length (sent w) + i) r = Response 401
                      /\ json r = spec)
      /\ json last = spec
      /\ remote_service w (length (sent w) + length earlier) last = Response status.
Proof.
  induction fuel as [|fuel IH]; intros self u spec g w status w' H; [discriminate|].
  cbn [Resource_apply_keys] in H.
  apply bind_Ok_inv in H as (next & w1 & H1 & H).
  apply on_store_inv in H1 as (s1 & _ & ->).
  destruct next as [[[h apikey] g']|].
  - apply bind_Ok_inv in H as (st & w2 & H2 & H).
    apply Resource_apply_put_inv in H2 as (req & Hj & Hsent & Hfiles & Hserv & Hreply).
    cbn [sent files remote_service] in Hsent, Hfiles, Hserv, Hreply.
    destruct (Z.eqb st 401) eqn:E401; cbn [negb] in H.
    + apply Z.eqb_eq in E401. subst st.
      apply bind_Ok_inv in H as ([] & w3 & H3 & H).
      apply on_store_inv in H3 as (s3 & _ & ->).
      apply IH in H as (earlier & last & Hsent' & Hfiles' & Hserv' & Hall & Hlast & Hreply').
      cbn [sent files remote_service] in Hsent', Hfiles', Hserv', Hall, Hreply'.
      exists (req :: earlier), last.
      split; [rewrite Hsent', Hsent, <- app_assoc; reflexivity|].
      split; [congruence|]. split; [congruence|].
      rewrite Hsent, length_app in Hall, Hreply'. cbn [length] in Hall, Hreply'.
      rewrite Hserv in Hall, Hreply'.
      split; [|split; [exact Hlast|]].
      * intros [|i] r Hr.
        -- injection Hr as <-. rewrite Nat.add_0_r. split; [exact Hreply | exact Hj].
        -- replace (length (sent w) + S i) with (length (sent w) + 1 + i) by lia.
           now apply Hall.
      * cbn [length].
        replace (length (sent w) + S (length earlier))
          with (length (sent w) + 1 + length earlier) by lia.
        exact Hreply'.
    + injection H as <- <-. exists [], req.
      split; [exact Hsent|]. split; [exact Hfiles|]. split; [exact Hserv|].
      split; [intros [|i] r Hr; discriminate|]. split; [exact Hj|].
      cbn [length]. now rewrite Nat.add_0_r.
  - apply Resource_apply_put_inv in H as (req & Hj & Hsent & Hfiles & Hserv & Hreply).
    cbn [sent files remote_service] in Hsent, Hfiles, Hserv, Hreply.
    exists [], req.
    split; [exact Hsent|]. split; [exact Hfiles|]. split; [exact Hserv|].
    split; [intros [|i] r Hr; discriminate|]. split; [exact Hj|].
    cbn [length]. now rewrite Nat.add_0_r.
Qed.

(** X10.  The requests of one [Resource.apply] that returns: the
    credential search, the namespace and the materialization of the
    resource have succeeded, in this order; it has sent one or more
    requests, all with the same body, the [spec] of the document that
    [Resource.link] gave for the resource; every request but the last was
    answered 401; the result is [True] exactly when the last answer is
    200; and the disk and the service are as before. *)
Theorem Resource_apply_protocol :
  forall fuel self w b w',
    Resource_apply fuel self w = Some (Ok b, w') ->
    exists g s1 namespace u s2 doc s3 spec earlier last status,
      apikeys_for_resource fuel self (indices w) = Some (Ok (Some g), s1)
      /\ Resource_namespace self = Ok namespace
      /\ py_str fuel namespace s1 = Some (Ok u, s2)
      /\ Resource_link fuel self s2 = Some (Ok doc, s3)
      /\ py_getitem doc "spec" = Ok spec
      /\ sent w' = (sent w ++ earlier ++ [last])%list
      /\ files w' = files w
      /\ remote_service w' = remote_service w
      /\ (forall i r, nth_error earlier i = Some r ->
                      remote_service w (length (sent w) + i) r = Response 401
                      /\ json r = spec)
      /\ json last = spec
      /\ remote_service w (length (sent w) + length earlier) last = Response status
      /\ b = Z.eqb status 200.
Proof.
  intros fuel self w b w' H. unfold Resource_apply in H.
  apply bind_Ok_inv in H as (api_keys & w1 & H1 & H).
  apply on_store_inv in H1 as (s1 & Hgen & ->).
  apply bind_Ok_inv in H as (namespace & w2 & H2 & H).
  apply of_result_inv in H2 as [Hns ->].
  apply bind_Ok_inv in H as (u & w3 & H3 & H).
  apply on_store_inv in H3 as (s2 & Hurl & ->).
  apply bind_Ok_inv in H as (doc & w4 & H4 & H).
  apply on_store_inv in H4 as (s3 & Hdoc & ->).
  cbn [indices files sent remote_service] in *.
  destruct api_keys as [g|]; [|discriminate].
  apply bind_Ok_inv in H as (spec & w5 & H5 & H).
  apply of_result_inv in H5 as [Hspec ->].
  apply bind_Ok_inv in H as (status & w6 & H6 & H).
  apply Resource_apply_keys_protocol in H6
    as (earlier & last & Hsent & Hfiles & Hserv & Hall & Hlast & Hreply).
  cbn [sent files remote_service] in Hsent, Hfiles, Hserv, Hall, Hreply.
  assert (Hb : b = Z.eqb status 200 /\ w' = w6)
    by (destruct (Z.eqb status 200); injection H as <- <-; split; reflexivity).
  destruct Hb as [-> ->].
  exists g, s1, namespace, u, s2, doc, s3, spec, earlier, last, status.
  split; [exact Hgen|]. split; [now symmetry|]. split; [exact Hurl|].
  split; [exact Hdoc|]. split; [now symmetry|].
  split; [exact Hsent|]. split; [exact Hfiles|]. split; [exact Hserv|].
  split; [exact Hall|]. split; [exact Hlast|]. split; [exact Hreply | reflexivity].
Qed.

Lemma Resource_apply_protocol_witness :
  Resource_apply 6 acme_client first_run_rejected = Some (Ok false, after_rejected_client)
  /\ exists earlier last,
       sent after_rejected_client = (earlier ++ [last])%list
       /\ json last = acme_spec.
Proof.
  assert (H : Resource_apply 6 acme_client first_run_rejected
              = Some (Ok false, after_rejected_client)) by (vm_compute; reflexivity).
  split; [exact H|].
  destruct (Resource_apply_protocol 6 acme_client first_run_rejected false
              after_rejected_client H)
    as (g & s1 & ns & u & s2 & doc & s3 & spec & earlier & last & status
        & _ & _ & _ & _ & _ & Hsent & _ & _ & Hall & Hlast & _).
  exists earlier, last. split; [exact Hsent|].
  destruct earlier as [|r earlier].
  - vm_compute in Hsent. injection Hsent as _ Habs. discriminate.
  - destruct (Hall 0 r eq_refl) as [_ Hr]. rewrite Hlast, <- Hr.
    vm_compute in Hsent. injection Hsent as <- _. reflexivity.
Defined.

(** ** The disk after a run *)

Lemma written_other updated :
  forall fs p,
    ~ In p (map fst updated) ->
    dict_get string_dec (written updated fs) p = dict_get string_dec fs p.
Proof.
  unfold written. induction updated as [|[f docs] rest IH]; intros fs p Hp; [reflexivity|].
  cbn [fold_left fst snd]. rewrite IH; [|intros Hin; apply Hp; now right].
  apply dict_get_set_other. intros ->. apply Hp. now left.
Qed.

(** X11.  What a whole [Commander.apply] does to the disk.  When the
    [try] block succeeds, the disk at the end is the disk at the start
    with the files of the merge pass written over it, whether the pushes
    succeed, fail or raise: the push phase never writes or removes a file,
    and a file that the merge pass did not return keeps its content.
    Otherwise the disk is unchanged.  In every case the requests sent
    before are still there, in order, before the new ones. *)
Theorem Commander_apply_disk :
  forall compile_config fuel new_configs prior_configs resources_path secrets_path w r w',
    Commander_apply compile_config fuel new_configs prior_configs
                    resources_path secrets_path w = Some (r, w') ->
    remote_service w' = remote_service w
    /\ (exists reqs, sent w' = (sent w ++ reqs)%list)
    /\ match prepare compile_config fuel (files w) new_configs prior_configs
                     resources_path secrets_path (indices w) with
       | Some (Ok updated_configs, _) =>
           files w' = written updated_configs (files w)
           /\ forall p, ~ In p (map fst updated_configs) ->
                        dict_get string_dec (files w') p = dict_get string_dec (files w) p
       | _ => files w' = files w
       end.
Proof.
  intros cc fuel new prior rp sp w r w' H.
  unfold Commander_apply, bind, gets, attempt, on_store in H.
  destruct (prepare cc fuel (files w) new prior rp sp (indices w))
    as [[[updated|e] s']|]; [| |discriminate].
  - unfold save_files in H. cbn [indices files sent remote_service] in H.
    apply appends_push_updates in H as (Hf & Hs & reqs & Hr).
    cbn [files sent remote_service] in Hf, Hs, Hr.
    split; [exact Hs|]. split; [now exists reqs|].
    split; [exact Hf|]. intros p Hp. rewrite Hf. now apply written_other.
  - assert (Hw : w' = mkWorld s' (files w) (sent w) (remote_service w))
      by (destruct e; injection H as _ <-; reflexivity).
    subst w'. cbn. split; [reflexivity|]. split; [|reflexivity].
    exists []. now rewrite app_nil_r.
Qed.

Lemma Commander_apply_disk_witness :
  let w := mkWorld fresh_store disk_with_notes [] (always 200) in
  exists w',
    Commander_apply compile_acme 8 [("bundle.yaml", 0, acme_bundle)] []
                    "resources" "secrets" w = Some (Ok tt, w')
    /\ dict_get string_dec (files w') "notes.txt" = Some [VStr "notes"].
Proof.
  intros w.
  assert (H : exists w', Commander_apply compile_acme 8 [("bundle.yaml", 0, acme_bundle)] []
                                         "resources" "secrets" w = Some (Ok tt, w'))
    by (eexists; vm_compute; reflexivity).
  destruct H as [w' H]. exists w'. split; [exact H|].
  assert (Hp : exists u s,
             prepare compile_acme 8 (files w) [("bundle.yaml", 0, acme_bundle)] []
                     "resources" "secrets" (indices w) = Some (Ok u, s)
             /\ ~ In "notes.txt" (map fst u)).
  { do 2 eexists. split.
    - vm_compute. reflexivity.
    - cbn. intros [E|[E|[]]]; discriminate. }
  destruct Hp as (u & s & Hp & Hnot).
  destruct (Commander_apply_disk compile_acme 8 [("bundle.yaml", 0, acme_bundle)] []
              "resources" "secrets" w (Ok tt) w' H) as (_ & _ & Hd).
  rewrite Hp in Hd. destruct Hd as [_ Hd]. rewrite (Hd "notes.txt" Hnot). reflexivity.
Defined.

(** ** The merge pass *)

Lemma defaultdict_get_touch d k f :
  defaultdict_get (defaultdict_touch d k) f = defaultdict_get d f.
Proof.
  unfold defaultdict_touch, dict_mem.
  destruct (dict_get string_dec d k) as [l|] eqn:E; [reflexivity|].
  unfold defaultdict_get. destruct (string_dec f k) as [->|Hne].
  - now rewrite dict_get_set_same, E.
  - now rewrite dict_get_set_other.
Qed.

Lemma defaultdict_get_set_same d k l :
  defaultdict_get (dict_set string_dec d k l) k = l.
Proof. unfold defaultdict_get. now rewrite dict_get_set_same. Qed.

Lemma defaultdict_get_set_other d k l f :
  f <> k -> defaultdict_get (dict_set string_dec d k l) f = defaultdict_get d f.
Proof. intros Hne. unfold defaultdict_get. now rewrite dict_get_set_other. Qed.

Lemma list_assign_spec l :
  forall i v l',
    list_assign l i v = Some l' ->
    length l' = length l /\ forall j, j <> i -> nth_error l' j = nth_error l j.
Proof.
  induction l as [|x xs IH]; intros i v l' H; [discriminate|].
  destruct i as [|i]; cbn [list_assign] in H.
  - injection H as <-. split; [reflexivity|]. intros [|j] Hj; [contradiction | reflexivity].
  - destruct (list_assign xs i v) as [xs'|] eqn:E; [|discriminate].
    injection H as <-. destruct (IH i v xs' E) as [Hlen Hnth].
    split; [cbn [length]; now rewrite Hlen|].
    intros [|j] Hj; [reflexivity|]. cbn [nth_error]. apply Hnth. lia.
Qed.

Lemma documents_of_fold prior :
  forall d f,
    defaultdict_get
      (fold_left (fun d (c : located_config) => defaultdict_append d (fst (fst c)) (snd c))
                 prior d) f
    = (defaultdict_get d f ++ documents_of f prior)%list.
Proof.
  induction prior as [|[[file i] config] rest IH]; intros d f.
  - cbn. now rewrite app_nil_r.
  - cbn [fold_left fst snd]. rewrite IH. unfold documents_of. cbn [filter fst snd].
    unfold defaultdict_append.
    destruct (String.eqb_spec file f) as [->|Hne].
    + rewrite defaultdict_get_set_same. cbn [map snd]. now rewrite <- app_assoc.
    + rewrite defaultdict_get_set_other; [reflexivity | congruence].
Qed.

Section MergeInvariant.
Variable untouched : string -> nat -> Prop.

Lemma keeps_refl d : keeps untouched d d.
Proof. intros f. split; [lia | reflexivity]. Qed.

Lemma keeps_trans d1 d2 d3 : keeps untouched d1 d2 -> keeps untouched d2 d3 -> keeps untouched d1 d3.
Proof.
  intros H12 H23 f. destruct (H12 f) as [L12 N12]. destruct (H23 f) as [L23 N23].
  split; [lia|]. intros i Hu Hi. rewrite N23; [now apply N12 | exact Hu | lia].
Qed.

Lemma keeps_touch d k : keeps untouched d (defaultdict_touch d k).
Proof. intros f. rewrite defaultdict_get_touch. split; [lia | reflexivity]. Qed.

Lemma keeps_append d k v : keeps untouched d (defaultdict_append d k v).
Proof.
  intros f. unfold defaultdict_append. destruct (string_dec f k) as [->|Hne].
  - rewrite defaultdict_get_set_same, length_app. split; [lia|].
    intros i _ Hi. now apply nth_error_app1.
  - rewrite defaultdict_get_set_other by exact Hne. split; [lia | reflexivity].
Qed.

Lemma keeps_assign d k i v docs :
  ~ untouched k i ->
  list_assign (defaultdict_get d k) i v = Some docs ->
  keeps untouched d (dict_set string_dec d k docs).
Proof.
  intros Hi Ha f. destruct (list_assign_spec _ _ _ _ Ha) as [Hlen Hnth].
  destruct (string_dec f k) as [->|Hne].
  - rewrite defaultdict_get_set_same. split; [lia|].
    intros j Hu _. apply Hnth. intros ->. contradiction.
  - rewrite defaultdict_get_set_other by exact Hne. split; [lia | reflexivity].
Qed.

Lemma link_resources_loop_keeps fuel fs rp sp existing :
  forall items st s st' s',
    existing_resources s = existing ->
    (forall ref target loc,
        In (ref, target) items ->
        dict_get ResourceReference_eq_dec existing ref = Some loc ->
        ~ untouched (path loc) (index loc)) ->
    link_resources_loop fuel fs rp sp items st s = Some (Ok st', s') ->
    keeps untouched (updated_configs st) (updated_configs st').
Proof.
  induction items as [|[ref target] rest IH]; intros st s st' s' Hex Hitems H.
  - injection H as <- _. apply keeps_refl.
  - assert (Hrest : forall ref' target' loc,
               In (ref', target') rest ->
               dict_get ResourceReference_eq_dec existing ref' = Some loc ->
               ~ untouched (path loc) (index loc))
      by (intros ref' target' loc Hin; apply (Hitems ref' target' loc); now right).
    cbn [link_resources_loop] in H.
    apply bind_Ok_inv in H as (found & s0 & H0 & H). injection H0 as <- <-.
    rewrite Hex in H.
    destruct (dict_get ResourceReference_eq_dec existing ref) as [loc|] eqn:E.
    + apply bind_Ok_inv in H as (doc & s1 & H1 & H).
      apply preserves_Resource_link in H1 as (_ & _ & Hex1).
      destruct (list_assign _ (index loc) (VDict doc)) as [docs|] eqn:La; [|discriminate].
      apply IH in H; [|congruence | exact Hrest]. cbn [updated_configs] in H.
      eapply keeps_trans; [|exact H].
      eapply keeps_trans; [apply (keeps_touch _ (path loc))|].
      eapply keeps_assign; [|exact La].
      apply (Hitems ref target loc); [now left | exact E].
    + apply bind_Ok_inv in H as (target_file & s1 & H1 & H).
      unfold reading in H1.
      destruct (create_resource_path fuel fs _ (config target)) as [created|];
        [|discriminate].
      injection H1 as -> <-.
      apply bind_Ok_inv in H as (linked & s2 & H2 & H).
      unfold attempt in H2.
      destruct (Resource_link fuel target s) as [[x sx]|] eqn:E2; [|discriminate].
      injection H2 as <- <-.
      apply preserves_Resource_link in E2 as (_ & _ & Hex2).
      destruct x as [doc|e].
      * apply IH in H; [|congruence | exact Hrest]. cbn [updated_configs] in H.
        eapply keeps_trans; [|exact H].
        eapply keeps_trans; [apply (keeps_touch _ target_file) | apply keeps_append].
      * destruct e; try discriminate.
        apply IH in H; [|congruence | exact Hrest]. cbn [updated_configs] in H.
        eapply keeps_trans; [|exact H]. apply keeps_touch.
Qed.
End MergeInvariant.

(** X12.  The merge pass rewrites a file without losing any of its
    documents: every file [link_resources] returns holds at least the
    documents the prior configs had for it, and each of them is still at
    its position unless it is the persisted form of a resource that was
    compiled again; new documents are added after them. *)
Theorem link_resources_keeps_other_documents :
  forall fuel fs prior_configs resources_path secrets_path s updated s',
    link_resources fuel fs prior_configs resources_path secrets_path s
    = Some (Ok updated, s') ->
    forall file docs,
      In (file, docs) updated ->
      length (documents_of file prior_configs) <= length docs
      /\ forall i, i < length (documents_of file prior_configs) ->
                   ~ rewritten s file i ->
                   nth_error docs i = nth_error (documents_of file prior_configs) i.
Proof.
  intros fuel fs prior rp sp s updated s' H file docs Hin.
  unfold link_resources in H.
  apply bind_Ok_inv in H as (items & s0 & H0 & H). injection H0 as <- <-.
  apply bind_Ok_inv in H as (st & s1 & H1 & H).
  destruct (error st); [discriminate|]. injection H as <- _.
  apply in_map_iff in Hin as (x & Ex & _). injection Ex as -> <-.
  apply (link_resources_loop_keeps (fun f i => ~ rewritten s f i) fuel fs rp sp
           (existing_resources s)) in H1; [|reflexivity|].
  - destruct (H1 file) as [Hlen Hnth]. cbn [updated_configs] in Hlen, Hnth.
    rewrite documents_of_fold in Hlen, Hnth. cbn [defaultdict_get dict_get app] in Hlen, Hnth.
    split; [exact Hlen|]. intros i Hi Hu. now apply Hnth.
  - intros ref target loc Hitem Hloc Hn. apply Hn. now exists ref, target, loc.
Qed.

Lemma link_resources_keeps_other_documents_witness :
  exists docs s',
    link_resources 3 [] acme_file_with_notes "resources" "secrets" second_run
    = Some (Ok [("resources/Client/acme.yaml", docs)], s')
    /\ nth_error docs 1 = Some (VStr "notes").
Proof.
  assert (H : exists docs s',
             link_resources 3 [] acme_file_with_notes "resources" "secrets" second_run
             = Some (Ok [("resources/Client/acme.yaml", docs)], s'))
    by (do 2 eexists; vm_compute; reflexivity).
  destruct H as (docs & s' & H). exists docs, s'. split; [exact H|].
  destruct (link_resources_keeps_other_documents 3 [] acme_file_with_notes "resources"
              "secrets" second_run _ s' H "resources/Client/acme.yaml" docs
              (or_introl eq_refl)) as [_ Hnth].
  rewrite (Hnth 1); [reflexivity | cbn; lia |].
  intros (ref & target & loc & Hc & Hl & _ & Hi).
  destruct Hc as [Hc|[]]. injection Hc as <- _.
  vm_compute in Hl. injection Hl as <-. discriminate.
Defined.

(** ** Compilation *)

Lemma existsb_reference k l :
  existsb (fun k' => if ResourceReference_eq_dec k k' then true else false) l = true
  <-> In k l.
Proof.
  rewrite existsb_exists. split.
  - intros (x & Hx & E). destruct (ResourceReference_eq_dec k x); [now subst | discriminate].
  - intros H. exists k. split; [exact H|]. now destruct (ResourceReference_eq_dec k k).
Qed.

(** X13.  The loop of [compile_configs] over the resources of one document:
    a reference that was compiled before is never overwritten, the first
    resource of the document with a new reference is the one registered
    under it, later ones with the same reference are dropped, and every
    other entry of [compiled_resources] stays as it is. *)
Theorem register_compiled_first_wins :
  forall resources already s,
    (forall k, In k already ->
               dict_get ResourceReference_eq_dec
                        (compiled_resources (snd (register_compiled resources already s))) k
               = dict_get ResourceReference_eq_dec (compiled_resources s) k)
    /\ (forall k, ~ In k already ->
                  dict_get ResourceReference_eq_dec
                           (compiled_resources (snd (register_compiled resources already s))) k
                  = match first_with_reference k resources with
                    | Some r => Some r
                    | None => dict_get ResourceReference_eq_dec (compiled_resources s) k
                    end)
    /\ (forall k, In k (fst (register_compiled resources already s))
                  <-> In k already \/ In k (map Resource_reference resources)).
Proof.
  induction resources as [|r rest IH]; intros already s.
  - cbn. split; [reflexivity|]. split; [reflexivity|]. intros k. tauto.
  - cbn [register_compiled].
    destruct (existsb _ already) eqn:Ex.
    + apply existsb_reference in Ex.
      destruct (IH already s) as (Hold & Hnew & Hin).
      split; [exact Hold|]. split.
      * intros k Hk. rewrite (Hnew k Hk). unfold first_with_reference. cbn [find].
        destruct (ResourceReference_eq_dec (Resource_reference r) k) as [<-|]; 
          [contradiction | reflexivity].
      * intros k. rewrite Hin. cbn [map In]. split; [tauto|].
        intros [H|[<-|H]]; tauto.
    + assert (Hnot : ~ In (Resource_reference r) already).
      { intros Hin. apply existsb_reference in Hin. congruence. }
      destruct (IH (Resource_reference r :: already)
                   (set_compiled_resources s
                      (dict_set ResourceReference_eq_dec (compiled_resources s)
                                (Resource_reference r) r)))
        as (Hold & Hnew & Hin).
      split; [|split].
      * intros k Hk. rewrite (Hold k (or_intror Hk)). cbn.
        apply dict_get_set_other. intros ->. contradiction.
      * intros k Hk. unfold first_with_reference. cbn [find].
        destruct (ResourceReference_eq_dec (Resource_reference r) k) as [<-|Hne].
        -- rewrite (Hold _ (or_introl eq_refl)). cbn. apply dict_get_set_same.
        -- rewrite Hnew; [|intros [E|E]; [congruence | contradiction]].
           fold (first_with_reference k rest).
           destruct (first_with_reference k rest); [reflexivity|].
           cbn. apply dict_get_set_other. congruence.
      * intros k. rewrite Hin. cbn [map In]. tauto.
Qed.

(** ** The format of an apiVersion *)

Lemma append_empty_r (s : string) : s ++ "" = s.
Proof. induction s as [|c s IH]; cbn; [reflexivity | now rewrite IH]. Qed.

Lemma group_run_spec s :
  exists g,
    s = g ++ snd (group_run s)
    /\ String.length g = fst (group_run s)
    /\ all_group_chars g = true
    /\ match snd (group_run s) with
       | String c _ => group_char c = false
       | EmptyString => True
       end.
Proof.
  induction s as [|c rest (g & Hs & Hlen & Hall & Hnext)].
  - exists "". cbn. auto.
  - cbn [group_run]. destruct (group_char c) eqn:Ec.
    + destruct (group_run rest) as [n r]. cbn [fst snd] in *.
      exists (String c g). cbn [append String.length all_group_chars].
      rewrite Ec, Hall, Hlen, <- Hs. auto.
    + exists "". cbn [fst snd append String.length all_group_chars]. auto.
Qed.

Lemma group_run_append g r :
  all_group_chars g = true ->
  match r with String c _ => group_char c = false | EmptyString => True end ->
  group_run (g ++ r) = (String.length g, r).
Proof.
  intros Hg Hr. induction g as [|c g IH]; cbn [append String.length].
  - destruct r as [|c r]; [reflexivity|]. cbn [group_run]. now rewrite Hr.
  - cbn [all_group_chars] in Hg. apply andb_prop in Hg as [Hc Hg].
    cbn [group_run]. rewrite Hc, (IH Hg). reflexivity.
Qed.

(** X14.  The apiVersion pattern of the reader,
    [^[a-z0-9.-]+/[a-z0-9.-]+$], accepts exactly the strings made of a
    non-empty group, a slash and a non-empty version, both over lowercase
    letters, digits, dots and dashes, optionally followed by one final
    newline (which [$] lets through). *)
Theorem matches_group_version_iff :
  forall s,
    matches_group_version s = true
    <-> exists g v,
          g <> "" /\ v <> ""
          /\ all_group_chars g = true /\ all_group_chars v = true
          /\ (s = g ++ "/" ++ v \/ s = g ++ "/" ++ v ++ newline).
Proof.
  intros s. split.
  - unfold matches_group_version. intros H.
    destruct (group_run_spec s) as (g & Hs & Hlen & Hg & _).
    destruct (group_run s) as [n1 r1]. cbn [fst snd] in *.
    apply andb_prop in H as [Hn1 H]. apply Nat.ltb_lt in Hn1.
    destruct r1 as [|c r2]; [discriminate|].
    apply andb_prop in H as [Hc H]. apply Ascii.eqb_eq in Hc. subst c.
    destruct (group_run_spec r2) as (v & Hr2 & Hlen2 & Hv & _).
    destruct (group_run r2) as [n2 r3]. cbn [fst snd] in *.
    apply andb_prop in H as [Hn2 H]. apply Nat.ltb_lt in Hn2.
    exists g, v.
    split; [intros ->; cbn in Hlen; lia|].
    split; [intros ->; cbn in Hlen2; lia|].
    split; [exact Hg|]. split; [exact Hv|].
    apply orb_prop in H as [H|H]; apply String.eqb_eq in H; subst r3.
    + left. rewrite Hs, Hr2. now rewrite append_empty_r.
    + right. rewrite Hs, Hr2. reflexivity.
  - intros (g & v & Hg0 & Hv0 & Hg & Hv & Hs).
    assert (Hslash : group_char "/" = false) by reflexivity.
    assert (Hnl : group_char (ascii_of_nat 10) = false) by reflexivity.
    assert (Lg : 0 < String.length g) by (destruct g; [contradiction | cbn; lia]).
    assert (Lv : 0 < String.length v) by (destruct v; [contradiction | cbn; lia]).
    unfold matches_group_version.
    destruct Hs as [-> | ->].
    + rewrite (group_run_append g ("/" ++ v)); [|exact Hg | exact Hslash].
      cbn [append]. rewrite <- (append_empty_r v) at 1.
      rewrite (group_run_append v ""); [|exact Hv | exact I].
      apply Nat.ltb_lt in Lg, Lv. rewrite Lg, Lv. reflexivity.
    + rewrite (group_run_append g ("/" ++ v ++ newline)); [|exact Hg | exact Hslash].
      cbn [append]. rewrite (group_run_append v newline); [|exact Hv | exact Hnl].
      apply Nat.ltb_lt in Lg, Lv. rewrite Lg, Lv. reflexivity.
Qed.

(** ** Pushing a resource that no client owns *)

Lemma bind_inv {S A B} (m : M S A) (f : A -> M S B) s r s' :
  bind m f s = Some (r, s') ->
  (exists e, m s = Some (Raise e, s') /\ r = Raise e)
  \/ exists a s1, m s = Some (Ok a, s1) /\ f a s1 = Some (r, s').
Proof.
  unfold bind. destruct (m s) as [[[a|e] s1]|]; [| |discriminate].
  - intros H. right. now exists a, s1.
  - intros H. injection H as <- <-. left. now exists e.
Qed.

(** X15.  When the walk of [apikeys_for_resource] ends without meeting a
    [Client] (the resource is not a client and the chain of its parents
    ends), it returns [None], and [Resource.apply] then never returns:
    every outcome is an exception, and nothing was sent.  The branch of
    [Resource.apply] that reports that no ApiKey is authorized is never
    taken. *)
Theorem Resource_apply_without_client_raises :
  forall fuel self w s1 r w',
    apikeys_for_resource fuel self (indices w) = Some (Ok None, s1) ->
    Resource_apply fuel self w = Some (r, w') ->
    (exists e, r = Raise e) /\ sent w' = sent w /\ files w' = files w.
Proof.
  intros fuel self w s1 r w' Hgen H. unfold Resource_apply in H.
  apply bind_inv in H as [(e & H & ->)|(api_keys & w1 & H1 & H)].
  { apply on_store_inv in H as (s' & _ & ->). cbn. eauto. }
  apply on_store_inv in H1 as (s' & H1 & ->).
  rewrite Hgen in H1. injection H1 as <- <-.
  apply bind_inv in H as [(e & H & ->)|(namespace & w2 & H2 & H)].
  { apply of_result_inv in H as [_ ->]. cbn. eauto. }
  apply of_result_inv in H2 as [_ ->].
  apply bind_inv in H as [(e & H & ->)|(u & w3 & H3 & H)].
  { apply on_store_inv in H as (s' & _ & ->). cbn. eauto. }
  apply on_store_inv in H3 as (s3 & _ & ->).
  apply bind_inv in H as [(e & H & ->)|(compiled_config & w4 & H4 & H)].
  { apply on_store_inv in H as (s' & _ & ->). cbn. eauto. }
  apply on_store_inv in H4 as (s4 & _ & ->).
  injection H as <- <-. cbn. eauto.
Qed.

Lemma Resource_apply_without_client_raises_witness :
  let w := mkWorld first_run [] [] (always 200) in
  exists s1 w',
    apikeys_for_resource 3 orphan_group (indices w) = Some (Ok None, s1)
    /\ Resource_apply 3 orphan_group w = Some (Raise TypeError, w')
    /\ sent w' = [].
Proof.
  intros w.
  assert (Hgen : apikeys_for_resource 3 orphan_group (indices w) = Some (Ok None, first_run))
    by (vm_compute; reflexivity).
  assert (H : exists w', Resource_apply 3 orphan_group w = Some (Raise TypeError, w'))
    by (eexists; vm_compute; reflexivity).
  destruct H as [w' H]. exists first_run, w'.
  split; [exact Hgen|]. split; [exact H|].
  exact (proj1 (proj2 (Resource_apply_without_client_raises 3 orphan_group w first_run
                         (Raise TypeError) w' Hgen H))).
Defined.

(** ** The locate pass *)

Lemma dict_set_absent {K V : Type} (K_eq_dec : forall a b : K, {a = b} + {a <> b})
      (d : list (K * V)) k v :
  dict_get K_eq_dec d k = None -> dict_set K_eq_dec d k v = (d ++ [(k, v)])%list.
Proof.
  induction d as [|[k' v'] d IH]; cbn; [reflexivity|].
  destruct (K_eq_dec k k'); [discriminate|]. intros H. now rewrite IH.
Qed.

Lemma attempt_total_inv {S A} (f : S -> result A * S) s r s' :
  attempt (total f) s = Some (r, s') -> r = Ok (fst (f s)) /\ s' = snd (f s).
Proof.
  unfold attempt, total. destruct (f s) as [x s1]. intros H. injection H as <- <-. auto.
Qed.

Section LocatePass.
Variable compile_config : string -> value -> store -> result (list Resource) * store.
Hypothesis compile_config_existing :
  forall filepath config s,
    existing_resources (snd (compile_config filepath config s)) = existing_resources s.

Lemma map_config_locations_loop_outcome :
  forall prior_configs error s r s',
    map_config_locations_loop compile_config prior_configs error s = Some (r, s') ->
    (forall ref loc,
        dict_get ResourceReference_eq_dec (existing_resources s) ref = Some loc ->
        dict_get ResourceReference_eq_dec (existing_resources s') ref = Some loc)
    /\ (r = Ok false ->
        error = false
        /\ map location_of (existing_resources s')
           = (map location_of (existing_resources s)
              ++ map (fun c : located_config => (fst (fst c), snd (fst c)))
                     (filter persisted_resource prior_configs))%list).
Proof.
  induction prior_configs as [|[[path i] config] rest IH]; intros error s r s' H.
  - injection H as <- <-. split; [auto|]. intros E. injection E as ->.
    split; [reflexivity|]. cbn. now rewrite app_nil_r.
  - cbn [map_config_locations_loop] in H. cbn [filter]. unfold persisted_resource at 1.
    cbn [snd].
    apply bind_inv in H as [(e & H & ->)|(itl & s0 & H0 & H)].
    { apply of_result_inv in H as [_ ->]. split; [auto | discriminate]. }
    apply of_result_inv in H0 as [Eitl ->]. rewrite <- Eitl.
    destruct itl; cbn [negb] in H; [|now apply IH in H].
    apply bind_inv in H as [(e & H & ->)|(k & s0 & H0 & H)].
    { apply of_result_inv in H as [_ ->]. split; [auto | discriminate]. }
    apply of_result_inv in H0 as [Ek ->]. rewrite <- Ek.
    destruct (value_eq_dec k (VStr "ResourceDefs")); [now apply IH in H|].
    apply bind_inv in H as [(e & H & ->)|(compiled & s1 & H1 & H)].
    { apply attempt_total_inv in H as [H _]. discriminate. }
    apply attempt_total_inv in H1 as [Hc ->]. injection Hc as ->.
    pose proof (compile_config_existing path config s) as Hcc.
    destruct (compile_config path config s) as [[[|resource others]|e] s1];
      cbn [fst snd] in H, Hcc.
    + injection H as <- <-. rewrite Hcc. split; [auto | discriminate].
    + apply bind_inv in H as [(e & H & ->)|(known & s2 & H2 & H)]; [discriminate|].
      injection H2 as <- <-. rewrite Hcc in H.
      destruct (dict_mem ResourceReference_eq_dec (existing_resources s)
                         (Resource_reference resource)) eqn:Mem.
      * apply IH in H as (Hkeep & Hok). rewrite Hcc in Hkeep, Hok.
        split; [exact Hkeep|]. intros E. destruct (Hok E) as [Habs _]. discriminate.
      * apply bind_inv in H as [(e & H & ->)|([] & s2 & H2 & H)]; [discriminate|].
        cbv beta in H2. injection H2 as <-.
        apply IH in H as (Hkeep & Hok).
        cbn [existing_resources set_existing_resources] in Hkeep, Hok.
        rewrite Hcc in Hkeep, Hok.
        assert (Habsent : dict_get ResourceReference_eq_dec (existing_resources s)
                                   (Resource_reference resource) = None)
          by (unfold dict_mem in Mem;
              destruct (dict_get ResourceReference_eq_dec (existing_resources s)
                                 (Resource_reference resource)); [discriminate | reflexivity]).
        split.
        -- intros ref loc Hloc. apply Hkeep.
           rewrite dict_get_set_other; [exact Hloc|].
           intros ->. congruence.
        -- intros E. destruct (Hok E) as [-> Hlocs]. split; [reflexivity|].
           rewrite Hlocs, (dict_set_absent _ _ _ _ Habsent), map_app, <- app_assoc.
           reflexivity.
    + destruct e; try (injection H as <- <-; rewrite Hcc; split; [auto | discriminate]).
      apply IH in H as (Hkeep & Hok). rewrite Hcc in Hkeep, Hok.
      split; [exact Hkeep|]. intros E. destruct (Hok E) as [Habs _]. discriminate.
Qed.
End LocatePass.

(** X16.  The locate pass, for constructors that leave
    [existing_resources] alone.  Whatever its outcome, an entry of
    [existing_resources] is never replaced.  When it returns normally,
    every persisted document that is a resource of a kind other than
    [ResourceDefs] got an entry of its own that records its file and its
    ordinal in the file, in the order of the documents: none was skipped,
    and no two of them produced the same reference. *)
Theorem map_config_locations_locates_each_document :
  forall compile_config,
    (forall filepath config s,
        existing_resources (snd (compile_config filepath config s)) = existing_resources s) ->
    forall prior_configs s r s',
      map_config_locations compile_config prior_configs s = Some (r, s') ->
      (forall ref loc,
          dict_get ResourceReference_eq_dec (existing_resources s) ref = Some loc ->
          dict_get ResourceReference_eq_dec (existing_resources s') ref = Some loc)
      /\ (r = Ok tt ->
          map location_of (existing_resources s')
          = (map location_of (existing_resources s)
             ++ map (fun c : located_config => (fst (fst c), snd (fst c)))
                    (filter persisted_resource prior_configs))%list).
Proof.
  intros cc Hcc prior s r s' H. unfold map_config_locations in H.
  apply bind_inv in H as [(e & H & ->)|(error & s1 & H1 & H)].
  - destruct (map_config_locations_loop_outcome cc Hcc prior false s _ _ H) as (Hkeep & _).
    split; [exact Hkeep | discriminate].
  - destruct (map_config_locations_loop_outcome cc Hcc prior false s _ _ H1)
      as (Hkeep & Hok).
    destruct error; injection H as <- <-.
    + split; [exact Hkeep | discriminate].
    + split; [exact Hkeep|]. intros _. exact (proj2 (Hok eq_refl)).
Qed.

Lemma map_config_locations_locates_each_document_witness :
  exists s',
    map_config_locations compile_acme_document acme_file_with_notes fresh_store
    = Some (Ok tt, s')
    /\ map location_of (existing_resources s') = [("resources/Client/acme.yaml", 0)].
Proof.
  assert (H : exists s', map_config_locations compile_acme_document acme_file_with_notes
                                              fresh_store = Some (Ok tt, s'))
    by (eexists; vm_compute; reflexivity).
  destruct H as [s' H]. exists s'. split; [exact H|].
  exact (proj2 (map_config_locations_locates_each_document compile_acme_document
                  (fun _ _ _ => eq_refl) acme_file_with_notes fresh_store (Ok tt) s' H)
               eq_refl).
Defined.
